(** * Datatool: the command dispatcher of [datatool/analyzer.py]

    [DataAnalyzer.run] takes one line of text, parses it into a function name
    and a list of raw string arguments, validates the column names it refers
    to against the loaded table and routes it to a dataframe method or to a
    chart call.  This file embeds that method, the loop of [cli.main] around
    it, and the parts of Python and of the dataframe library they rely on,
    and proves the properties of the specification about them.

    Conventions of the embedding.
    - Text is a list of characters ([str]), one Unicode code point each, as
      in a Python [str].  Whitespace ([str.isspace]) is written out.  Which
      characters beyond ASCII are alphanumeric, and which are decimal
      digits, depends on the version of the character database of the
      Python runtime: the two tables are the fields of a [unicode], and
      every property is proved for every such database.
    - Floats are binary64 values ([spec_float] at precision 53), integers
      are unbounded ([Z]).
    - [run] lives in the monad [M] over the [world]: the analyzer object
      ([self.df]) and the display surface.  Python's [return x] is [ret x];
      [self.df = x] is [put_df x]; an exception that leaves [run] is the
      outcome [Raise e].
    - The dataframe methods whose result is numeric or formatted text
      (describe, corr, mean, the reduction of a group, ...) and the chart
      calls are not code of this repository: they are the fields of a
      [backend], each a [method] that returns its outcome together with the
      table as the call leaves it, and every property is proved for every
      backend.  The structural methods (column lookup, head, tail, boolean
      selection, comparison of a column with a scalar, grouping), which
      return a new object, are written out. *)

From Stdlib Require Import List Ascii String ZArith NArith Lia Bool Arith Sorted.
From Stdlib Require Import Floats.SpecFloat.
Import ListNotations.

Local Open Scope string_scope.
Local Open Scope list_scope.
Local Open Scope Z_scope.

(** ** Text *)

(** A character is its code point. *)
Definition char := N.

Definition str := list char.

Definition chr (a : ascii) : char := N_of_ascii a.

(** Literals are written in UTF-8: one to four bytes for each character. *)
Fixpoint utf8 (bytes : list N) : str :=
  match bytes with
  | [] => []
  | x :: r =>
      if (x <? 128)%N then x :: utf8 r
      else if (x <? 224)%N then
        match r with
        | y :: r1 => ((x - 192) * 64 + (y - 128))%N :: utf8 r1
        | _ => []
        end
      else if (x <? 240)%N then
        match r with
        | y :: z :: r2 =>
            ((x - 224) * 4096 + (y - 128) * 64 + (z - 128))%N :: utf8 r2
        | _ => []
        end
      else
        match r with
        | y :: z :: t :: r3 =>
            ((x - 240) * 262144 + (y - 128) * 4096 + (z - 128) * 64
             + (t - 128))%N :: utf8 r3
        | _ => []
        end
  end.

Definition text (s : string) : list char :=
  utf8 (map N_of_ascii (list_ascii_of_string s)).

Coercion text : string >-> list.

Fixpoint str_eqb (a b : str) : bool :=
  match a, b with
  | [], [] => true
  | x :: a', y :: b' => (x =? y)%N && str_eqb a' b'
  | _, _ => false
  end.

(** Python compares strings by code point, lexicographically. *)
Fixpoint str_compare (a b : str) : comparison :=
  match a, b with
  | [], [] => Eq
  | [], _ :: _ => Lt
  | _ :: _, [] => Gt
  | x :: a', y :: b' =>
      match N.compare x y with
      | Eq => str_compare a' b'
      | o => o
      end
  end.

(** [str.isspace]: TAB..CR, FS..US and the space; NEL, the no-break space,
    the Ogham space mark, EN QUAD..HAIR SPACE, the line and the paragraph
    separator, the narrow no-break space, the medium mathematical space and
    the ideographic space. *)
Definition is_space (c : char) : bool :=
  ((9 <=? c) && (c <=? 13) || (28 <=? c) && (c <=? 32)
   || (c =? 133) || (c =? 160) || (c =? 5760)
   || (8192 <=? c) && (c <=? 8202) || (c =? 8232) || (c =? 8233)
   || (c =? 8239) || (c =? 8287) || (c =? 12288))%N.

(** The whitespace of the C locale ([Py_ISSPACE]): TAB..CR and the space. *)
Definition is_cspace (c : char) : bool :=
  ((9 <=? c) && (c <=? 13) || (c =? 32))%N.

Definition is_digit (c : char) : bool := ((48 <=? c) && (c <=? 57))%N.

(** The letters, the digits and the underscore of ASCII. *)
Definition ascii_word (c : char) : bool :=
  ((97 <=? c) && (c <=? 122) || (65 <=? c) && (c <=? 90)
   || (48 <=? c) && (c <=? 57) || (c =? 95))%N.

(** The character database of the Python runtime, beyond ASCII:
    [str.isalnum] of a character, and the value of a decimal digit
    ([None] when the character is not one).  No whitespace character is
    alphanumeric, and a decimal digit has a value from 0 to 9. *)
Record unicode := {
  isalnum : char -> bool;
  todecimal : char -> option Z;
  space_not_alnum : forall c, is_space c = true -> isalnum c = false;
  decimal_value : forall c d, todecimal c = Some d -> 0 <= d <= 9
}.

(** [\w] of a text pattern: alphanumeric, or the underscore. *)
Definition is_word (U : unicode) (c : char) : bool :=
  if (c <? 128)%N then ascii_word c else isalnum U c.

Definition newline : char := 10%N.

Definition is_newline (c : char) : bool := (c =? newline)%N.

Fixpoint lstrip (s : str) : str :=
  match s with
  | c :: s' => if is_space c then lstrip s' else s
  | [] => []
  end.

Definition rstrip (s : str) : str := rev (lstrip (rev s)).

(** [s.strip()] *)
Definition strip (s : str) : str := rstrip (lstrip s).

(** [s.split(sep)] for a one-character separator: never the empty list. *)
Fixpoint split (sep : char) (s : str) : list str :=
  match s with
  | [] => [[]]
  | c :: s' =>
      if (c =? sep)%N then [] :: split sep s'
      else match split sep s' with
           | p :: ps => (c :: p) :: ps
           | [] => [[c]]
           end
  end.

(** The longest prefix of word characters, and what follows it. *)
Fixpoint span_word (U : unicode) (s : str) : str * str :=
  match s with
  | c :: s' =>
      if is_word U c then let (w, r) := span_word U s' in (c :: w, r)
      else ([], s)
  | [] => ([], [])
  end.

(** [x in names] for a list (or set, or dict) of strings. *)
Definition str_in (x : str) (names : list str) : bool :=
  existsb (str_eqb x) names.

(** [k in text] for a one-character [k]. *)
Definition char_in (k : char) (text : str) : bool :=
  existsb (N.eqb k) text.

(** ** Python builtins: [int(s)] and [float(s)] *)

(** The value of a decimal digit of any script. *)
Definition to_decimal (U : unicode) (c : char) : option Z :=
  if (c <? 128)%N then
    if is_digit c then Some (Z.of_N c - 48) else None
  else todecimal U c.

(** Both builtins first bring a text that is not ASCII down to ASCII: a
    whitespace character becomes a space, a decimal digit the ASCII digit of
    its value, and the first character that is neither becomes a question
    mark, which ends the text. *)
Fixpoint transform (U : unicode) (s : str) : str :=
  match s with
  | [] => []
  | c :: r =>
      if (c <? 127)%N then c :: transform U r
      else if is_space c then chr " " :: transform U r
      else match to_decimal U c with
           | Some d => (48 + Z.to_N d)%N :: transform U r
           | None => [chr "?"]
           end
  end.

Definition to_ascii (U : unicode) (s : str) : str :=
  if forallb (fun c => (c <? 128)%N) s then s else transform U s.

Fixpoint c_lstrip (s : str) : str :=
  match s with
  | c :: s' => if is_cspace c then c_lstrip s' else s
  | [] => []
  end.

(** Whitespace of the C locale dropped on both sides. *)
Definition c_strip (s : str) : str := rev (c_lstrip (rev (c_lstrip s))).

Definition digit_val (c : char) : Z := Z.of_N c - 48.

(** Digits with single underscores between them: [digit (_? digit)*].
    [prev] tells whether the previous character was a digit. *)
Fixpoint scan_digits (s : str) (prev : bool) (acc : list Z) : option (list Z) :=
  match s with
  | [] => if prev then Some (rev acc) else None
  | c :: s' =>
      if is_digit c then scan_digits s' true (digit_val c :: acc)
      else if (c =? chr "_")%N then
             if prev then scan_digits s' false acc else None
      else None
  end.

Definition decimal (ds : list Z) : Z :=
  fold_left (fun n d => 10 * n + d) ds 0.

(** [sys.get_int_max_str_digits()], CPython's default. *)
Definition int_max_str_digits : nat := 4300.

Definition split_sign (s : str) : bool * str :=
  match s with
  | c :: s' =>
      if (c =? chr "-")%N then (true, s')
      else if (c =? chr "+")%N then (false, s')
      else (false, s)
  | [] => (false, [])
  end.

(** [int(s)]: [None] stands for [ValueError]. *)
Definition py_int (U : unicode) (s : str) : option Z :=
  let (neg, body) := split_sign (c_strip (to_ascii U s)) in
  match scan_digits body false [] with
  | Some ds =>
      if (int_max_str_digits <? List.length ds)%nat then None
      else Some (if neg then - decimal ds else decimal ds)
  | None => None
  end.

(** Binary64 values are [spec_float]s of precision 53 and maximal exponent
    1024; rounding is to nearest, ties to even. *)
Definition float64 := spec_float.

Definition f64_of_Z (z : Z) : float64 := binary_normalize 53 1024 z 0 false.

Definition f64_compare : float64 -> float64 -> option comparison :=
  SFcompare.

(** The value [m * 10 ^ e10], correctly rounded. *)
Definition f64_of_decimal (neg : bool) (m e10 : Z) : float64 :=
  if m =? 0 then S754_zero neg
  else if 0 <=? e10 then binary_round 53 1024 neg (Z.to_pos (m * 10 ^ e10)) 0
  else SFdiv 53 1024 (S754_finite neg (Z.to_pos m) 0)
                     (S754_finite false (Z.to_pos (10 ^ (- e10))) 0).

(** Underscores of a numeric literal are dropped when each stands between
    two digits; otherwise the literal is refused. *)
Fixpoint drop_underscores (s : str) (prev : option char) : option str :=
  match s with
  | [] =>
      match prev with
      | Some p => if (p =? chr "_")%N then None else Some []
      | None => Some []
      end
  | c :: s' =>
      if (c =? chr "_")%N then
        match prev with
        | Some p => if is_digit p then drop_underscores s' (Some c) else None
        | None => None
        end
      else
        let after_us :=
          match prev with Some p => (p =? chr "_")%N | None => false end in
        if after_us && negb (is_digit c) then None
        else option_map (cons c) (drop_underscores s' (Some c))
  end.

Fixpoint span_digits (s : str) : list Z * str :=
  match s with
  | c :: s' =>
      if is_digit c then let (ds, r) := span_digits s' in (digit_val c :: ds, r)
      else ([], s)
  | [] => ([], [])
  end.

Definition lower (c : char) : char :=
  if ((65 <=? c) && (c <=? 90))%N then (c + 32)%N else c.

(** Mantissa digits and decimal exponent of
    [digits [. digits] [(e|E) [sign] digits]], at least one mantissa digit. *)
Definition parse_decimal (body : str) : option (Z * Z) :=
  let (ip, r1) := span_digits body in
  let (fp, r2) :=
    match r1 with
    | c :: r => if (c =? chr ".")%N then span_digits r else ([], r1)
    | [] => ([], r1)
    end in
  match ip ++ fp with
  | [] => None
  | ds =>
      let frac := Z.of_nat (List.length fp) in
      match r2 with
      | [] => Some (decimal ds, - frac)
      | c :: r3 =>
          if (lower c =? chr "e")%N then
            let (eneg, r4) := split_sign r3 in
            match span_digits r4 with
            | (d :: ed, []) =>
                let e := decimal (d :: ed) in
                Some (decimal ds, (if eneg then - e else e) - frac)
            | _ => None
            end
          else None
      end
  end.

(** [float(s)]: [None] stands for [ValueError]. *)
Definition py_float (U : unicode) (s : str) : option float64 :=
  match drop_underscores (c_strip (to_ascii U s)) None with
  | None => None
  | Some t =>
      let (neg, body) := split_sign t in
      let name := map lower body in
      if str_eqb name "inf" || str_eqb name "infinity" then
        Some (S754_infinity neg)
      else if str_eqb name "nan" then Some S754_nan
      else option_map (fun me => f64_of_decimal neg (fst me) (snd me))
                      (parse_decimal body)
  end.

(** ** The command grammar

    [re.match(pattern, command)] for the pattern of [run]: one or more word
    characters (group 1), then optionally an opening parenthesis, any text
    without a newline (group 2, greedy) and a closing parenthesis, then the
    end of the text. *)

(** [$] matches at the end of the text and before a newline that ends it;
    no other part of the pattern can match a newline. *)
Definition chomp (s : str) : str :=
  match rev s with
  | c :: r => if is_newline c then rev r else s
  | [] => s
  end.

(** The two groups of the match: the function name, and the text between
    the parentheses when there are parentheses. *)
Definition re_match (U : unicode) (command : str) : option (str * option str) :=
  let (func, rest) := span_word U (chomp command) in
  match func, rest with
  | [], _ => None
  | _ :: _, [] => Some (func, None)
  | _ :: _, c :: tl =>
      if (c =? chr "(")%N then
        match rev tl with
        | d :: rbody =>
            if (d =? chr ")")%N && forallb (fun x => negb (is_newline x)) rbody
            then Some (func, Some (rev rbody))
            else None
        | [] => None
        end
      else None
  end.

(** No arguments when group 2 is absent or blank; otherwise the pieces
    between the commas, each stripped. *)
Definition parse_args (argstr : option str) : list str :=
  match argstr with
  | None => []
  | Some a => if str_eqb (strip a) [] then [] else map strip (split (chr ",") a)
  end.

(** ** The table *)

(** Storage types of the columns a delimited text file is loaded into. *)
Inductive dtype := Bool_ | Int64 | UInt64 | Float64 | Object.

(** [dtype.kind] *)
Definition kind (d : dtype) : char :=
  match d with
  | Bool_ => chr "b" | Int64 => chr "i" | UInt64 => chr "u"
  | Float64 => chr "f" | Object => chr "O"
  end.

Inductive cell :=
| CBool (b : bool)
| CInt (z : Z)
| CFloat (f : float64)
| CStr (s : str).

(** A missing entry is the float NaN, in every column. *)
Definition NaN : cell := CFloat S754_nan.

Definition is_null (c : cell) : bool :=
  match c with
  | CFloat S754_nan => true
  | _ => false
  end.

Record row := { label : Z; cells : list cell }.

Record DataFrame := { columns : list (str * dtype); rows : list row }.

Record Series := { name : str; dtype_of : dtype; values : list (Z * cell) }.

Definition col_names (df : DataFrame) : list str := map fst (columns df).

Definition shape (df : DataFrame) : nat * nat :=
  (List.length (rows df), List.length (columns df)).

Inductive exn :=
| KeyError (key : str)
| TypeError
| ValueError
| LibraryError (what : str).

Inductive res (A : Type) :=
| Ret (a : A)
| Raise (e : exn).
Arguments Ret {A} a.
Arguments Raise {A} e.

Fixpoint find_column (col : str) (cols : list (str * dtype)) (i : nat)
  : option (nat * dtype) :=
  match cols with
  | [] => None
  | (n, d) :: rest =>
      if str_eqb col n then Some (i, d) else find_column col rest (S i)
  end.

(** The entry of a row in the column at position [i]. *)
Definition entry (i : nat) (r : row) : cell := nth i (cells r) NaN.

(** [df[col]] *)
Definition getitem (df : DataFrame) (col : str) : res Series :=
  match find_column col (columns df) 0 with
  | None => Raise (KeyError col)
  | Some (i, d) =>
      Ret {| name := col; dtype_of := d;
             values := map (fun r => (label r, entry i r)) (rows df) |}
  end.

(** [df[[col]]] *)
Definition getitem_frame (df : DataFrame) (col : str) : res DataFrame :=
  match find_column col (columns df) 0 with
  | None => Raise (KeyError col)
  | Some (i, d) =>
      Ret {| columns := [(col, d)];
             rows := map (fun r => {| label := label r; cells := [entry i r] |})
                         (rows df) |}
  end.

(** [df.groupby(by)[col]]: the key error of a grouped table has a text of
    its own. *)
Definition getitem_grouped (df : DataFrame) (col : str) : res Series :=
  match getitem df col with
  | Ret s => Ret s
  | Raise _ => Raise (KeyError ("Column not found: " ++ col))
  end.

(** A slice bound, clipped the way Python clips it. *)
Definition clip (len i : Z) : Z :=
  if i <? 0 then Z.max (i + len) 0 else Z.min i len.

(** [l[start:stop]] *)
Definition py_slice {A} (start stop : option Z) (l : list A) : list A :=
  let len := Z.of_nat (List.length l) in
  let a := match start with Some i => clip len i | None => 0 end in
  let b := match stop with Some j => clip len j | None => len end in
  firstn (Z.to_nat (b - a)) (skipn (Z.to_nat a) l).

(** [df.iloc[start:stop]] *)
Definition iloc (df : DataFrame) (start stop : option Z) : DataFrame :=
  {| columns := columns df; rows := py_slice start stop (rows df) |}.

(** [df.head(n)] is [df.iloc[:n]]. *)
Definition head (df : DataFrame) (n : Z) : DataFrame := iloc df None (Some n).

(** [df.tail(n)] is [df.iloc[0:0]] for [n == 0], else [df.iloc[-n:]]. *)
Definition tail (df : DataFrame) (n : Z) : DataFrame :=
  if n =? 0 then iloc df (Some 0) (Some 0) else iloc df (Some (- n)) None.

(** *** Comparing a column with a scalar *)

Inductive cmp_op := OpEq | OpNe | OpGt | OpLt | OpGe | OpLe.

(** [value_coerced]: a float or the raw text. *)
Inductive scalar := Num (f : float64) | Text (s : str).

(** The truth of [x op y] from how [x] and [y] compare; [None] is the
    unordered outcome (a NaN operand). *)
Definition holds (op : cmp_op) (c : option comparison) : bool :=
  match op, c with
  | OpEq, Some Eq => true
  | OpNe, Some Eq => false
  | OpNe, _ => true
  | OpGt, Some Gt => true
  | OpLt, Some Lt => true
  | OpGe, Some Gt | OpGe, Some Eq => true
  | OpLe, Some Lt | OpLe, Some Eq => true
  | _, _ => false
  end.

(** Operands of unrelated types: unequal, and not ordered ([TypeError]). *)
Definition mismatch (op : cmp_op) : option bool :=
  match op with
  | OpEq => Some false
  | OpNe => Some true
  | _ => None
  end.

(** A number of a numeric column, as the float it is compared as. *)
Definition cell_f64 (c : cell) : option float64 :=
  match c with
  | CBool b => Some (f64_of_Z (if b then 1 else 0))
  | CInt z => Some (f64_of_Z z)
  | CFloat f => Some f
  | CStr _ => None
  end.

(** One entry against the scalar; [None] is [TypeError].  A missing entry
    of a text column is unequal to every text and raises nothing. *)
Definition compare_cell (op : cmp_op) (c : cell) (v : scalar) : option bool :=
  match cell_f64 c, v with
  | Some x, Num f => Some (holds op (f64_compare x f))
  | None, Num _ => mismatch op
  | Some _, Text _ =>
      if is_null c then Some (match op with OpNe => true | _ => false end)
      else mismatch op
  | None, Text t =>
      match c with
      | CStr s => Some (holds op (Some (str_compare s t)))
      | _ => mismatch op
      end
  end.

Fixpoint compare_cells (op : cmp_op) (cs : list cell) (v : scalar)
  : option (list bool) :=
  match cs with
  | [] => Some []
  | c :: rest =>
      match compare_cell op c v, compare_cells op rest v with
      | Some b, Some bs => Some (b :: bs)
      | _, _ => None
      end
  end.

Definition is_numeric (d : dtype) : bool := char_in (kind d) "uifcb".

(** [series op value]: a numeric column against a text is decided on the
    storage type (all unequal, no order); everything else entry by entry. *)
Definition compare_series (op : cmp_op) (s : Series) (v : scalar)
  : res (list bool) :=
  let entries := map snd (values s) in
  match v with
  | Text _ =>
      if is_numeric (dtype_of s) then
        match mismatch op with
        | Some b => Ret (map (fun _ => b) entries)
        | None => Raise TypeError
        end
      else
        match compare_cells op entries v with
        | Some m => Ret m
        | None => Raise TypeError
        end
  | Num _ =>
      match compare_cells op entries v with
      | Some m => Ret m
      | None => Raise TypeError
      end
  end.

(** The elements of [l] at the positions where [mask] is true. *)
Definition pick {A} (mask : list bool) (l : list A) : list A :=
  map snd (filter fst (combine mask l)).

(** [df[mask]]: the rows whose mask entry is true, labels kept. *)
Definition select (df : DataFrame) (mask : list bool) : DataFrame :=
  {| columns := columns df; rows := pick mask (rows df) |}.

(** *** Grouping *)

Definition cell_rank (c : cell) : nat :=
  match c with CBool _ => 0 | CInt _ => 1 | CFloat _ => 2 | CStr _ => 3 end%nat.

(** The order of the group keys of one column; entries of a column share
    their type, entries of different types are ordered by type. *)
Definition cell_compare (a b : cell) : comparison :=
  match a, b with
  | CBool x, CBool y => Z.compare (Z.b2z x) (Z.b2z y)
  | CInt x, CInt y => Z.compare x y
  | CFloat x, CFloat y =>
      match f64_compare x y with Some c => c | None => Eq end
  | CStr x, CStr y => str_compare x y
  | _, _ => Nat.compare (cell_rank a) (cell_rank b)
  end.

Fixpoint insert_key (k : cell) (keys : list cell) : list cell :=
  match keys with
  | [] => [k]
  | h :: t =>
      match cell_compare k h with
      | Lt => k :: keys
      | Eq => keys
      | Gt => h :: insert_key k t
      end
  end.

(** The distinct values of the grouping column, missing ones dropped,
    in increasing order. *)
Definition group_keys (cs : list cell) : list cell :=
  fold_left (fun acc c => if is_null c then acc else insert_key c acc) cs [].

Definition same_key (k c : cell) : bool :=
  negb (is_null c) && match cell_compare c k with Eq => true | _ => false end.

(** The entries of [target] on the rows whose grouping entry is [k]. *)
Definition group_of (k : cell) (by_ target : Series) : Series :=
  {| name := name target; dtype_of := dtype_of target;
     values := map snd (filter (fun p => same_key k (snd (fst p)))
                               (combine (values by_) (values target))) |}.

(** An identifier is a non-empty text of word characters. *)
Definition identifier (U : unicode) (s : str) : Prop :=
  s <> [] /\ forallb (is_word U) s = true.

Definition one_line (s : str) : Prop :=
  forallb (fun x => negb (is_newline x)) s = true.

(** The command [func(body)]. *)
Definition call (func body : str) : str := func ++ "(" ++ body ++ ")".

(** What [run] dispatches on: the function name and the arguments of a
    command that is neither empty, nor [help], nor outside the grammar. *)
Definition parsed (U : unicode) (command : str) : option (str * list str) :=
  let c := strip command in
  if str_eqb c [] then None
  else if str_eqb c "help" then None
  else
    match re_match U c with
    | Some (func, argstr) => Some (func, parse_args argstr)
    | None => None
    end.

(** ** The dispatcher *)

(** The whole-table methods that [run] only forwards to. *)
Inductive frame_fn := Describe | Dtypes | Missing | Corr | Cov.

Definition single_col_funcs : list str :=
  [ "mean" : str; "median" : str; "mode" : str; "std" : str; "var" : str;
    "sum" : str; "max" : str; "min" : str; "count" : str; "unique" : str;
    "nunique" : str; "value_counts" : str ].

Definition aggregates : list str :=
  [ "mean" : str; "sum" : str; "min" : str; "max" : str; "count" : str;
    "median" : str; "std" : str; "var" : str ].

Definition nl : str := [newline].

Definition help_text : str :=
  "Available commands:" ++ nl ++
  "- head(), tail(n), info(), describe(), shape, columns, dtypes, missing()" ++ nl ++
  "- corr(), cov()" ++ nl ++
  "- mean(col), median(col), mode(col), std(col), var(col), sum(col)" ++ nl ++
  "- max(col), min(col), count(col), unique(col), nunique(col), value_counts(col)" ++ nl ++
  "- groupby(col, agg, target)  e.g., groupby(department, mean, salary)" ++ nl ++
  "- filter(col, op, value)     ops: ==, !=, >, <, >=, <=" ++ nl ++
  "- plot(col), hist(col), scatter(x, y), box(col), heatmap()" ++ nl ++
  "- help" ++ nl ++
  "Examples: describe(), mean(age), scatter(age, salary), value_counts(department)".

Definition column_not_found (col : str) : str :=
  "❌ Column '" ++ col ++ "' not found.".

Definition not_supported (func : str) : str :=
  "❌ Function '" ++ func ++ "' not supported. Type 'help' for options.".

Definition parse_op (op : str) : option cmp_op :=
  if str_eqb op "==" then Some OpEq
  else if str_eqb op "!=" then Some OpNe
  else if str_eqb op ">" then Some OpGt
  else if str_eqb op "<" then Some OpLt
  else if str_eqb op ">=" then Some OpGe
  else if str_eqb op "<=" then Some OpLe
  else None.

(** [float(value) if series.dtype.kind in "biufc" else value], with the
    [ValueError] of [float] caught. *)
Definition coerce (U : unicode) (s : Series) (value : str) : scalar :=
  if char_in (kind (dtype_of s)) "biufc" then
    match py_float U value with
    | Some f => Num f
    | None => Text value
    end
  else Text value.

Definition supported_functions : list str :=
  [ "help" : str; "head" : str; "tail" : str; "info" : str; "describe" : str;
    "shape" : str; "columns" : str; "dtypes" : str; "missing" : str;
    "corr" : str; "cov" : str ]
  ++ single_col_funcs
  ++ [ "groupby" : str; "filter" : str; "plot" : str; "hist" : str;
       "scatter" : str; "box" : str; "heatmap" : str ].

(** The error texts of [run] open with the cross mark. *)
Definition flagged (s : str) : bool :=
  match s with
  | c :: _ => (c =? 10060)%N
  | [] => false
  end.

(** What [run] returns.  A Python [str] is a [VStr], whoever made it: the
    texts that [run] builds, the text of [info], and the result of a
    statistic when that is a text (the largest entry of a text column).
    Every other result of a forwarded method (a number, a series, a table
    of statistics) is left to the backend: an [X]. *)
Inductive value (X : Type) :=
| VStr (s : str)
| VFrame (df : DataFrame)
| VShape (sh : nat * nat)
| VNames (l : list str)
| VGroups (target : str) (l : list (cell * X))
| VObj (x : X).
Arguments VStr {X} s.
Arguments VFrame {X} df.
Arguments VShape {X} sh.
Arguments VNames {X} l.
Arguments VGroups {X} target l.
Arguments VObj {X} x.

(** A chart handed to the display surface. *)
Inductive chart (X : Type) :=
| LinePlot (s : Series) (title xlabel : str)
| Histogram (s : Series) (title xlabel : str)
| Scatter (x y : Series) (title : str)
| BoxPlot (frame : DataFrame) (title : str)
| Heatmap (corr : X) (title : str).
Arguments LinePlot {X} s title xlabel.
Arguments Histogram {X} s title xlabel.
Arguments Scatter {X} x y title.
Arguments BoxPlot {X} frame title.
Arguments Heatmap {X} corr title.

(** A method of the dataframe or of the chart library, called on the table
    of the analyzer or on a column, a group or a chart made from it: its
    outcome, and the table as the call leaves it. *)
Definition method (A : Type) : Type := DataFrame -> res A * DataFrame.

(** What the dispatcher runs on: the character database of the Python
    runtime, the dataframe methods it forwards to, each of which may raise
    and may change the table in place, and the chart calls.  [as_text x]
    is the text of a result that is a Python [str]. *)
Record backend := {
  chars :> unicode;
  result : Type;
  as_text : result -> option str;
  info : method str;
  frame_op : frame_fn -> method result;
  series_op : str -> Series -> method result;
  group_op : str -> Series -> method result;
  draw : chart result -> method unit
}.

(** A backend none of whose methods changes the table it is called on. *)
Definition harmless (B : backend) : Prop :=
  (forall df, snd (info B df) = df) /\
  (forall f df, snd (frame_op B f df) = df) /\
  (forall func s df, snd (series_op B func s df) = df) /\
  (forall agg s df, snd (group_op B agg s df) = df) /\
  (forall c df, snd (draw B c df) = df).

(** The analyzer object ([self.df]) and the charts shown so far. *)
Record world (X : Type) := { self_df : DataFrame; screen : list (chart X) }.
Arguments Build_world {X} self_df screen.
Arguments self_df {X} w.
Arguments screen {X} w.

Fixpoint first_missing (names cols : list str) : option str :=
  match cols with
  | [] => None
  | col :: rest =>
      if negb (str_eqb col []) && negb (str_in col names)
      then Some (column_not_found col)
      else first_missing names rest
  end.

Section Analyzer.

Variable B : backend.

Definition M (A : Type) : Type :=
  world (result B) -> res A * world (result B).

Definition ret {A} (a : A) : M A := fun w => (Ret a, w).

Definition bind {A C} (m : M A) (k : A -> M C) : M C :=
  fun w =>
    match m w with
    | (Ret a, w') => k a w'
    | (Raise e, w') => (Raise e, w')
    end.

Notation "x <- m ;; k" := (bind m (fun x => k))
  (at level 61, m at next level, right associativity).

(** The outcome of a written-out method: its value, or the exception it
    raises. *)
Definition lift {A} (r : res A) : M A := fun w => (r, w).

Definition get_df : M DataFrame := fun w => (Ret (self_df w), w).

(** [self.df = df] *)
Definition put_df (df : DataFrame) : M unit :=
  fun w => (Ret tt, {| self_df := df; screen := screen w |}).

(** A method of the backend, on the table of the analyzer. *)
Definition invoke {A} (m : method A) : M A :=
  fun w =>
    let (r, df) := m (self_df w) in
    (r, {| self_df := df; screen := screen w |}).

(** Plot, decorate, [plt.show()]. *)
Definition show (c : chart (result B)) : M unit :=
  fun w =>
    match draw B c (self_df w) with
    | (Ret _, df) => (Ret tt, {| self_df := df; screen := screen w ++ [c] |})
    | (Raise e, df) => (Raise e, {| self_df := df; screen := screen w |})
    end.

(** [DataAnalyzer.__init__], given what reading the file yields: the table
    becomes the table of the analyzer. *)
Definition __init__ (loaded : res DataFrame) : M unit :=
  df <- lift loaded ;; put_df df.

Definition _validate_columns (cols : list str) : M (option str) :=
  df <- get_df ;; ret (first_missing (col_names df) cols).

(** [head] and [tail]: the count defaults to 5. *)
Definition head_or_tail (slice : DataFrame -> Z -> DataFrame) (msg : str)
           (args : list str) : M (value (result B)) :=
  match args with
  | [] => df <- get_df ;; ret (VFrame (slice df 5))
  | a :: _ =>
      match py_int B a with
      | None => ret (VStr msg)
      | Some n => df <- get_df ;; ret (VFrame (slice df n))
      end
  end.

Definition forward (f : frame_fn) : M (value (result B)) :=
  x <- invoke (frame_op B f) ;; ret (VObj x).

(** The result of a statistic, a text or not. *)
Definition wrap (x : result B) : value (result B) :=
  match as_text B x with
  | Some s => VStr s
  | None => VObj x
  end.

(** An operation on one column: the argument count, then the column. *)
Definition one_column (args : list str) (usage : str)
           (k : str -> M (value (result B))) : M (value (result B)) :=
  match args with
  | [a] =>
      err <- _validate_columns [a] ;;
      match err with
      | Some e => ret (VStr e)
      | None => k a
      end
  | _ => ret (VStr usage)
  end.

(** The aggregate of every group, in key order; the first failure wins. *)
Fixpoint aggregate (agg : str) (by_ target : Series) (keys : list cell)
  : M (list (cell * result B)) :=
  match keys with
  | [] => ret []
  | k :: rest =>
      x <- invoke (group_op B agg (group_of k by_ target)) ;;
      l <- aggregate agg by_ target rest ;;
      ret ((k, x) :: l)
  end.

(** [getattr(df.groupby(group_col)[target_col], agg)()] *)
Definition groupby (group_col agg target_col : str) : M (value (result B)) :=
  df <- get_df ;;
  by_ <- lift (getitem df group_col) ;;
  target <- lift (getitem_grouped df target_col) ;;
  l <- aggregate agg by_ target (group_keys (map snd (values by_))) ;;
  ret (VGroups target_col l).

(** The body of [run] once the command is parsed. *)
Definition dispatch (func : str) (args : list str) : M (value (result B)) :=
  if str_eqb func "head" then
    head_or_tail head "❌ head(n) expects integer n" args
  else if str_eqb func "tail" then
    head_or_tail tail "❌ tail(n) expects integer n" args
  else if str_eqb func "info" then s <- invoke (info B) ;; ret (VStr s)
  else if str_eqb func "describe" then forward Describe
  else if str_eqb func "shape" then df <- get_df ;; ret (VShape (shape df))
  else if str_eqb func "columns" then
    df <- get_df ;; ret (VNames (col_names df))
  else if str_eqb func "dtypes" then forward Dtypes
  else if str_eqb func "missing" then forward Missing
  else if str_eqb func "corr" then forward Corr
  else if str_eqb func "cov" then forward Cov
  else if str_in func single_col_funcs then
    one_column args ("❌ " ++ func ++ "(col) expects exactly one column")
      (fun a =>
         df <- get_df ;;
         s <- lift (getitem df a) ;;
         x <- invoke (series_op B func s) ;;
         ret (wrap x))
  else if str_eqb func "groupby" then
    match args with
    | [group_col; agg; target_col] =>
        err <- _validate_columns [group_col; target_col] ;;
        match err with
        | Some e => ret (VStr e)
        | None =>
            if negb (str_in agg aggregates) then
              ret (VStr "❌ Unsupported agg. Use mean,sum,min,max,count,median,std,var")
            else groupby group_col agg target_col
        end
    | _ => ret (VStr "❌ groupby(group_col, agg, target_col) required")
    end
  else if str_eqb func "filter" then
    match args with
    | [col; op; value] =>
        err <- _validate_columns [col] ;;
        match err with
        | Some e => ret (VStr e)
        | None =>
            df <- get_df ;;
            series <- lift (getitem df col) ;;
            let value_coerced := coerce B series value in
            match parse_op op with
            | Some o =>
                mask <- lift (compare_series o series value_coerced) ;;
                ret (VFrame (select df mask))
            | None =>
                ret (VStr "❌ Unsupported operator. Use ==, !=, >, <, >=, <=")
            end
        end
    | _ => ret (VStr "❌ filter(col, op, value) required")
    end
  else if str_eqb func "plot" then
    one_column args "❌ plot(col) expects one column"
      (fun a =>
         df <- get_df ;;
         s <- lift (getitem df a) ;;
         _ <- show (LinePlot s ("Plot of " ++ a) a) ;;
         ret (VStr ("📊 Plot displayed for " ++ a)))
  else if str_eqb func "hist" then
    one_column args "❌ hist(col) expects one column"
      (fun a =>
         df <- get_df ;;
         s <- lift (getitem df a) ;;
         _ <- show (Histogram s ("Histogram of " ++ a) a) ;;
         ret (VStr ("📊 Histogram displayed for " ++ a)))
  else if str_eqb func "scatter" then
    match args with
    | [x; y] =>
        err <- _validate_columns args ;;
        match err with
        | Some e => ret (VStr e)
        | None =>
            df <- get_df ;;
            sx <- lift (getitem df x) ;;
            sy <- lift (getitem df y) ;;
            _ <- show (Scatter sx sy ("Scatter plot: " ++ x ++ " vs " ++ y)) ;;
            ret (VStr ("📊 Scatter plot displayed for " ++ x ++ " vs " ++ y))
        end
    | _ => ret (VStr "❌ scatter(x, y) expects two columns")
    end
  else if str_eqb func "box" then
    one_column args "❌ box(col) expects one column"
      (fun a =>
         df <- get_df ;;
         frame <- lift (getitem_frame df a) ;;
         _ <- show (BoxPlot frame ("Box plot of " ++ a)) ;;
         ret (VStr ("📊 Box plot displayed for " ++ a)))
  else if str_eqb func "heatmap" then
    corr <- invoke (frame_op B Corr) ;;
    _ <- show (Heatmap corr "Correlation heatmap") ;;
    ret (VStr "📊 Heatmap displayed")
  else ret (VStr (not_supported func)).

Definition run (command : str) : M (value (result B)) :=
  let command := strip command in
  if str_eqb command [] then ret (VStr "❌ Empty command")
  else if str_eqb command "help" then ret (VStr help_text)
  else
    match re_match B command with
    | None => ret (VStr ("❌ Invalid command: " ++ command))
    | Some (func, argstr) => dispatch func (parse_args argstr)
    end.

(** The interactive loop of [cli.main]: each line is stripped, blank lines
    are skipped, the result of [run] is printed; an exception that leaves
    [run] ends the program.  The outcome is what was printed, the exception
    the program died of if any, and the final world. *)
Fixpoint session (inputs : list str) (w : world (result B))
  : list (value (result B)) * option exn * world (result B) :=
  match inputs with
  | [] => ([], None, w)
  | raw :: rest =>
      let raw := strip raw in
      if str_eqb raw [] then session rest w
      else
        match run raw w with
        | (Ret out, w') =>
            let '(printed, e, w'') := session rest w' in
            (out :: printed, e, w'')
        | (Raise e, w') => ([], Some e, w')
        end
  end.

(** A computation that leaves the table of the analyzer as it found it. *)
Definition read_only {A} (m : M A) : Prop :=
  forall w, self_df (snd (m w)) = self_df w.

End Analyzer.

Arguments ret {B A} a.
Arguments bind {B A C} m k.
Arguments lift {B A} r.
Arguments invoke {B A} m.
Arguments read_only {B A} m.

(** ** A backend for the examples

    The character database is cut down to the letters of Latin-1 and the
    Arabic-Indic digits.  Reductions of integer and of text columns are
    computed, the way the dataframe library computes them on small tables
    (sums of integers wrap at 64 bits, the mean of a text column is a type
    error); every other result is left symbolic ([Of], [Reduced]).  A line
    plot of a text column is refused, every other chart is drawn.  No method
    changes the table. *)
Module Demo.

Definition latin_letter (c : char) : bool :=
  ((192 <=? c) && (c <=? 214) || (216 <=? c) && (c <=? 246)
   || (248 <=? c) && (c <=? 255))%N.

Definition arabic_digit (c : char) : bool := ((1632 <=? c) && (c <=? 1641))%N.

Definition ucd : unicode.
Proof.
  refine {| isalnum := fun c => latin_letter c || arabic_digit c;
            todecimal := fun c => if arabic_digit c
                                  then Some (Z.of_N c - 1632) else None |}.
  - intros c H. unfold is_space in H. unfold latin_letter, arabic_digit.
    rewrite !orb_true_iff, !andb_true_iff, !N.leb_le, !N.eqb_eq in H.
    rewrite !orb_false_iff, !andb_false_iff, !N.leb_gt. lia.
  - intros c d. unfold arabic_digit.
    destruct ((1632 <=? c) && (c <=? 1641))%N eqn:E; [|discriminate].
    apply andb_true_iff in E as [E1 E2]. apply N.leb_le in E1, E2.
    intros [= <-]. lia.
Defined.

Inductive outcome :=
| Scalar (c : cell)
| Reduced (what : str) (s : Series)
| Of (f : frame_fn) (df : DataFrame).

Definition ints (s : Series) : option (list Z) :=
  fold_right (fun p acc =>
                match snd p, acc with
                | CInt z, Some l => Some (z :: l)
                | _, _ => None
                end) (Some []) (values s).

Definition texts (s : Series) : option (list str) :=
  fold_right (fun p acc =>
                match snd p, acc with
                | CStr t, Some l => Some (t :: l)
                | _, _ => None
                end) (Some []) (values s).

(** Arithmetic on 64-bit integers wraps around. *)
Definition wrap64 (z : Z) : Z := (z + 2 ^ 63) mod 2 ^ 64 - 2 ^ 63.

Definition larger (a b : str) : str :=
  match str_compare a b with Lt => b | _ => a end.

Definition smaller (a b : str) : str :=
  match str_compare a b with Gt => b | _ => a end.

Definition reduce (agg : str) (s : Series) : res outcome :=
  match ints s, texts s with
  | Some (z :: l), _ =>
      let n := Z.of_nat (List.length (z :: l)) in
      let total := fold_left Z.add l z in
      if str_eqb agg "count" then Ret (Scalar (CInt n))
      else if str_eqb agg "sum" then Ret (Scalar (CInt (wrap64 total)))
      else if str_eqb agg "mean" then
        Ret (Scalar (CFloat (SFdiv 53 1024 (f64_of_Z total) (f64_of_Z n))))
      else if str_eqb agg "min" then Ret (Scalar (CInt (fold_left Z.min l z)))
      else if str_eqb agg "max" then Ret (Scalar (CInt (fold_left Z.max l z)))
      else Ret (Reduced agg s)
  | _, Some (t :: l) =>
      if str_eqb agg "count" then
        Ret (Scalar (CInt (Z.of_nat (List.length (t :: l)))))
      else if str_eqb agg "sum" then Ret (Scalar (CStr (List.concat (t :: l))))
      else if str_eqb agg "min" then Ret (Scalar (CStr (fold_left smaller l t)))
      else if str_eqb agg "max" then Ret (Scalar (CStr (fold_left larger l t)))
      else if str_in agg [ "mean" : str; "median" : str; "std" : str;
                           "var" : str ]
      then Raise TypeError
      else Ret (Reduced agg s)
  | _, _ => Ret (Reduced agg s)
  end.

Definition plot (c : chart outcome) : res unit :=
  match c with
  | LinePlot s _ _ => if is_numeric (dtype_of s) then Ret tt else Raise TypeError
  | _ => Ret tt
  end.

Definition pandas : backend :=
  {| chars := ucd;
     result := outcome;
     as_text := fun x => match x with Scalar (CStr s) => Some s | _ => None end;
     info := fun df => (Ret ("<class 'pandas.core.frame.DataFrame'>" : str), df);
     frame_op := fun f df => (Ret (Of f df), df);
     series_op := fun func s df => (reduce func s, df);
     group_op := fun agg s df => (reduce agg s, df);
     draw := fun c df => (plot c, df) |}.

(** The same, but for a [describe] that empties the table it is called on,
    as a method that works in place could. *)
Definition careless : backend :=
  {| chars := ucd;
     result := outcome;
     as_text := as_text pandas;
     info := info pandas;
     frame_op := fun f df =>
                   match f with
                   | Describe => (Ret (Of f df),
                                  {| columns := columns df; rows := [] |})
                   | _ => (Ret (Of f df), df)
                   end;
     series_op := series_op pandas;
     group_op := group_op pandas;
     draw := draw pandas |}.

(** The table of the specification's examples. *)
Definition staff : DataFrame :=
  {| columns := [("department" : str, Object); ("salary" : str, Int64)];
     rows := [ {| label := 0; cells := [CStr "eng"; CInt 100] |};
               {| label := 1; cells := [CStr "eng"; CInt 200] |};
               {| label := 2; cells := [CStr "sales"; CInt 50] |} ] |}.

Definition start : world outcome := {| self_df := staff; screen := [] |}.

(** A table with one text column, whose only entry is a long text. *)
Definition notes : DataFrame :=
  {| columns := [("note" : str, Object)];
     rows := [ {| label := 0; cells := [CStr help_text] |} ] |}.

End Demo.

(** ** The specification's wording of [head] and [tail]

    [n] rows from the start (from the end), in the order of the table, or
    all the rows when [n] exceeds the row count. *)
Definition spec_head (n : Z) (df out : DataFrame) : Prop :=
  columns out = columns df /\
  exists rest, rows df = rows out ++ rest /\
    (Z.of_nat (List.length (rows out)) = n \/
     (Z.of_nat (List.length (rows df)) < n /\ rest = [])).

Definition spec_tail (n : Z) (df out : DataFrame) : Prop :=
  columns out = columns df /\
  exists skipped, rows df = skipped ++ rows out /\
    (Z.of_nat (List.length (rows out)) = n \/
     (Z.of_nat (List.length (rows df)) < n /\ skipped = [])).

(** ** The columns a command refers to

    The column names among the arguments of a command that carries the
    argument count of its operation; [None] for the other commands. *)
Definition referenced (func : str) (args : list str) : option (list str) :=
  let one := match args with [a] => Some [a] | _ => None end in
  if str_in func single_col_funcs then one
  else if str_eqb func "plot" then one
  else if str_eqb func "hist" then one
  else if str_eqb func "box" then one
  else if str_eqb func "groupby" then
    match args with [g; _; t] => Some [g; t] | _ => None end
  else if str_eqb func "filter" then
    match args with [c; _; _] => Some [c] | _ => None end
  else if str_eqb func "scatter" then
    match args with [x; y] => Some [x; y] | _ => None end
  else None.

(** A name that the validator lets through: empty, or a column. *)
Definition passes (names : list str) (c : str) : Prop := c = [] \/ In c names.

(** ** The rows a filter keeps

    An entry satisfies [op] against the scalar when their comparison is
    defined and true. *)
Definition satisfies (op : cmp_op) (d : dtype) (v : scalar) (c : cell) : bool :=
  let elementwise :=
    match compare_cell op c v with Some b => b | None => false end in
  match v with
  | Text _ =>
      if is_numeric d then
        match mismatch op with Some b => b | None => false end
      else elementwise
  | Num _ => elementwise
  end.

(** The specification's reading of the six operators: on numbers the
    comparisons of binary64, on texts equality and the dictionary order of
    the code points. *)
Definition spec_number (op : str) (x v : float64) : bool :=
  if str_eqb op "==" then SFeqb x v
  else if str_eqb op "!=" then negb (SFeqb x v)
  else if str_eqb op ">" then SFltb v x
  else if str_eqb op "<" then SFltb x v
  else if str_eqb op ">=" then SFleb v x
  else if str_eqb op "<=" then SFleb x v
  else false.

(** [s] comes before [t] in the dictionary. *)
Fixpoint precedes (s t : str) : bool :=
  match s, t with
  | _, [] => false
  | [], _ :: _ => true
  | x :: s', y :: t' => (x <? y)%N || (x =? y)%N && precedes s' t'
  end.

Definition spec_text (op : str) (s t : str) : bool :=
  if str_eqb op "==" then str_eqb s t
  else if str_eqb op "!=" then negb (str_eqb s t)
  else if str_eqb op ">" then precedes t s
  else if str_eqb op "<" then precedes s t
  else if str_eqb op ">=" then precedes t s || str_eqb s t
  else if str_eqb op "<=" then precedes s t || str_eqb s t
  else false.

(** An entry that is no number against a number, or no text against a
    text, differs from it, and so does a missing entry from anything. *)
Definition spec_keeps (op : str) (d : dtype) (v : scalar) (c : cell) : bool :=
  match v with
  | Num f =>
      match cell_f64 c with
      | Some x => spec_number op x f
      | None => str_eqb op "!="
      end
  | Text t =>
      if is_numeric d then str_eqb op "!="
      else match c with
           | CStr s => spec_text op s t
           | _ => str_eqb op "!="
           end
  end.

(** The entries a column of each storage type holds; a text column holds
    texts and missing entries. *)
Definition fits (d : dtype) (c : cell) : bool :=
  match d, c with
  | Bool_, CBool _ => true
  | Int64, CInt _ | UInt64, CInt _ => true
  | Float64, CFloat _ => true
  | Object, CStr _ => true
  | Object, CFloat S754_nan => true
  | _, _ => false
  end.

Definition well_typed (s : Series) : Prop :=
  Forall (fun p => fits (dtype_of s) (snd p) = true) (values s).

Definition operators : list str :=
  [ "==" : str; "!=" : str; ">" : str; "<" : str; ">=" : str; "<=" : str ].

(** The operators that need an order. *)
Definition orderings : list str :=
  [ ">" : str; "<" : str; ">=" : str; "<=" : str ].

(** ** The order of the group keys *)

Definition key_lt (a b : cell) : Prop := cell_compare a b = Lt.

Definition present (c : cell) : Prop := is_null c = false.

(** ** The recognized failure modes

    The failures that the specification lists for a parsed command, each
    with its message: unknown function, wrong argument count, missing
    column, unsupported aggregate or operator, count that is not an
    integer. *)
Inductive failure (U : unicode) (names : list str)
  : str -> list str -> str -> Prop :=
| unknown_function func args :
    ~ In func supported_functions ->
    failure U names func args (not_supported func)
| wrong_count_statistic func args :
    str_in func single_col_funcs = true -> List.length args <> 1%nat ->
    failure U names func args
            ("❌ " ++ func ++ "(col) expects exactly one column")
| wrong_count_groupby args :
    List.length args <> 3%nat ->
    failure U names "groupby" args
            "❌ groupby(group_col, agg, target_col) required"
| wrong_count_filter args :
    List.length args <> 3%nat ->
    failure U names "filter" args "❌ filter(col, op, value) required"
| wrong_count_plot args :
    List.length args <> 1%nat ->
    failure U names "plot" args "❌ plot(col) expects one column"
| wrong_count_hist args :
    List.length args <> 1%nat ->
    failure U names "hist" args "❌ hist(col) expects one column"
| wrong_count_scatter args :
    List.length args <> 2%nat ->
    failure U names "scatter" args "❌ scatter(x, y) expects two columns"
| wrong_count_box args :
    List.length args <> 1%nat ->
    failure U names "box" args "❌ box(col) expects one column"
| missing_column func args before c after :
    referenced func args = Some (before ++ c :: after) ->
    Forall (passes names) before -> c <> [] -> ~ In c names ->
    failure U names func args ("❌ Column '" ++ c ++ "' not found.")
| unsupported_aggregate g agg t :
    passes names g -> passes names t -> ~ In agg aggregates ->
    failure U names "groupby" [g; agg; t]
            "❌ Unsupported agg. Use mean,sum,min,max,count,median,std,var"
| unsupported_operator col op value :
    In col names -> ~ In op operators ->
    failure U names "filter" [col; op; value]
            "❌ Unsupported operator. Use ==, !=, >, <, >=, <="
| count_not_integer_head a rest :
    py_int U a = None ->
    failure U names "head" (a :: rest) "❌ head(n) expects integer n"
| count_not_integer_tail a rest :
    py_int U a = None ->
    failure U names "tail" (a :: rest) "❌ tail(n) expects integer n".

(** The same for a command line: empty, outside the grammar, or parsed
    into a failing command. *)
Inductive recognized (U : unicode) (names : list str) (command : str)
  : str -> Prop :=
| empty_command :
    strip command = [] -> recognized U names command "❌ Empty command"
| unparseable_command :
    strip command <> [] -> strip command <> "help" ->
    re_match U (strip command) = None ->
    recognized U names command ("❌ Invalid command: " ++ strip command)
| failed_command func args msg :
    parsed U command = Some (func, args) -> failure U names func args msg ->
    recognized U names command msg.

(** The commands that [run] forwards to a whole-table method. *)
Definition forwarded : list (str * frame_fn) :=
  [ ("describe" : str, Describe); ("dtypes" : str, Dtypes);
    ("missing" : str, Missing); ("corr" : str, Corr); ("cov" : str, Cov) ].

(** The commands whose result the dataframe library makes, and which may
    be a text: [info] and the statistics of one column. *)
Definition library_texts : list str := ("info" : str) :: single_col_funcs.

(** ** Building blocks of the further properties *)

(** Text made of whitespace only. *)
Definition blank (s : str) : Prop := forallb is_space s = true.

(** [",".join(pieces)] *)
Fixpoint join (pieces : list str) : str :=
  match pieces with
  | [] => []
  | [p] => p
  | p :: rest => p ++ "," ++ join rest
  end.

Definition comma : char := chr ",".

(** A piece of an argument text: no comma and no newline in it. *)
Definition piece (p : str) : Prop := ~ In comma p /\ one_line p.

(** An argument as [dispatch] receives it. *)
Definition trimmed (a : str) : Prop := strip a = a /\ piece a.

(** The commands that work on the whole table. *)
Definition whole_table : list str :=
  [ "info" : str; "describe" : str; "shape" : str; "columns" : str;
    "dtypes" : str; "missing" : str; "corr" : str; "cov" : str;
    "heatmap" : str ].

(** The decimal numeral of a list of digits, most significant first. *)
Definition digit_char (d : Z) : char := Z.to_N (48 + d).

Definition numeral (ds : list Z) : str := map digit_char ds.

Definition digits (ds : list Z) : Prop :=
  ds <> [] /\ Forall (fun d => 0 <= d <= 9) ds.

(** The commands that draw. *)
Definition chart_functions : list str :=
  [ "plot" : str; "hist" : str; "scatter" : str; "box" : str;
    "heatmap" : str ].

(** The confirmation texts open with the chart mark. *)
Definition confirmation (s : str) : bool :=
  match s with
  | c :: _ => (c =? 128202)%N
  | [] => false
  end.

(** [needle in text] *)
Fixpoint starts_with (needle text : str) : bool :=
  match needle, text with
  | [], _ => true
  | x :: n', y :: t' => (x =? y)%N && starts_with n' t'
  | _ :: _, [] => false
  end.

Fixpoint occurs (needle text : str) : bool :=
  starts_with needle text ||
  match text with
  | [] => false
  | _ :: t' => occurs needle t'
  end.

(** A text that opens with one of the two marks. *)
Definition marked (s : str) : bool := flagged s || confirmation s.

(** A computation whose texts all carry a mark. *)
Definition marks {B : backend} (m : M B (value (result B))) : Prop :=
  forall w s, fst (m w) = Ret (VStr s) -> marked s = true.

(** A computation that leaves the world as it is. *)
Definition still {B : backend} {A} (m : M B A) : Prop :=
  forall w, snd (m w) = w.

(** A computation that either leaves the world as it is, or adds one chart
    to the display and returns a confirmation. *)
Definition tidy {B : backend} (m : M B (value (result B))) : Prop :=
  forall w,
    snd (m w) = w \/
    (exists c s,
       snd (m w) = {| self_df := self_df w; screen := screen w ++ [c] |} /\
       fst (m w) = Ret (VStr s) /\ confirmation s = true).

(** A computation that returns a confirmation only with a chart added to
    the display. *)
Definition confirmed {B : backend} (m : M B (value (result B))) : Prop :=
  forall w s, fst (m w) = Ret (VStr s) -> confirmation s = true ->
    exists c,
      snd (m w) = {| self_df := self_df w; screen := screen w ++ [c] |}.

(** The row test of a filter on a table of the given schema, when the
    column is in the schema and the operator is one of the six. *)
Definition keeps (U : unicode) (cols : list (str * dtype)) (col op value : str)
  : option (row -> bool) :=
  match find_column col cols 0, parse_op op with
  | Some (i, d), Some o =>
      let v := coerce U {| name := col; dtype_of := d; values := [] |} value in
      Some (fun r => satisfies o d v (entry i r))
  | _, _ => None
  end.

(** ** The entry point [cli.main]

    The options [--cmd] and [--repl] ([--file] names the table, which is
    loaded before anything else and is the table of the world given here).
    With a command, [main] runs it and prints the result; otherwise it
    prints a banner and loops over the lines typed until the interrupt,
    which it answers with a farewell.  An exception that leaves [run] ends
    the program. *)
Record options := { cmd : option str; repl : bool }.

Inductive shown (X : Type) :=
| Value (v : value X)
| Line (s : str).
Arguments Value {X} v.
Arguments Line {X} s.

(** The truth value of [args.cmd]: given and not empty. *)
Definition given (c : option str) : bool :=
  match c with
  | Some (_ :: _) => true
  | _ => false
  end.

Definition banner : str := "Type 'help' to list commands. Press Ctrl+C to exit.".

Definition farewell : str := nl ++ "👋 Goodbye".

Definition main (B : backend) (o : options) (inputs : list str)
           (w : world (result B))
  : list (shown (result B)) * option exn * world (result B) :=
  if given (cmd o) then
    match run B (match cmd o with Some c => c | None => [] end) w with
    | (Ret out, w') => ([Value out], None, w')
    | (Raise e, w') => ([], Some e, w')
    end
  else if repl o || negb (given (cmd o)) then
    let '(printed, e, w') := session B inputs w in
    (Line banner :: map Value printed
       ++ match e with None => [Line farewell] | Some _ => [] end,
     e, w')
  else ([], None, w).

(** * Properties *)

(** ** Text *)

Lemma str_eqb_refl (a : str) : str_eqb a a = true.
Proof.
  induction a as [|c a IH]; simpl; [reflexivity|].
  now rewrite N.eqb_refl, IH.
Qed.

Lemma str_eqb_eq (a b : str) : str_eqb a b = true <-> a = b.
Proof.
  split; [|intros ->; apply str_eqb_refl].
  revert b; induction a as [|c a IH]; intros [|d b]; simpl;
    try reflexivity; try discriminate.
  intros H. apply andb_true_iff in H as [Hc Hs].
  apply N.eqb_eq in Hc. apply IH in Hs. congruence.
Qed.

Lemma str_eqb_neq (a b : str) : str_eqb a b = false <-> a <> b.
Proof.
  destruct (str_eqb a b) eqn:E.
  - apply str_eqb_eq in E. split; [discriminate | congruence].
  - split; [|reflexivity]. intros _ H. apply str_eqb_eq in H. congruence.
Qed.

Lemma str_in_In (x : str) (l : list str) : str_in x l = true <-> In x l.
Proof.
  unfold str_in. rewrite existsb_exists. split.
  - intros (y & Hy & E). apply str_eqb_eq in E. now subst.
  - intros H. exists x. split; [assumption | apply str_eqb_refl].
Qed.

Lemma str_in_not_In (x : str) (l : list str) : str_in x l = false <-> ~ In x l.
Proof.
  rewrite <- str_in_In. destruct (str_in x l); split; congruence.
Qed.

(** The whitespace characters, one by one. *)
Lemma is_space_spec (c : char) :
  is_space c = true <->
  (9 <= c <= 13 \/ 28 <= c <= 32 \/ c = 133 \/ c = 160 \/ c = 5760
   \/ 8192 <= c <= 8202 \/ c = 8232 \/ c = 8233 \/ c = 8239 \/ c = 8287
   \/ c = 12288)%N.
Proof.
  unfold is_space.
  rewrite !orb_true_iff, !andb_true_iff, !N.leb_le, !N.eqb_eq. tauto.
Qed.

Lemma ascii_word_spec (c : char) :
  ascii_word c = true <->
  (97 <= c <= 122 \/ 65 <= c <= 90 \/ 48 <= c <= 57 \/ c = 95)%N.
Proof.
  unfold ascii_word.
  rewrite !orb_true_iff, !andb_true_iff, !N.leb_le, !N.eqb_eq. tauto.
Qed.

Lemma word_not_space (U : unicode) (c : char) :
  is_word U c = true -> is_space c = false.
Proof.
  unfold is_word. intros H. destruct (is_space c) eqn:E; [|reflexivity].
  destruct (c <? 128)%N.
  - apply ascii_word_spec in H. apply is_space_spec in E. lia.
  - now rewrite (space_not_alnum U c E) in H.
Qed.

Lemma word_ascii (U : unicode) (c : char) :
  (c < 128)%N -> is_word U c = ascii_word c.
Proof. intros H. unfold is_word. apply N.ltb_lt in H. now rewrite H. Qed.

Lemma word_not_newline (U : unicode) (c : char) :
  is_word U c = true -> is_newline c = false.
Proof.
  intros H. unfold is_newline, newline. apply N.eqb_neq. intros ->.
  discriminate H.
Qed.

Lemma lstrip_keep (c : char) (s : str) :
  is_space c = false -> lstrip (c :: s) = c :: s.
Proof. intros H. simpl. now rewrite H. Qed.

Lemma rev_last (s : str) (c : char) : rev (s ++ [c]) = c :: rev s.
Proof. now rewrite rev_app_distr. Qed.

(** Text that neither starts nor ends with whitespace is left alone. *)
Lemma strip_keep (s : str) :
  (forall a m, s = a :: m -> is_space a = false) ->
  (forall m b, s = m ++ [b] -> is_space b = false) ->
  strip s = s.
Proof.
  intros Hfirst Hlast. destruct s as [|a m]; [reflexivity|].
  unfold strip, rstrip. rewrite (lstrip_keep a m (Hfirst a m eq_refl)).
  destruct (exists_last (l := a :: m)) as (m' & b & E); [discriminate|].
  rewrite E, rev_last, (lstrip_keep b _ (Hlast m' b E)), <- rev_last.
  apply rev_involutive.
Qed.

Lemma chomp_keep (s : str) :
  (forall m b, s = m ++ [b] -> is_newline b = false) -> chomp s = s.
Proof.
  intros Hlast. unfold chomp. destruct (rev s) as [|c r] eqn:E; [reflexivity|].
  assert (Hs : s = rev r ++ [c]).
  { rewrite <- (rev_involutive s), E. reflexivity. }
  now rewrite (Hlast _ _ Hs).
Qed.

Lemma span_word_app (U : unicode) (w r : str) :
  forallb (is_word U) w = true ->
  match r with c :: _ => is_word U c = false | [] => True end ->
  span_word U (w ++ r) = (w, r).
Proof.
  intros Hw Hr. induction w as [|c w IH]; simpl in *.
  - destruct r as [|c r]; [reflexivity|]. simpl. now rewrite Hr.
  - apply andb_true_iff in Hw as [Hc Hw]. rewrite Hc, (IH Hw). reflexivity.
Qed.

Lemma forallb_last {A} (f : A -> bool) (m : list A) (b : A) :
  forallb f (m ++ [b]) = true -> f b = true.
Proof.
  rewrite forallb_app. simpl. intros H.
  apply andb_true_iff in H as [_ H]. now rewrite andb_true_r in H.
Qed.

Lemma strip_identifier (U : unicode) (func : str) :
  identifier U func -> strip func = func.
Proof.
  intros [_ Hw]. apply strip_keep.
  - intros a m ->. simpl in Hw. apply andb_true_iff in Hw as [Ha _].
    now apply (word_not_space U).
  - intros m b ->. apply (word_not_space U). now apply (forallb_last _ m).
Qed.

Lemma call_unfold (func body : str) :
  call func body = func ++ chr "(" :: body ++ [chr ")"].
Proof. reflexivity. Qed.

Lemma strip_call (U : unicode) (func body : str) :
  identifier U func -> strip (call func body) = call func body.
Proof.
  intros [Hne Hw]. apply strip_keep.
  - intros a m E. destruct func as [|c func]; [congruence|].
    rewrite call_unfold in E. simpl in E, Hw. injection E as <- _.
    apply andb_true_iff in Hw as [Ha _]. now apply (word_not_space U).
  - intros m b E. rewrite call_unfold in E.
    change (func ++ chr "(" :: body ++ [chr ")"])
      with (func ++ (chr "(" :: body) ++ [chr ")"]) in E.
    rewrite app_assoc in E. apply app_inj_tail in E as [_ <-]. reflexivity.
Qed.

Lemma re_match_identifier (U : unicode) (func : str) :
  identifier U func -> re_match U func = Some (func, None).
Proof.
  intros [Hne Hw]. unfold re_match. rewrite chomp_keep.
  - rewrite <- (app_nil_r func) at 1.
    rewrite (span_word_app U func [] Hw I).
    destruct func; [congruence | reflexivity].
  - intros m b ->. apply (word_not_newline U). now apply (forallb_last _ m).
Qed.

Lemma re_match_call (U : unicode) (func body : str) :
  identifier U func -> one_line body ->
  re_match U (call func body) = Some (func, Some body).
Proof.
  intros [Hne Hw] Hb. unfold re_match. rewrite chomp_keep.
  - rewrite call_unfold.
    rewrite (span_word_app U func (chr "(" :: body ++ [chr ")"]) Hw eq_refl).
    destruct func as [|c func]; [congruence|].
    cbv iota beta. rewrite N.eqb_refl, rev_last, N.eqb_refl.
    simpl andb.
    replace (forallb (fun x => negb (is_newline x)) (rev body)) with true.
    + now rewrite rev_involutive.
    + symmetry. apply forallb_forall. intros x Hx. apply in_rev in Hx.
      unfold one_line in Hb. rewrite forallb_forall in Hb. now apply Hb.
  - intros m b E. rewrite call_unfold in E.
    change (func ++ chr "(" :: body ++ [chr ")"])
      with (func ++ (chr "(" :: body) ++ [chr ")"]) in E.
    rewrite app_assoc in E. apply app_inj_tail in E as [_ <-]. reflexivity.
Qed.

Lemma parsed_identifier (U : unicode) (func : str) :
  identifier U func -> func <> "help" -> parsed U func = Some (func, []).
Proof.
  intros Hi Hh. unfold parsed. rewrite (strip_identifier U _ Hi).
  destruct Hi as [Hne Hw].
  destruct (str_eqb func []) eqn:E0; [apply str_eqb_eq in E0; congruence|].
  destruct (str_eqb func "help") eqn:E1; [apply str_eqb_eq in E1; congruence|].
  now rewrite (re_match_identifier U func (conj Hne Hw)).
Qed.

Lemma call_not_word (U : unicode) (func body : str) :
  forallb (is_word U) (call func body) = false.
Proof.
  rewrite call_unfold, forallb_app. simpl. apply andb_false_r.
Qed.

Lemma parsed_call (U : unicode) (func body : str) :
  identifier U func -> one_line body ->
  parsed U (call func body) = Some (func, parse_args (Some body)).
Proof.
  intros Hi Hb. unfold parsed. rewrite (strip_call U _ _ Hi).
  destruct (str_eqb (call func body) []) eqn:E0.
  { apply str_eqb_eq in E0. pose proof (call_not_word U func body) as H.
    rewrite E0 in H. discriminate H. }
  destruct (str_eqb (call func body) "help") eqn:E1.
  { apply str_eqb_eq in E1. pose proof (call_not_word U func body) as H.
    rewrite E1 in H. discriminate H. }
  now rewrite (re_match_call U _ _ Hi Hb).
Qed.

(** ** The dispatcher *)

Lemma str_in_false (x : str) (l : list str) (n : str) :
  str_in x l = false -> str_in n l = true -> str_eqb x n = false.
Proof.
  intros Hx Hn. destruct (str_eqb x n) eqn:E; [|reflexivity].
  apply str_eqb_eq in E. subst. congruence.
Qed.

Section Properties.

Variable B : backend.

Lemma run_parsed (command func : str) (args : list str) :
  parsed B command = Some (func, args) -> run B command = dispatch B func args.
Proof.
  unfold parsed, run. intros H.
  destruct (str_eqb (strip command) []); [discriminate|].
  destruct (str_eqb (strip command) "help"); [discriminate|].
  destruct (re_match B (strip command)) as [[f a]|]; [|discriminate].
  now injection H as <- <-.
Qed.

Lemma dispatch_unknown (func : str) (args : list str) (w : world (result B)) :
  ~ In func supported_functions ->
  dispatch B func args w = (Ret (VStr (not_supported func)), w).
Proof.
  intros H. apply str_in_not_In in H.
  assert (Hs : str_in func single_col_funcs = false).
  { apply str_in_not_In. intros Hin. apply str_in_not_In in H. apply H.
    unfold supported_functions. apply in_or_app. right.
    apply in_or_app. now left. }
  unfold dispatch. rewrite Hs.
  repeat match goal with
         | |- context [str_eqb func (text ?n)] =>
             rewrite (str_in_false func supported_functions
                        (text n) H eq_refl)
         end.
  reflexivity.
Qed.

End Properties.

(** *** Commands read the table and never write it *)

Section ReadOnly.

Variable B : backend.

Hypothesis HB : harmless B.

Lemma read_only_ret {A} (a : A) : read_only (B := B) (ret a).
Proof. intros w. reflexivity. Qed.

Lemma read_only_lift {A} (r : res A) : read_only (B := B) (lift r).
Proof. intros w. reflexivity. Qed.

Lemma read_only_get : read_only (get_df B).
Proof. intros w. reflexivity. Qed.

Lemma read_only_invoke {A} (m : method A) :
  (forall df, snd (m df) = df) -> read_only (B := B) (invoke m).
Proof.
  intros Hm w. unfold invoke. specialize (Hm (self_df w)).
  destruct (m (self_df w)) as [r df]. exact Hm.
Qed.

Lemma read_only_show (c : chart (result B)) : read_only (show B c).
Proof.
  intros w. unfold show. destruct HB as (_ & _ & _ & _ & Hd).
  specialize (Hd c (self_df w)).
  destruct (draw B c (self_df w)) as [[[]|e] df]; exact Hd.
Qed.

Lemma read_only_bind {A C} (m : M B A) (k : A -> M B C) :
  read_only m -> (forall a, read_only (k a)) -> read_only (bind m k).
Proof.
  intros Hm Hk w. unfold bind. specialize (Hm w).
  destruct (m w) as [[a|e] w']; simpl in *; [|assumption].
  now rewrite (Hk a w').
Qed.

Lemma read_only_aggregate (agg : str) (by_ target : Series) (keys : list cell) :
  read_only (aggregate B agg by_ target keys).
Proof.
  induction keys as [|k keys IH]; simpl; [apply read_only_ret|].
  apply read_only_bind.
  - apply read_only_invoke. apply HB.
  - intros x. apply read_only_bind; [exact IH|]. intros l. apply read_only_ret.
Qed.

Ltac read_only_step :=
  match goal with
  | |- read_only (bind _ _) => apply read_only_bind; [|intros ?]
  | |- read_only (ret _) => apply read_only_ret
  | |- read_only (lift _) => apply read_only_lift
  | |- read_only (get_df _) => apply read_only_get
  | |- read_only (show _ _) => apply read_only_show
  | |- read_only (aggregate _ _ _ _ _) => apply read_only_aggregate
  | |- read_only (invoke _) => apply read_only_invoke; apply HB
  | |- read_only (if ?b then _ else _) => destruct b
  | |- read_only (match ?x with _ => _ end) => destruct x
  end.

Lemma read_only_dispatch (func : str) (args : list str) :
  read_only (dispatch B func args).
Proof.
  unfold dispatch, head_or_tail, forward, one_column, _validate_columns,
    groupby.
  repeat read_only_step.
Qed.

Lemma read_only_run (command : str) : read_only (run B command).
Proof.
  unfold run. repeat read_only_step. apply read_only_dispatch.
Qed.

Lemma read_only_session (inputs : list str) (w : world (result B)) :
  self_df (snd (session B inputs w)) = self_df w.
Proof.
  revert w. induction inputs as [|raw rest IH]; intros w; simpl; [reflexivity|].
  destruct (str_eqb (strip raw) []); [apply IH|].
  pose proof (read_only_run (strip raw) w) as Hr.
  destruct (run B (strip raw) w) as [[out|e] w']; simpl in *; [|assumption].
  specialize (IH w'). destruct (session B rest w') as [[printed e] w''].
  simpl in *. congruence.
Qed.

End ReadOnly.

(** An assignment to the table is seen, and so is a method that works in
    place: neither is read-only. *)
Lemma init_loads (B : backend) (df : DataFrame) (e : exn)
      (w : world (result B)) :
  __init__ B (Ret df) w = (Ret tt, {| self_df := df; screen := screen w |}) /\
  __init__ B (Raise e) w = (Raise e, w).
Proof. split; reflexivity. Qed.

Lemma put_df_writes :
  ~ read_only (put_df Demo.pandas Demo.notes).
Proof. intros H. specialize (H Demo.start). discriminate H. Qed.

Lemma careless_describe :
  ~ harmless Demo.careless /\
  rows (self_df (snd (run Demo.careless "describe()" Demo.start))) = [].
Proof.
  split; [|reflexivity].
  intros (_ & H & _). specialize (H Describe Demo.staff). discriminate H.
Qed.

Lemma pandas_harmless : harmless Demo.pandas.
Proof. repeat split. Qed.

(** *** The texts that [dispatch] builds carry a mark *)

Section Marks.

Variable B : backend.

Lemma marks_ret_str (s : str) : marked s = true -> marks (B := B) (ret (VStr s)).
Proof. intros H w s' E. simpl in E. now injection E as <-. Qed.

Lemma marks_bind {A} (m : M B A) (k : A -> M B (value (result B))) :
  (forall a, marks (k a)) -> marks (bind m k).
Proof.
  intros Hk w s. unfold bind.
  destruct (m w) as [[a|e] w']; simpl; [apply Hk | discriminate].
Qed.

Lemma flagged_first_missing (names cols : list str) (e : str) :
  first_missing names cols = Some e -> flagged e = true.
Proof.
  induction cols as [|c cols IH]; simpl; [discriminate|].
  destruct (_ && _); [|exact IH]. now intros [= <-].
Qed.

Lemma marks_validate (cols : list str)
      (k : option str -> M B (value (result B))) :
  (forall names e, first_missing names cols = Some e -> marks (k (Some e))) ->
  marks (k None) ->
  marks (bind (_validate_columns B cols) k).
Proof.
  intros Hsome Hnone w s. unfold bind, _validate_columns, get_df, ret. simpl.
  destruct (first_missing (col_names (self_df w)) cols) as [e|] eqn:E.
  - now apply (Hsome _ e E).
  - apply Hnone.
Qed.

Ltac marks_step :=
  match goal with
  | |- marks (bind (_validate_columns _ _) _) =>
      apply marks_validate; [intros ? ? ?|]
  | |- marks (bind _ _) => apply marks_bind; intros ?
  | H : first_missing _ _ = Some ?e |- marks (ret (VStr ?e)) =>
      apply marks_ret_str; unfold marked;
      rewrite (flagged_first_missing _ _ _ H); reflexivity
  | |- marks (ret (VStr _)) => apply marks_ret_str; reflexivity
  | |- marks (ret _) => intros ? ? ?; discriminate
  | |- marks (if ?b then _ else _) => destruct b
  | |- marks (match ?x with _ => _ end) => destruct x eqn:?
  end.

Lemma marks_dispatch (func : str) (args : list str) :
  ~ In func library_texts -> marks (dispatch B func args).
Proof.
  intros H.
  assert (H1 : str_eqb func "info" = false).
  { apply str_eqb_neq. intros ->. apply H. now left. }
  assert (H2 : str_in func single_col_funcs = false).
  { apply str_in_not_In. intros Hin. apply H. now right. }
  unfold dispatch. rewrite H1, H2.
  unfold head_or_tail, forward, one_column, groupby.
  repeat marks_step.
Qed.

End Marks.

(** ** [head] and [tail] *)

Section Slices.

Variable df : DataFrame.

Lemma head_nonneg (n : Z) :
  0 <= n -> rows (head df n) = firstn (Z.to_nat n) (rows df).
Proof.
  intros Hn. unfold head, iloc, py_slice, clip. simpl.
  destruct (n <? 0) eqn:E; [lia|]. rewrite Z.sub_0_r.
  destruct (Z.le_ge_cases n (Z.of_nat (List.length (rows df)))) as [H|H].
  - now rewrite Z.min_l.
  - rewrite Z.min_r, Nat2Z.id by assumption.
    rewrite !firstn_all2; [reflexivity | lia | reflexivity].
Qed.

Lemma head_neg (n : Z) :
  n < 0 -> rows (head df n) = firstn (List.length (rows df) - Z.to_nat (- n)) (rows df).
Proof.
  intros Hn. unfold head, iloc, py_slice, clip. simpl.
  destruct (n <? 0) eqn:E; [|lia]. f_equal. lia.
Qed.

Lemma tail_nonneg (n : Z) :
  0 <= n -> rows (tail df n) = skipn (List.length (rows df) - Z.to_nat n) (rows df).
Proof.
  intros Hn. unfold tail. destruct (n =? 0) eqn:E0.
  - apply Z.eqb_eq in E0. subst n. unfold iloc, py_slice, clip. simpl.
    rewrite Z.min_l, Nat.sub_0_r by lia. simpl.
    symmetry. apply skipn_all2. reflexivity.
  - apply Z.eqb_neq in E0. unfold iloc, py_slice, clip. simpl.
    destruct (- n <? 0) eqn:E; [|lia].
    replace (Z.to_nat (Z.max (- n + Z.of_nat (List.length (rows df))) 0))
      with (List.length (rows df) - Z.to_nat n)%nat by lia.
    apply firstn_all2. rewrite length_skipn. lia.
Qed.

Lemma tail_neg (n : Z) :
  n < 0 -> rows (tail df n) = skipn (Z.to_nat (- n)) (rows df).
Proof.
  intros Hn. unfold tail. destruct (n =? 0) eqn:E0; [lia|].
  unfold iloc, py_slice, clip. simpl.
  destruct (- n <? 0) eqn:E; [lia|].
  rewrite firstn_all2 by (rewrite length_skipn; lia).
  destruct (Z.le_ge_cases (- n) (Z.of_nat (List.length (rows df)))) as [H|H].
  - now rewrite Z.min_l.
  - rewrite Z.min_r, Nat2Z.id by assumption.
    rewrite !skipn_all2; [reflexivity | lia | reflexivity].
Qed.

Lemma spec_head_head (n : Z) : 0 <= n -> spec_head n df (head df n).
Proof.
  intros Hn. split; [reflexivity|].
  exists (skipn (Z.to_nat n) (rows df)). rewrite (head_nonneg n Hn).
  split; [symmetry; apply firstn_skipn|].
  rewrite length_firstn.
  destruct (Z.le_ge_cases n (Z.of_nat (List.length (rows df)))) as [H|H]; [left; lia|].
  destruct (Z.eq_dec n (Z.of_nat (List.length (rows df)))) as [->|Hne]; [left; lia|].
  right. split; [lia|]. apply skipn_all2. lia.
Qed.

Lemma spec_tail_tail (n : Z) : 0 <= n -> spec_tail n df (tail df n).
Proof.
  intros Hn. split; [unfold tail; now destruct (n =? 0)|].
  exists (firstn (List.length (rows df) - Z.to_nat n) (rows df)). rewrite (tail_nonneg n Hn).
  split; [symmetry; apply firstn_skipn|].
  rewrite length_skipn.
  destruct (Z.le_ge_cases n (Z.of_nat (List.length (rows df)))) as [H|H]; [left; lia|].
  destruct (Z.eq_dec n (Z.of_nat (List.length (rows df)))) as [->|Hne]; [left; lia|].
  right. split; [lia|].
  replace (List.length (rows df) - Z.to_nat n)%nat with 0%nat by lia. reflexivity.
Qed.

End Slices.

Lemma head_or_tail_run (B : backend) (slice : DataFrame -> Z -> DataFrame)
      (msg : str) (args : list str) (w : world (result B)) :
  head_or_tail B slice msg args w =
  match args with
  | [] => (Ret (VFrame (slice (self_df w) 5)), w)
  | a :: _ =>
      match py_int B a with
      | None => (Ret (VStr msg), w)
      | Some n => (Ret (VFrame (slice (self_df w) n)), w)
      end
  end.
Proof.
  unfold head_or_tail. destruct args as [|a rest]; [reflexivity|].
  now destruct (py_int B a).
Qed.

Lemma dispatch_head (B : backend) (args : list str) :
  dispatch B "head" args
  = head_or_tail B head "❌ head(n) expects integer n" args.
Proof. reflexivity. Qed.

Lemma dispatch_tail (B : backend) (args : list str) :
  dispatch B "tail" args
  = head_or_tail B tail "❌ tail(n) expects integer n" args.
Proof. reflexivity. Qed.

(** ** Beyond ASCII

    Whitespace, word characters and digits are those of Unicode: a
    no-break space around a command or an argument is stripped, a letter
    with an accent is a word character, and a count may be written in the
    digits of another script. *)
Lemma beyond_ascii :
  strip ([160%N] ++ "help" ++ [12288%N]) = "help" /\
  re_match Demo.ucd "café" = Some ("café" : str, None) /\
  parsed Demo.ucd ([8195%N] ++ "scatter(" ++ [160%N] ++ "salary, é )")
  = Some ("scatter" : str, ["salary" : str; "é" : str]) /\
  parsed Demo.ucd ("head(" ++ [160%N] ++ ")") = Some ("head" : str, []) /\
  py_int Demo.ucd "٣" = Some 3 /\
  py_float Demo.ucd ([160%N] ++ "٧٥") = Some (f64_of_Z 75) /\
  run Demo.pandas "head(٣)" Demo.start
  = (Ret (VFrame Demo.staff), Demo.start).
Proof. repeat split. Qed.

(** * The claims *)

(** C3, as amended.  For a command that parses to [head] (to [tail]): with
    no argument the count is 5; a first argument that is not an integer
    yields the error text; an integer count [n >= 0] yields the first (the
    last) [n] rows in the order of the table, or all rows when [n] exceeds
    the row count; an integer count [n < 0] yields all rows but the last
    (the first) [-n].  The table and the display are left as they were. *)
Theorem C3_head_tail (B : backend) (command : str) (w : world (result B))
        (args : list str) :
  let df := self_df w in
  let len := List.length (rows df) in
  (parsed B command = Some ("head" : str, args) ->
   (args = [] -> run B command w = (Ret (VFrame (head df 5)), w)
                 /\ rows (head df 5) = firstn 5 (rows df)) /\
   (forall a rest, args = a :: rest -> py_int B a = None ->
      run B command w = (Ret (VStr "❌ head(n) expects integer n"), w)) /\
   (forall a rest n, args = a :: rest -> py_int B a = Some n ->
      run B command w = (Ret (VFrame (head df n)), w) /\
      columns (head df n) = columns df /\
      (0 <= n -> rows (head df n) = firstn (Z.to_nat n) (rows df)
                 /\ spec_head n df (head df n)) /\
      (n < 0 -> rows (head df n) = firstn (len - Z.to_nat (- n)) (rows df))))
  /\
  (parsed B command = Some ("tail" : str, args) ->
   (args = [] -> run B command w = (Ret (VFrame (tail df 5)), w)
                 /\ rows (tail df 5) = skipn (len - 5) (rows df)) /\
   (forall a rest, args = a :: rest -> py_int B a = None ->
      run B command w = (Ret (VStr "❌ tail(n) expects integer n"), w)) /\
   (forall a rest n, args = a :: rest -> py_int B a = Some n ->
      run B command w = (Ret (VFrame (tail df n)), w) /\
      columns (tail df n) = columns df /\
      (0 <= n -> rows (tail df n) = skipn (len - Z.to_nat n) (rows df)
                 /\ spec_tail n df (tail df n)) /\
      (n < 0 -> rows (tail df n) = skipn (Z.to_nat (- n)) (rows df)))).
Proof.
  intros df len. split; intros Hp; rewrite (run_parsed B _ _ _ Hp);
    rewrite ?dispatch_head, ?dispatch_tail, head_or_tail_run.
  - split; [|split].
    + intros ->. split; [reflexivity|]. now apply head_nonneg.
    + intros a rest -> Hi. now rewrite Hi.
    + intros a rest n -> Hi. rewrite Hi. split; [reflexivity|].
      split; [reflexivity|]. split.
      * intros Hn. split; [now apply head_nonneg | now apply spec_head_head].
      * apply head_neg.
  - split; [|split].
    + intros ->. split; [reflexivity|]. now apply (tail_nonneg df 5).
    + intros a rest -> Hi. now rewrite Hi.
    + intros a rest n -> Hi. rewrite Hi. split; [reflexivity|].
      split; [unfold tail; now destruct (n =? 0)|]. split.
      * intros Hn. split; [now apply tail_nonneg | now apply spec_tail_tail].
      * apply tail_neg.
Qed.

Lemma C3_head_tail_witness :
  run Demo.pandas "tail(2)" Demo.start
  = (Ret (VFrame (tail Demo.staff 2)), Demo.start)
  /\ spec_tail 2 Demo.staff (tail Demo.staff 2).
Proof.
  destruct (C3_head_tail Demo.pandas "tail(2)" Demo.start ["2" : str])
    as [_ H].
  destruct (H eq_refl) as (_ & _ & H3).
  destruct (H3 ("2" : str) [] 2 eq_refl eq_refl) as (Hr & _ & Hn & _).
  split; [exact Hr | apply Hn; lia].
Defined.

(** C3, the claim as worded fails on a negative count: [head(-1)] on the
    three-row table returns its first two rows, which is neither a table of
    [-1] rows nor the whole table. *)
Lemma C3_head_negative_count :
  py_int Demo.pandas "-1" = Some (-1) /\
  run Demo.pandas "head(-1)" Demo.start
  = (Ret (VFrame (head Demo.staff (-1))), Demo.start) /\
  List.length (rows (head Demo.staff (-1))) = 2%nat /\
  ~ spec_head (-1) Demo.staff (head Demo.staff (-1)).
Proof.
  repeat split.
  intros [_ (rest & _ & [H | [H _]])]; vm_compute in H; discriminate H.
Qed.

(** C9.  A well-formed command, a bare identifier or an identifier with a
    parenthesised argument text, whose function name is not a supported one
    yields the text that names the function and points to [help], whatever
    the argument text; nothing else happens. *)
Theorem C9_unknown_function (B : backend) (func body : str)
        (w : world (result B)) :
  identifier B func -> one_line body -> ~ In func supported_functions ->
  not_supported func
  = "❌ Function '" ++ func ++ "' not supported. Type 'help' for options." /\
  run B func w = (Ret (VStr (not_supported func)), w) /\
  run B (call func body) w = (Ret (VStr (not_supported func)), w).
Proof.
  intros Hi Hb Hu. split; [reflexivity|]. split.
  - rewrite (run_parsed B func func []).
    + now apply dispatch_unknown.
    + apply parsed_identifier; [assumption|].
      intros ->. apply Hu. now left.
  - rewrite (run_parsed B _ func (parse_args (Some body))).
    + now apply dispatch_unknown.
    + now apply parsed_call.
Qed.

Lemma C9_unknown_function_witness :
  run Demo.pandas (call "foo" "1, 2") Demo.start
  = (Ret (VStr (not_supported "foo")), Demo.start).
Proof.
  apply (C9_unknown_function Demo.pandas "foo" "1, 2" Demo.start).
  - split; [discriminate | reflexivity].
  - reflexivity.
  - apply str_in_not_In. reflexivity.
Defined.

Lemma ret_str_inj {X} (s t : str) :
  @Ret (value X) (VStr s) = Ret (VStr t) -> s = t.
Proof. now intros [= ->]. Qed.

(** C10, as amended.  The bare word [help] (after trimming) returns the
    help text: ten lines, the first a heading, which name every supported
    function.  [help()] is an ordinary call of a function named help, which
    no branch of the dispatcher knows, and yields the unknown-function text.
    A command other than [help] returns the help text only when it is
    [info] or a statistic of one column and the dataframe library itself
    answers with that text. *)
Theorem C10_help_is_a_bare_word (B : backend) (command : str)
        (w : world (result B)) :
  (strip command = "help" -> run B command w = (Ret (VStr help_text), w)) /\
  (fst (run B command w) = Ret (VStr help_text) <->
   strip command = "help" \/
   exists func args,
     parsed B command = Some (func, args) /\ In func library_texts /\
     fst (dispatch B func args w) = Ret (VStr help_text)) /\
  run B "help()" w = (Ret (VStr (not_supported "help")), w) /\
  List.length (split newline help_text) = 10%nat /\
  starts_with "Available commands:" help_text = true /\
  forallb (fun f => occurs f help_text) supported_functions = true.
Proof.
  assert (Hhelp : strip command = "help" ->
                  run B command w = (Ret (VStr help_text), w)).
  { intros E. unfold run. now rewrite E. }
  split; [exact Hhelp|]. split; [|repeat split]. split.
  - intros H. destruct (str_eqb (strip command) "help") eqn:E1;
      [left; now apply str_eqb_eq|]. right.
    unfold run in H. rewrite E1 in H.
    destruct (str_eqb (strip command) []) eqn:E0.
    { apply ret_str_inj, (f_equal marked) in H. discriminate H. }
    destruct (re_match B (strip command)) as [[func argstr]|] eqn:Em.
    + exists func, (parse_args argstr). split.
      { unfold parsed. now rewrite E0, E1, Em. }
      split; [|exact H].
      destruct (str_in func library_texts) eqn:Ein; [now apply str_in_In|].
      apply str_in_not_In in Ein.
      apply (marks_dispatch B func _ Ein) in H. discriminate H.
    + apply ret_str_inj, (f_equal marked) in H. discriminate H.
  - intros [E|(func & args & Hp & _ & H)]; [now rewrite (Hhelp E)|].
    now rewrite (run_parsed B _ _ _ Hp).
Qed.

(** C10, the claim as worded fails: a command other than [help] returns
    the help text when the table holds it; here the largest entry of a
    text column whose only entry is that text. *)
Lemma C10_help_text_from_data :
  strip "max(note)" <> "help" /\
  run Demo.pandas "max(note)" {| self_df := Demo.notes; screen := [] |}
  = (Ret (VStr help_text), {| self_df := Demo.notes; screen := [] |}).
Proof. split; [discriminate | reflexivity]. Qed.

(** ** Column validation *)

Lemma first_missing_skips (names before after : list str) :
  first_missing names (before ++ [] :: after)
  = first_missing names (before ++ after).
Proof.
  induction before as [|c before IH]; simpl; [reflexivity|].
  now rewrite IH.
Qed.

Lemma first_missing_found (names pre post : list str) (c : str) :
  Forall (passes names) pre ->
  c <> [] -> ~ In c names ->
  first_missing names (pre ++ c :: post) = Some (column_not_found c).
Proof.
  intros Hpre Hc Hin. induction Hpre as [|p pre [Hp|Hp] _ IH]; simpl.
  - apply str_eqb_neq in Hc. apply str_in_not_In in Hin.
    now rewrite Hc, Hin.
  - subst p. exact IH.
  - apply str_in_In in Hp. rewrite Hp, andb_false_r. exact IH.
Qed.

Lemma first_missing_passes (names cols : list str) :
  Forall (passes names) cols -> first_missing names cols = None.
Proof.
  induction 1 as [|p cols [Hp|Hp] _ IH]; simpl; [reflexivity| |].
  - now subst p.
  - apply str_in_In in Hp. now rewrite Hp, andb_false_r.
Qed.

Lemma first_missing_none (names cols : list str) :
  Forall (fun p => In p names) cols -> first_missing names cols = None.
Proof.
  intros H. apply first_missing_passes.
  apply (Forall_impl _ (fun p Hp => or_intror Hp) H).
Qed.

Lemma strip_blank (blank : str) :
  forallb is_space blank = true -> strip blank = [].
Proof.
  intros H. unfold strip, rstrip.
  assert (E : lstrip blank = []).
  { induction blank as [|c blank IH]; simpl in *; [reflexivity|].
    apply andb_true_iff in H as [Hc H]. rewrite Hc. now apply IH. }
  now rewrite E.
Qed.

Lemma validate_run (B : backend) {A} (cols : list str)
      (k : option str -> M B A) (w : world (result B)) :
  bind (_validate_columns B cols) k w
  = k (first_missing (col_names (self_df w)) cols) w.
Proof. reflexivity. Qed.

(** *** The branches of [dispatch], one equation each *)

Section Branches.

Variable B : backend.

Lemma dispatch_single (func : str) (args : list str) :
  str_in func single_col_funcs = true ->
  dispatch B func args
  = one_column B args ("❌ " ++ func ++ "(col) expects exactly one column")
      (fun a =>
         bind (get_df B) (fun df =>
         bind (lift (getitem df a)) (fun s =>
         bind (invoke (series_op B func s)) (fun x => ret (wrap B x))))).
Proof.
  intros H. apply str_in_In in H. unfold single_col_funcs in H. simpl in H.
  repeat destruct H as [<-|H]; solve [reflexivity | contradiction].
Qed.

Lemma dispatch_groupby (args : list str) :
  dispatch B "groupby" args
  = match args with
    | [group_col; agg; target_col] =>
        bind (_validate_columns B [group_col; target_col]) (fun err =>
        match err with
        | Some e => ret (VStr e)
        | None =>
            if negb (str_in agg aggregates) then
              ret (VStr "❌ Unsupported agg. Use mean,sum,min,max,count,median,std,var")
            else groupby B group_col agg target_col
        end)
    | _ => ret (VStr "❌ groupby(group_col, agg, target_col) required")
    end.
Proof. reflexivity. Qed.

Lemma dispatch_filter (args : list str) :
  dispatch B "filter" args
  = match args with
    | [col; op; value] =>
        bind (_validate_columns B [col]) (fun err =>
        match err with
        | Some e => ret (VStr e)
        | None =>
            bind (get_df B) (fun df =>
            bind (lift (getitem df col)) (fun series =>
            match parse_op op with
            | Some o =>
                bind (lift (compare_series o series (coerce B series value)))
                     (fun mask => ret (VFrame (select df mask)))
            | None =>
                ret (VStr "❌ Unsupported operator. Use ==, !=, >, <, >=, <=")
            end))
        end)
    | _ => ret (VStr "❌ filter(col, op, value) required")
    end.
Proof. reflexivity. Qed.

Lemma dispatch_plot (args : list str) :
  dispatch B "plot" args
  = one_column B args "❌ plot(col) expects one column"
      (fun a =>
         bind (get_df B) (fun df =>
         bind (lift (getitem df a)) (fun s =>
         bind (show B (LinePlot s ("Plot of " ++ a) a)) (fun _ =>
         ret (VStr ("📊 Plot displayed for " ++ a)))))).
Proof. reflexivity. Qed.

Lemma dispatch_hist (args : list str) :
  dispatch B "hist" args
  = one_column B args "❌ hist(col) expects one column"
      (fun a =>
         bind (get_df B) (fun df =>
         bind (lift (getitem df a)) (fun s =>
         bind (show B (Histogram s ("Histogram of " ++ a) a)) (fun _ =>
         ret (VStr ("📊 Histogram displayed for " ++ a)))))).
Proof. reflexivity. Qed.

Lemma dispatch_scatter (args : list str) :
  dispatch B "scatter" args
  = match args with
    | [x; y] =>
        bind (_validate_columns B args) (fun err =>
        match err with
        | Some e => ret (VStr e)
        | None =>
            bind (get_df B) (fun df =>
            bind (lift (getitem df x)) (fun sx =>
            bind (lift (getitem df y)) (fun sy =>
            bind (show B (Scatter sx sy ("Scatter plot: " ++ x ++ " vs " ++ y)))
                 (fun _ =>
            ret (VStr ("📊 Scatter plot displayed for " ++ x ++ " vs " ++ y))))))
        end)
    | _ => ret (VStr "❌ scatter(x, y) expects two columns")
    end.
Proof. reflexivity. Qed.

Lemma dispatch_box (args : list str) :
  dispatch B "box" args
  = one_column B args "❌ box(col) expects one column"
      (fun a =>
         bind (get_df B) (fun df =>
         bind (lift (getitem_frame df a)) (fun frame =>
         bind (show B (BoxPlot frame ("Box plot of " ++ a))) (fun _ =>
         ret (VStr ("📊 Box plot displayed for " ++ a)))))).
Proof. reflexivity. Qed.

Lemma one_column_missing (a usage e : str)
      (k : str -> M B (value (result B))) (w : world (result B)) :
  first_missing (col_names (self_df w)) [a] = Some e ->
  one_column B [a] usage k w = (Ret (VStr e), w).
Proof. intros H. unfold one_column. now rewrite validate_run, H. Qed.

Lemma one_column_usage (args : list str) (usage : str)
      (k : str -> M B (value (result B))) (w : world (result B)) :
  List.length args <> 1%nat ->
  one_column B args usage k w = (Ret (VStr usage), w).
Proof.
  intros H. unfold one_column.
  destruct args as [|a [|b rest]]; simpl in *;
    solve [reflexivity | contradiction].
Qed.

Lemma referenced_cases (func : str) (args cols : list str) :
  referenced func args = Some cols ->
  ((str_in func single_col_funcs = true \/ func = "plot" \/ func = "hist"
    \/ func = "box") /\ exists a, args = [a] /\ cols = [a])
  \/ (func = "groupby" /\ exists g agg t, args = [g; agg; t] /\ cols = [g; t])
  \/ (func = "filter" /\ exists c op v, args = [c; op; v] /\ cols = [c])
  \/ (func = "scatter" /\ exists x y, args = [x; y] /\ cols = [x; y]).
Proof.
  unfold referenced.
  destruct (str_in func single_col_funcs) eqn:Es.
  { intros H. left. split; [now left|].
    destruct args as [|a [|b rest]]; try discriminate H.
    exists a. split; congruence. }
  destruct (str_eqb func "plot") eqn:E1.
  { apply str_eqb_eq in E1. intros H. left. split; [now right; left|].
    destruct args as [|a [|b rest]]; try discriminate H.
    exists a. split; congruence. }
  destruct (str_eqb func "hist") eqn:E2.
  { apply str_eqb_eq in E2. intros H. left. split; [now right; right; left|].
    destruct args as [|a [|b rest]]; try discriminate H.
    exists a. split; congruence. }
  destruct (str_eqb func "box") eqn:E3.
  { apply str_eqb_eq in E3. intros H. left. split; [now right; right; right|].
    destruct args as [|a [|b rest]]; try discriminate H.
    exists a. split; congruence. }
  destruct (str_eqb func "groupby") eqn:E4.
  { apply str_eqb_eq in E4. intros H. right; left. split; [assumption|].
    destruct args as [|g [|agg [|t [|x rest]]]]; try discriminate H.
    exists g, agg, t. split; congruence. }
  destruct (str_eqb func "filter") eqn:E5.
  { apply str_eqb_eq in E5. intros H. right; right; left. split; [assumption|].
    destruct args as [|c [|op [|v [|x rest]]]]; try discriminate H.
    exists c, op, v. split; congruence. }
  destruct (str_eqb func "scatter") eqn:E6; [|discriminate].
  apply str_eqb_eq in E6. intros H. right; right; right. split; [assumption|].
  destruct args as [|x [|y [|z rest]]]; try discriminate H.
  exists x, y. split; congruence.
Qed.

Lemma dispatch_missing (func : str) (args cols : list str) (e : str)
      (w : world (result B)) :
  referenced func args = Some cols ->
  first_missing (col_names (self_df w)) cols = Some e ->
  dispatch B func args w = (Ret (VStr e), w).
Proof.
  intros Hr He. apply referenced_cases in Hr.
  destruct Hr as [[Hf (a & -> & ->)] | [[-> (g & agg & t & -> & ->)]
                 | [[-> (c & op & v & -> & ->)] | [-> (x & y & -> & ->)]]]].
  - destruct Hf as [Hf | [-> | [-> | ->]]].
    + rewrite (dispatch_single _ _ Hf). now apply one_column_missing.
    + rewrite dispatch_plot. now apply one_column_missing.
    + rewrite dispatch_hist. now apply one_column_missing.
    + rewrite dispatch_box. now apply one_column_missing.
  - rewrite dispatch_groupby. now rewrite validate_run, He.
  - rewrite dispatch_filter. now rewrite validate_run, He.
  - rewrite dispatch_scatter. now rewrite validate_run, He.
Qed.

End Branches.

(** C2, as amended.  A command that refers to columns (a one-column
    statistic or chart, [groupby], [filter], [scatter], with the argument
    count of its operation): when one of the names it refers to is not
    empty and absent from the schema, and every name before it is empty or
    a column, [run] returns the text that names it, whatever the backend,
    and the table and the display are left as they were: nothing was
    computed or drawn.  The validator passes over every empty name, and a
    blank argument reaches it as the empty name. *)
Theorem C2_missing_column (B : backend) (command : str) (w : world (result B))
        (func : str) (args cols pre post : list str) (c : str) :
  parsed B command = Some (func, args) ->
  referenced func args = Some cols ->
  cols = pre ++ c :: post ->
  Forall (passes (col_names (self_df w))) pre ->
  c <> [] -> ~ In c (col_names (self_df w)) ->
  run B command w = (Ret (VStr (column_not_found c)), w) /\
  column_not_found c = "❌ Column '" ++ c ++ "' not found." /\
  (forall names before after,
     first_missing names (before ++ [] :: after)
     = first_missing names (before ++ after)) /\
  (forall blank, forallb is_space blank = true -> strip blank = []).
Proof.
  intros Hp Hr -> Hpre Hc Hin. split; [|split; [reflexivity|split]].
  - rewrite (run_parsed B _ _ _ Hp).
    apply (dispatch_missing B _ _ _ _ _ Hr).
    now apply first_missing_found.
  - intros. apply first_missing_skips.
  - apply strip_blank.
Qed.

Lemma C2_missing_column_witness :
  run Demo.pandas "groupby(, mean, age)" Demo.start
  = (Ret (VStr (column_not_found "age")), Demo.start).
Proof.
  apply (C2_missing_column Demo.pandas "groupby(, mean, age)" Demo.start
           "groupby" [[]; "mean" : str; "age" : str] [[]; "age" : str]
           [[]] [] "age").
  - reflexivity.
  - reflexivity.
  - reflexivity.
  - constructor; [now left | constructor].
  - discriminate.
  - apply str_in_not_In. reflexivity.
Defined.

(** C2, the claim as worded fails on the empty name: the column that
    [filter(, ==, 1)] refers to is absent from the schema, the validator
    passes over it, and the lookup that follows raises a key error instead
    of returning an error text. *)
Lemma C2_empty_name_raises :
  parsed Demo.pandas "filter(, ==, 1)"
  = Some ("filter" : str, [[]; "==" : str; "1" : str]) /\
  referenced "filter" [[]; "==" : str; "1" : str] = Some [[]] /\
  ~ In [] (col_names Demo.staff) /\
  run Demo.pandas "filter(, ==, 1)" Demo.start
  = (Raise (KeyError []), Demo.start).
Proof.
  repeat split. apply str_in_not_In. reflexivity.
Qed.

(** ** The orders of texts and of floats *)

Lemma str_compare_refl (a : str) : str_compare a a = Eq.
Proof.
  induction a as [|c a IH]; simpl; [reflexivity|].
  now rewrite N.compare_refl.
Qed.

Lemma str_compare_antisym (a b : str) :
  str_compare a b = CompOpp (str_compare b a).
Proof.
  revert b. induction a as [|c a IH]; intros [|d b]; simpl; try reflexivity.
  rewrite (N.compare_antisym c d).
  destruct (c ?= d)%N; simpl; [apply IH | reflexivity | reflexivity].
Qed.

Lemma str_compare_trans (a b c : str) :
  str_compare a b = Lt -> str_compare b c = Lt -> str_compare a c = Lt.
Proof.
  revert b c. induction a as [|x a IH]; intros [|y b] [|z c]; simpl;
    try congruence.
  destruct (N.compare_spec x y) as [E1|E1|E1];
    destruct (N.compare_spec y z) as [E2|E2|E2];
    try congruence; intros H1 H2.
  - rewrite E1, E2, N.compare_refl. now apply (IH b c).
  - rewrite E1. now apply N.compare_lt_iff in E2 as ->.
  - rewrite <- E2. now apply N.compare_lt_iff in E1 as ->.
  - assert (E : (x < z)%N) by lia.
    now apply N.compare_lt_iff in E as ->.
Qed.

Lemma str_compare_eq (a b : str) : str_compare a b = Eq -> a = b.
Proof.
  revert b. induction a as [|x a IH]; intros [|y b]; simpl; try discriminate;
    [reflexivity|].
  destruct (N.compare_spec x y) as [E|E|E]; try discriminate.
  intros H. apply IH in H. congruence.
Qed.

(** The dictionary order and equality, read off the comparison. *)
Lemma precedes_compare (s t : str) :
  precedes s t = match str_compare s t with Lt => true | _ => false end.
Proof.
  revert t. induction s as [|x s IH]; intros [|y t]; simpl; try reflexivity.
  destruct (N.compare_spec x y) as [E|E|E].
  - subst y. now rewrite N.ltb_irrefl, N.eqb_refl, IH.
  - apply N.ltb_lt in E. now rewrite E.
  - assert (E1 : (x <? y)%N = false) by (apply N.ltb_ge; lia).
    assert (E2 : (x =? y)%N = false) by (apply N.eqb_neq; lia).
    now rewrite E1, E2.
Qed.

Lemma str_eqb_compare (s t : str) :
  str_eqb s t = match str_compare s t with Eq => true | _ => false end.
Proof.
  destruct (str_compare s t) eqn:E.
  - apply str_compare_eq in E. subst. apply str_eqb_refl.
  - apply str_eqb_neq. intros ->. now rewrite str_compare_refl in E.
  - apply str_eqb_neq. intros ->. now rewrite str_compare_refl in E.
Qed.

Lemma f64_compare_refl (x : float64) :
  x <> S754_nan -> f64_compare x x = Some Eq.
Proof.
  destruct x as [[]|[]| |[] m e]; simpl; try congruence; intros _;
    rewrite Z.compare_refl;
    change (Pos.compare_cont Eq m m) with (Pos.compare m m);
    now rewrite Pos.compare_refl.
Qed.

Ltac compare_cases :=
  repeat match goal with
         | |- context [Z.compare ?a ?b] =>
             destruct (Z.compare_spec a b); try lia
         | |- context [Pos.compare ?a ?b] =>
             destruct (Pos.compare_spec a b); try lia
         | H : context [Z.compare ?a ?b] |- _ =>
             destruct (Z.compare_spec a b); try lia
         | H : context [Pos.compare ?a ?b] |- _ =>
             destruct (Pos.compare_spec a b); try lia
         end.

Lemma f64_compare_antisym (x y : float64) (c : comparison) :
  f64_compare x y = Some c -> f64_compare y x = Some (CompOpp c).
Proof.
  destruct x as [[]|[]| |[] m1 e1], y as [[]|[]| |[] m2 e2]; simpl;
    intros [= <-]; try reflexivity;
    change (Pos.compare_cont Eq ?a ?b) with (Pos.compare a b);
    compare_cases; simpl; try reflexivity; try lia.
Qed.

Lemma f64_compare_none (x y : float64) :
  f64_compare x y = None -> f64_compare y x = None.
Proof.
  destruct x as [[]|[]| |[] m1 e1], y as [[]|[]| |[] m2 e2]; simpl;
    solve [reflexivity | discriminate].
Qed.

Lemma f64_compare_flip (x y : float64) :
  f64_compare y x = option_map CompOpp (f64_compare x y).
Proof.
  destruct (f64_compare x y) as [c|] eqn:E.
  - now apply f64_compare_antisym.
  - now apply f64_compare_none.
Qed.

Lemma f64_compare_trans (x y z : float64) :
  f64_compare x y = Some Lt -> f64_compare y z = Some Lt ->
  f64_compare x z = Some Lt.
Proof.
  destruct x as [[]|[]| |[] m1 e1], y as [[]|[]| |[] m2 e2],
           z as [[]|[]| |[] m3 e3]; simpl;
    try discriminate; try reflexivity;
    change (Pos.compare_cont Eq ?a ?b) with (Pos.compare a b);
    intros H1 H2; compare_cases; simpl in *;
    solve [reflexivity | discriminate | lia].
Qed.

Lemma f64_compare_present (x y : float64) :
  x <> S754_nan -> y <> S754_nan -> exists c, f64_compare x y = Some c.
Proof.
  destruct x as [[]|[]| |[] m1 e1], y as [[]|[]| |[] m2 e2]; simpl;
    try congruence; intros _ _; now eexists.
Qed.

(** ** [filter] *)

Lemma pick_map {A} (f : A -> bool) (l : list A) :
  pick (map f l) l = filter f l.
Proof.
  unfold pick. induction l as [|x l IH]; simpl; [reflexivity|].
  destruct (f x); simpl; now rewrite IH.
Qed.

Lemma filter_idempotent {A} (f : A -> bool) (l : list A) :
  filter f (filter f l) = filter f l.
Proof.
  induction l as [|x l IH]; simpl; [reflexivity|].
  destruct (f x) eqn:E; simpl; [now rewrite E, IH | exact IH].
Qed.

Lemma find_column_In (col : str) (cols : list (str * dtype)) (i0 : nat) :
  In col (map fst cols) -> exists i d, find_column col cols i0 = Some (i, d).
Proof.
  revert i0. induction cols as [|[n d] cols IH]; intros i0; simpl; [tauto|].
  destruct (str_eqb col n) eqn:E; [now exists i0, d|].
  intros [H|H]; [|now apply IH].
  subst n. now rewrite str_eqb_refl in E.
Qed.

Lemma find_column_Some (col : str) (cols : list (str * dtype)) (i0 i : nat)
      (d : dtype) :
  find_column col cols i0 = Some (i, d) -> In col (map fst cols).
Proof.
  revert i0. induction cols as [|[n d'] cols IH]; intros i0; simpl;
    [discriminate|].
  destruct (str_eqb col n) eqn:E.
  - apply str_eqb_eq in E. now left.
  - intros H. right. now apply (IH (S i0)).
Qed.

Lemma getitem_found (df : DataFrame) (col : str) (i : nat) (d : dtype) :
  find_column col (columns df) 0 = Some (i, d) ->
  getitem df col
  = Ret {| name := col; dtype_of := d;
           values := map (fun r => (label r, entry i r)) (rows df) |}.
Proof. intros H. unfold getitem. now rewrite H. Qed.

Lemma getitem_In (df : DataFrame) (col : str) :
  In col (col_names df) -> exists s, getitem df col = Ret s.
Proof.
  intros H. apply (find_column_In _ _ 0%nat) in H as (i & d & H).
  rewrite (getitem_found _ _ _ _ H). now eexists.
Qed.

Lemma getitem_Ret (df : DataFrame) (col : str) (s : Series) :
  getitem df col = Ret s ->
  exists i, find_column col (columns df) 0 = Some (i, dtype_of s) /\
            s = {| name := col; dtype_of := dtype_of s;
                   values := map (fun r => (label r, entry i r)) (rows df) |}.
Proof.
  unfold getitem.
  destruct (find_column col (columns df) 0) as [[i d]|]; [|discriminate].
  intros [= <-]. now exists i.
Qed.

Lemma getitem_absent (df : DataFrame) (col : str) :
  ~ In col (col_names df) -> getitem df col = Raise (KeyError col).
Proof.
  intros H. unfold getitem.
  destruct (find_column col (columns df) 0) as [[i d]|] eqn:E; [|reflexivity].
  exfalso. apply H. now apply (find_column_Some _ _ _ _ _ E).
Qed.

Lemma compare_cells_map (op : cmp_op) (cs : list cell) (v : scalar)
      (m : list bool) :
  compare_cells op cs v = Some m ->
  m = map (fun c => match compare_cell op c v with
                    | Some b => b
                    | None => false
                    end) cs.
Proof.
  revert m. induction cs as [|c cs IH]; simpl; intros m.
  - now intros [= <-].
  - destruct (compare_cell op c v) as [b|]; [|discriminate].
    destruct (compare_cells op cs v) as [bs|]; [|discriminate].
    intros [= <-]. now rewrite (IH bs eq_refl).
Qed.

Lemma compare_cells_defined (op : cmp_op) (cs : list cell) (v : scalar) :
  Forall (fun c => compare_cell op c v <> None) cs ->
  exists m, compare_cells op cs v = Some m.
Proof.
  induction 1 as [|c cs Hc _ [m IH]]; simpl; [now exists []|].
  destruct (compare_cell op c v) as [b|]; [|congruence].
  rewrite IH. now eexists.
Qed.

Lemma compare_cells_Forall (op : cmp_op) (cs : list cell) (v : scalar)
      (m : list bool) :
  compare_cells op cs v = Some m ->
  Forall (fun c => compare_cell op c v <> None) cs.
Proof.
  revert m. induction cs as [|c cs IH]; simpl; intros m; [constructor|].
  destruct (compare_cell op c v) as [b|] eqn:E; [|discriminate].
  destruct (compare_cells op cs v) as [bs|]; [|discriminate].
  intros _. constructor; [congruence | now apply (IH bs)].
Qed.

(** The mask of a comparison is the satisfaction of each entry. *)
Lemma compare_series_mask (op : cmp_op) (s : Series) (v : scalar)
      (mask : list bool) :
  compare_series op s v = Ret mask ->
  mask = map (fun p => satisfies op (dtype_of s) v (snd p)) (values s).
Proof.
  unfold compare_series, satisfies.
  destruct v as [f|t].
  - destruct (compare_cells _ _ _) as [m|] eqn:E; [|discriminate].
    intros [= <-]. apply compare_cells_map in E. now rewrite map_map in E.
  - destruct (is_numeric (dtype_of s)).
    + destruct (mismatch op) as [b|]; [|discriminate]. intros [= <-].
      apply map_map.
    + destruct (compare_cells _ _ _) as [m|] eqn:E; [|discriminate].
      intros [= <-]. apply compare_cells_map in E. now rewrite map_map in E.
Qed.

(** The rows that [df[series op value]] keeps: those whose entry satisfies
    the comparison, in the order of the table. *)
Lemma select_rows (df : DataFrame) (col : str) (i : nat) (d : dtype)
      (s : Series) (op : cmp_op) (v : scalar) (mask : list bool) :
  find_column col (columns df) 0 = Some (i, d) ->
  getitem df col = Ret s ->
  compare_series op s v = Ret mask ->
  rows (select df mask)
  = filter (fun r => satisfies op d v (entry i r)) (rows df).
Proof.
  intros Hf Hg Hc. rewrite (getitem_found _ _ _ _ Hf) in Hg.
  injection Hg as <-. apply compare_series_mask in Hc. simpl in Hc.
  rewrite map_map in Hc. simpl in Hc. subst mask. apply pick_map.
Qed.

Lemma compare_series_sub (op : cmp_op) (n : str) (d : dtype)
      (g : row -> Z * cell) (q : row -> bool) (rs : list row) (v : scalar)
      (mask : list bool) :
  compare_series op {| name := n; dtype_of := d; values := map g rs |} v
  = Ret mask ->
  exists mask',
    compare_series op
      {| name := n; dtype_of := d; values := map g (filter q rs) |} v
    = Ret mask'.
Proof.
  assert (Hsub : forall m,
             compare_cells op (map snd (map g rs)) v = Some m ->
             exists m', compare_cells op (map snd (map g (filter q rs))) v
                        = Some m').
  { intros m Hm. apply compare_cells_Forall in Hm.
    apply compare_cells_defined. rewrite Forall_forall in *.
    intros c Hc. apply Hm. rewrite map_map, in_map_iff in *.
    destruct Hc as (r & <- & Hr). exists r. split; [reflexivity|].
    now apply filter_In in Hr as [Hr _]. }
  unfold compare_series. simpl. destruct v as [f|t].
  - destruct (compare_cells op (map snd (map g rs)) (Num f)) as [m|] eqn:E;
      [|discriminate].
    intros _. destruct (Hsub m eq_refl) as [m' ->]. now eexists.
  - destruct (is_numeric d).
    + destruct (mismatch op); [|discriminate]. intros _. now eexists.
    + destruct (compare_cells op (map snd (map g rs)) (Text t)) as [m|] eqn:E;
        [|discriminate].
      intros _. destruct (Hsub m eq_refl) as [m' ->]. now eexists.
Qed.

Lemma parse_op_operators (op : str) :
  parse_op op <> None <-> In op operators.
Proof.
  unfold parse_op, operators. split.
  - repeat match goal with
           | |- context [if str_eqb op ?l then _ else _] =>
               let E := fresh "E" in
               destruct (str_eqb op l) eqn:E;
               [apply str_eqb_eq in E; subst op; intros _; simpl; tauto|]
           end.
    congruence.
  - simpl. intros H.
    repeat destruct H as [<-|H]; solve [discriminate | contradiction].
Qed.

(** The six operators, each with the comparison it stands for. *)
Lemma parse_op_cases (op : str) (o : cmp_op) :
  parse_op op = Some o ->
  (op = "==" /\ o = OpEq) \/ (op = "!=" /\ o = OpNe) \/ (op = ">" /\ o = OpGt)
  \/ (op = "<" /\ o = OpLt) \/ (op = ">=" /\ o = OpGe)
  \/ (op = "<=" /\ o = OpLe).
Proof.
  unfold parse_op.
  repeat match goal with
         | |- context [if str_eqb op ?l then _ else _] =>
             let E := fresh "E" in
             destruct (str_eqb op l) eqn:E;
             [apply str_eqb_eq in E; intros [= <-]; tauto|]
         end.
  discriminate.
Qed.

Lemma holds_number (op : str) (o : cmp_op) (x f : float64) :
  parse_op op = Some o -> holds o (f64_compare x f) = spec_number op x f.
Proof.
  intros H. apply parse_op_cases in H.
  destruct H as [[-> ->]|[[-> ->]|[[-> ->]|[[-> ->]|[[-> ->]|[-> ->]]]]]];
    unfold spec_number, SFeqb, SFltb, SFleb; simpl;
    fold (f64_compare x f); fold (f64_compare f x);
    rewrite ?(f64_compare_flip x f);
    now destruct (f64_compare x f) as [[]|].
Qed.

Lemma holds_text (op : str) (o : cmp_op) (s t : str) :
  parse_op op = Some o -> holds o (Some (str_compare s t)) = spec_text op s t.
Proof.
  intros H. apply parse_op_cases in H.
  destruct H as [[-> ->]|[[-> ->]|[[-> ->]|[[-> ->]|[[-> ->]|[-> ->]]]]]];
    unfold spec_text; simpl;
    rewrite ?precedes_compare, ?str_eqb_compare,
      ?(str_compare_antisym t s);
    now destruct (str_compare s t).
Qed.

Lemma mismatch_spec (op : str) (o : cmp_op) :
  parse_op op = Some o ->
  match mismatch o with Some b => b | None => false end = str_eqb op "!=".
Proof.
  intros H. apply parse_op_cases in H.
  now destruct H as [[-> ->]|[[-> ->]|[[-> ->]|[[-> ->]|[[-> ->]|[-> ->]]]]]].
Qed.

(** What the code computes for an entry is the specification's reading of
    the operator. *)
Lemma satisfies_spec (op : str) (o : cmp_op) (d : dtype) (v : scalar)
      (c : cell) :
  parse_op op = Some o -> satisfies o d v c = spec_keeps op d v c.
Proof.
  intros H. pose proof (mismatch_spec op o H) as Hm.
  assert (Hne : match o with OpNe => true | _ => false end = str_eqb op "!=").
  { apply parse_op_cases in H.
    now destruct H as [[-> ->]|[[-> ->]|[[-> ->]|[[-> ->]|[[-> ->]|[-> ->]]]]]]. }
  unfold satisfies, spec_keeps, compare_cell. destruct v as [f|t].
  - destruct (cell_f64 c) as [x|]; [now apply holds_number | exact Hm].
  - destruct (is_numeric d); [exact Hm|].
    destruct c as [b|z|f|s]; simpl.
    + exact Hm.
    + exact Hm.
    + destruct f; simpl; solve [exact Hm | exact Hne].
    + now apply holds_text.
Qed.

Lemma numeric_kind (d : dtype) : char_in (kind d) "biufc" = is_numeric d.
Proof. now destruct d. Qed.

Lemma coerce_Num (U : unicode) (s : Series) (value : str) (f : float64) :
  coerce U s value = Num f
  <-> is_numeric (dtype_of s) = true /\ py_float U value = Some f.
Proof.
  unfold coerce. rewrite numeric_kind.
  destruct (is_numeric (dtype_of s)); [|split; [discriminate | intros [H _]; discriminate]].
  destruct (py_float U value) as [f'|]; split.
  - now intros [= ->].
  - now intros [_ [= ->]].
  - discriminate.
  - intros [_ H]. discriminate.
Qed.

Lemma coerce_Text (U : unicode) (s : Series) (value t : str) :
  coerce U s value = Text t
  <-> t = value /\ (is_numeric (dtype_of s) = false \/ py_float U value = None).
Proof.
  unfold coerce. rewrite numeric_kind.
  destruct (is_numeric (dtype_of s)).
  - destruct (py_float U value) as [f'|]; split.
    + discriminate.
    + intros [_ [H|H]]; discriminate.
    + intros [= ->]. split; [reflexivity | now right].
    + now intros [-> _].
  - split; [intros [= ->]; split; [reflexivity | now left] | now intros [-> _]].
Qed.

Lemma mismatch_ordering (op : str) (o : cmp_op) :
  parse_op op = Some o -> (mismatch o = None <-> In op orderings).
Proof.
  intros H. apply parse_op_cases in H.
  destruct H as [[-> ->]|[[-> ->]|[[-> ->]|[[-> ->]|[[-> ->]|[-> ->]]]]]];
    simpl; split; try discriminate; try tauto;
    intros H; repeat destruct H as [H|H]; try discriminate H; contradiction.
Qed.

Lemma compare_series_raise (op : cmp_op) (s : Series) (v : scalar) (e : exn) :
  compare_series op s v = Raise e -> e = TypeError.
Proof.
  unfold compare_series. destruct v as [f|t].
  - destruct (compare_cells _ _ _); [discriminate | now intros [= <-]].
  - destruct (is_numeric (dtype_of s)).
    + destruct (mismatch op); [discriminate | now intros [= <-]].
    + destruct (compare_cells _ _ _); [discriminate | now intros [= <-]].
Qed.

(** A numeric column against a text has no order. *)
Lemma compare_series_raises (U : unicode) (op : cmp_op) (s : Series)
      (value : str) :
  is_numeric (dtype_of s) = true -> py_float U value = None ->
  mismatch op = None ->
  compare_series op s (coerce U s value) = Raise TypeError.
Proof.
  intros Hn Hf Hm.
  assert (E : coerce U s value = Text value).
  { apply coerce_Text. split; [reflexivity | now right]. }
  rewrite E. unfold compare_series. now rewrite Hn, Hm.
Qed.

Lemma fits_numeric (d : dtype) (c : cell) :
  is_numeric d = true -> fits d c = true -> cell_f64 c <> None.
Proof.
  destruct d, c; intros Hn Hf; vm_compute in Hn; simpl in Hf;
    try discriminate Hn; try discriminate Hf; simpl; congruence.
Qed.

Lemma fits_object (op : cmp_op) (c : cell) (t : str) :
  fits Object c = true -> compare_cell op c (Text t) <> None.
Proof.
  destruct c as [b|z|f|s]; simpl; try discriminate.
  destruct f; simpl; discriminate.
Qed.

(** On a well-typed column that is the only comparison without a result. *)
Lemma compare_series_total (U : unicode) (op : cmp_op) (s : Series)
      (value : str) :
  well_typed s ->
  ~ (is_numeric (dtype_of s) = true /\ py_float U value = None
     /\ mismatch op = None) ->
  exists mask, compare_series op s (coerce U s value) = Ret mask.
Proof.
  intros Hw Hno. unfold compare_series.
  destruct (coerce U s value) as [f|t] eqn:E.
  - apply coerce_Num in E as [Hn _].
    destruct (compare_cells_defined op (map snd (values s)) (Num f)) as [m ->];
      [|now eexists].
    unfold well_typed in Hw. rewrite Forall_forall in *.
    intros c Hc. apply in_map_iff in Hc as (p & <- & Hp).
    pose proof (fits_numeric _ _ Hn (Hw p Hp)) as Hx.
    unfold compare_cell. destruct (cell_f64 (snd p)); congruence.
  - apply coerce_Text in E as [-> Hc].
    destruct (is_numeric (dtype_of s)) eqn:Hn.
    + destruct (mismatch op) as [b|] eqn:Hm; [now eexists|].
      exfalso. apply Hno. destruct Hc as [Hc|Hc]; [discriminate|]. tauto.
    + destruct (compare_cells_defined op (map snd (values s)) (Text value))
        as [m ->]; [|now eexists].
      unfold well_typed in Hw. rewrite Forall_forall in *.
      intros c Hin. apply in_map_iff in Hin as (p & <- & Hp).
      specialize (Hw p Hp). destruct (dtype_of s); try discriminate Hn.
      now apply fits_object.
Qed.

Lemma filter_run (B : backend) (col op value : str) (w : world (result B)) :
  dispatch B "filter" [col; op; value] w
  = let df := self_df w in
    match first_missing (col_names df) [col] with
    | Some e => (Ret (VStr e), w)
    | None =>
        match getitem df col with
        | Raise e => (Raise e, w)
        | Ret s =>
            match parse_op op with
            | None =>
                (Ret (VStr "❌ Unsupported operator. Use ==, !=, >, <, >=, <="), w)
            | Some o =>
                match compare_series o s (coerce B s value) with
                | Ret mask => (Ret (VFrame (select df mask)), w)
                | Raise e => (Raise e, w)
                end
            end
        end
    end.
Proof.
  rewrite dispatch_filter, validate_run. cbv zeta.
  destruct (first_missing _ _); [reflexivity|].
  unfold bind, get_df, lift, ret.
  destruct (getitem (self_df w) col) as [s|e]; [|reflexivity].
  destruct (parse_op op) as [o|]; [|reflexivity].
  now destruct (compare_series o s (coerce B s value)).
Qed.

(** A filter command calls no method of the backend. *)
Lemma filter_still (B : backend) (args : list str) (w : world (result B)) :
  snd (dispatch B "filter" args w) = w.
Proof.
  destruct args as [|col [|op [|value [|x rest]]]];
    try (rewrite dispatch_filter; reflexivity).
  rewrite filter_run. cbv zeta.
  destruct (first_missing _ _); [reflexivity|].
  destruct (getitem _ _); [|reflexivity].
  destruct (parse_op op); [|reflexivity].
  now destruct (compare_series _ _ _).
Qed.

(** C4, as amended.  A command that parses to [filter] needs exactly three
    arguments, and its column must be in the schema: otherwise [run] returns
    the usage text, or the text that names the missing column.  With the
    column in the schema, the value is the float it parses to when the
    storage type of the column is numeric and the parsing succeeds, and the
    raw text otherwise; an operator outside ==, !=, >, <, >=, <= yields the
    operator text; with one of the six, [run] either returns a new table
    with the schema of the loaded one and exactly the rows whose entry
    stands in the relation of the operator to the value, in the order of
    the table, or raises a type error.  It raises when a numeric column is
    ordered (>, <, >=, <=) against a text that is not a number; on a
    well-typed column this is the only such case.  The table and the
    display are left as they were. *)
Theorem C4_filter (B : backend) (command : str) (w : world (result B))
        (args : list str) :
  parsed B command = Some ("filter" : str, args) ->
  let df := self_df w in
  (List.length args <> 3%nat ->
   run B command w = (Ret (VStr "❌ filter(col, op, value) required"), w)) /\
  (forall col op value, args = [col; op; value] ->
     (col <> [] -> ~ In col (col_names df) ->
      run B command w = (Ret (VStr (column_not_found col)), w)) /\
     (forall i d s,
        find_column col (columns df) 0 = Some (i, d) ->
        getitem df col = Ret s ->
        let v := coerce B s value in
        let table out :=
          run B command w = (Ret (VFrame out), w) /\
          columns out = columns df /\
          rows out = filter (fun r => spec_keeps op d v (entry i r)) (rows df) in
        (forall f, v = Num f <-> is_numeric d = true /\ py_float B value = Some f) /\
        (v = Text value <-> is_numeric d = false \/ py_float B value = None) /\
        (~ In op operators ->
         run B command w
         = (Ret (VStr "❌ Unsupported operator. Use ==, !=, >, <, >=, <="), w)) /\
        (In op operators ->
         ((exists out, table out) \/ run B command w = (Raise TypeError, w)) /\
         (is_numeric d = true -> py_float B value = None ->
          In op orderings -> run B command w = (Raise TypeError, w)) /\
         (well_typed s ->
          ~ (is_numeric d = true /\ py_float B value = None
             /\ In op orderings) ->
          exists out, table out)))).
Proof.
  intros Hp df. rewrite (run_parsed B _ _ _ Hp). split.
  { intros Hlen. rewrite dispatch_filter.
    destruct args as [|a [|b [|c [|x rest]]]]; simpl in Hlen;
      solve [reflexivity | contradiction]. }
  intros col op value ->. rewrite filter_run. fold df. cbv zeta. split.
  { intros Hc Hin.
    pose proof (first_missing_found (col_names df) [] [] col
                  (Forall_nil _) Hc Hin) as E.
    simpl app in E. now rewrite E. }
  intros i d s Hf Hg.
  assert (Hd : dtype_of s = d).
  { rewrite (getitem_found _ _ _ _ Hf) in Hg. now injection Hg as <-. }
  assert (Hv : first_missing (col_names df) [col] = None).
  { apply first_missing_none. constructor; [|constructor].
    now apply (find_column_Some _ _ _ _ _ Hf). }
  rewrite Hv, Hg. subst d.
  split; [intros f; apply coerce_Num|].
  split.
  { rewrite coerce_Text. tauto. }
  split.
  { intros Hop. destruct (parse_op op) eqn:E; [|reflexivity].
    exfalso. apply Hop, parse_op_operators. congruence. }
  intros Hop. apply parse_op_operators in Hop.
  destruct (parse_op op) as [o|] eqn:Ho; [clear Hop|congruence].
  assert (Hrows : forall mask,
             compare_series o s (coerce B s value) = Ret mask ->
             rows (select df mask)
             = filter (fun r => spec_keeps op (dtype_of s) (coerce B s value)
                                  (entry i r)) (rows df)).
  { intros mask Hm. rewrite (select_rows df col i _ s _ _ _ Hf Hg Hm).
    apply filter_ext. intros r. now apply satisfies_spec. }
  split; [|split].
  - destruct (compare_series o s (coerce B s value)) as [mask|e] eqn:Hm.
    + left. exists (select df mask).
      split; [reflexivity|]. split; [reflexivity | now apply Hrows].
    + right. now rewrite (compare_series_raise _ _ _ _ Hm).
  - intros Hn Hfl Hord. apply (mismatch_ordering op o Ho) in Hord.
    now rewrite (compare_series_raises B o s value Hn Hfl Hord).
  - intros Hw Hno.
    destruct (compare_series_total B o s value Hw) as [mask Hm].
    { intros (Hn & Hfl & Hmis). apply Hno. split; [assumption|].
      split; [assumption|]. now apply (mismatch_ordering op o Ho). }
    rewrite Hm. exists (select df mask).
    split; [reflexivity|]. split; [reflexivity | now apply Hrows].
Qed.

Lemma C4_filter_witness :
  run Demo.pandas "filter(salary, >, 75)" Demo.start
  = (Ret (VFrame (iloc Demo.staff None (Some 2))), Demo.start).
Proof.
  destruct (C4_filter Demo.pandas "filter(salary, >, 75)" Demo.start
              ["salary" : str; ">" : str; "75" : str] eq_refl) as [_ H].
  destruct (H _ _ _ eq_refl) as [_ H2].
  destruct (H2 1%nat Int64 _ eq_refl eq_refl) as (_ & _ & _ & H3).
  destruct H3 as (_ & _ & H4).
  { right; right; now left. }
  destruct H4 as (out & Hr & Hcols & Hrows).
  { repeat constructor. }
  { intros (_ & Hfl & _). discriminate Hfl. }
  rewrite Hr. f_equal. f_equal. destruct out as [cols rs]. simpl in *.
  now subst.
Defined.

(** C4, the claim as worded fails when a numeric column is ordered against
    a text that is not a number: the operator is one of the six and the
    column is in the schema, yet [run] raises instead of returning a table. *)
Lemma C4_order_against_text :
  parse_op ">" = Some OpGt /\
  In ("salary" : str) (col_names Demo.staff) /\
  run Demo.pandas "filter(salary, >, abc)" Demo.start
  = (Raise TypeError, Demo.start).
Proof.
  split; [reflexivity|]. split; [right; now left | reflexivity].
Qed.

(** C6.  Filtering is idempotent: when a filter command returns a table,
    the same command on an analyzer loaded with that table returns the same
    table, rows in the same order. *)
Theorem C6_filter_idempotent (B : backend) (command : str)
        (w w' : world (result B)) (args : list str) (out : DataFrame) :
  parsed B command = Some ("filter" : str, args) ->
  run B command w = (Ret (VFrame out), w') ->
  let again := {| self_df := out; screen := screen w' |} in
  run B command again = (Ret (VFrame out), again).
Proof.
  intros Hp Hrun again. rewrite (run_parsed B _ _ _ Hp) in *.
  destruct args as [|col [|op [|value [|x rest]]]];
    try (rewrite dispatch_filter in Hrun; discriminate Hrun).
  rewrite filter_run in Hrun. cbv zeta in Hrun.
  rewrite filter_run. cbv zeta.
  destruct (first_missing (col_names (self_df w)) [col]) eqn:Hv;
    [discriminate|].
  destruct (getitem (self_df w) col) as [s|e] eqn:Hg; [|discriminate].
  destruct (parse_op op) as [o|]; [|discriminate].
  destruct (compare_series o s (coerce B s value)) as [mask|e] eqn:Hc;
    [|discriminate].
  injection Hrun as <- <-. subst again. simpl self_df.
  change (col_names (select (self_df w) mask)) with (col_names (self_df w)).
  rewrite Hv.
  destruct (getitem_Ret _ _ _ Hg) as (i & Hf & Hs).
  destruct s as [n d vals]. simpl in Hf, Hs. injection Hs as -> ->.
  set (s := {| name := col; dtype_of := d;
               values := map (fun r => (label r, entry i r))
                             (rows (self_df w)) |}) in *.
  pose proof (select_rows _ _ _ _ _ _ _ _ Hf Hg Hc) as Hrows.
  set (q := fun r => satisfies o d (coerce B s value) (entry i r)) in *.
  set (s' := {| name := col; dtype_of := d;
                values := map (fun r => (label r, entry i r))
                              (filter q (rows (self_df w))) |}).
  assert (Hg' : getitem (select (self_df w) mask) col = Ret s').
  { rewrite (getitem_found (select (self_df w) mask) col i d Hf).
    unfold s'. now rewrite Hrows. }
  rewrite Hg'. change (coerce B s' value) with (coerce B s value).
  destruct (compare_series_sub _ _ _ _ q _ _ _ Hc) as [mask' Hc'].
  fold s' in Hc'. rewrite Hc'. f_equal. f_equal. f_equal.
  unfold select at 1. simpl columns.
  pose proof (select_rows (select (self_df w) mask) col i d s' o
                (coerce B s value) mask' Hf Hg' Hc') as Hrows'.
  fold q in Hrows'. rewrite Hrows in Hrows'.
  rewrite filter_idempotent in Hrows'.
  change (pick mask' (rows (select (self_df w) mask)))
    with (rows (select (select (self_df w) mask) mask')).
  rewrite Hrows', <- Hrows. reflexivity.
Qed.

Lemma C6_filter_idempotent_witness :
  let out := iloc Demo.staff None (Some 2) in
  run Demo.pandas "filter(department, ==, eng)"
      {| self_df := out; screen := [] |}
  = (Ret (VFrame out), {| self_df := out; screen := [] |}).
Proof.
  exact (C6_filter_idempotent Demo.pandas "filter(department, ==, eng)"
           Demo.start Demo.start
           ["department" : str; "==" : str; "eng" : str]
           (iloc Demo.staff None (Some 2)) eq_refl eq_refl).
Defined.

(** C7.  No command mutates the loaded table.  [run] never assigns to the
    table, and the methods it calls are handed the table: when none of them
    changes the table it is called on, the table of the analyzer after
    [run] is the one it was before, whatever the command and whatever its
    outcome (a value, an error text or an exception), and so it is after a
    whole interactive session.  A [filter] command calls no method of the
    backend: for every backend it leaves the table and the display as they
    were, and the table it returns is a new one. *)
Theorem C7_table_never_mutated (B : backend) (command : str)
        (inputs : list str) (w : world (result B)) :
  (harmless B ->
   self_df (snd (run B command w)) = self_df w /\
   self_df (snd (session B inputs w)) = self_df w) /\
  (forall args,
     parsed B command = Some ("filter" : str, args) ->
     snd (run B command w) = w).
Proof.
  split.
  - intros HB.
    split; [now apply read_only_run | now apply read_only_session].
  - intros args Hp. rewrite (run_parsed B _ _ _ Hp). apply filter_still.
Qed.

Lemma C7_table_never_mutated_witness :
  self_df (snd (run Demo.pandas "scatter(salary, salary)" Demo.start))
  = Demo.staff /\
  self_df (snd (session Demo.pandas
                  ["describe()" : str; "filter(salary, >, 75)" : str;
                   "plot(department)" : str; "shape" : str] Demo.start))
  = Demo.staff.
Proof.
  exact (proj1 (C7_table_never_mutated Demo.pandas "scatter(salary, salary)"
                  ["describe()" : str; "filter(salary, >, 75)" : str;
                   "plot(department)" : str; "shape" : str] Demo.start)
               pandas_harmless).
Defined.

(** ** [scatter] *)

Lemma scatter_run (B : backend) (x y : str) (w : world (result B)) :
  dispatch B "scatter" [x; y] w
  = let df := self_df w in
    match first_missing (col_names df) [x; y] with
    | Some e => (Ret (VStr e), w)
    | None =>
        match getitem df x with
        | Raise e => (Raise e, w)
        | Ret sx =>
            match getitem df y with
            | Raise e => (Raise e, w)
            | Ret sy =>
                let c := Scatter sx sy ("Scatter plot: " ++ x ++ " vs " ++ y) in
                match draw B c df with
                | (Ret _, df') =>
                    (Ret (VStr ("📊 Scatter plot displayed for "
                                ++ x ++ " vs " ++ y)),
                     {| self_df := df'; screen := screen w ++ [c] |})
                | (Raise e, df') =>
                    (Raise e, {| self_df := df'; screen := screen w |})
                end
            end
        end
    end.
Proof.
  rewrite dispatch_scatter, validate_run. cbv zeta.
  destruct (first_missing _ _); [reflexivity|].
  unfold bind, get_df, lift, ret, show.
  destruct (getitem (self_df w) x) as [sx|e]; [|reflexivity].
  destruct (getitem (self_df w) y) as [sy|e]; [|reflexivity].
  now destruct (draw B _ _) as [[[]|e] df'].
Qed.

(** C8, as amended.  A command that parses to [scatter] needs exactly two
    arguments: with another count [run] returns the usage text; when one of
    the two names is not empty and absent from the schema it returns the
    text that names the first such; in both cases nothing is drawn.  With
    two names of the schema, the same name twice included, it hands the
    chart of the two columns to the display and, once the chart is drawn,
    returns the confirmation text; an exception of the chart call is
    raised by [run]. *)
Theorem C8_scatter (B : backend) (command : str) (w : world (result B))
        (args : list str) :
  parsed B command = Some ("scatter" : str, args) ->
  let df := self_df w in
  (List.length args <> 2%nat ->
   run B command w = (Ret (VStr "❌ scatter(x, y) expects two columns"), w)) /\
  (forall x y, args = [x; y] ->
     (x <> [] -> ~ In x (col_names df) ->
      run B command w = (Ret (VStr ("❌ Column '" ++ x ++ "' not found.")), w)) /\
     (passes (col_names df) x -> y <> [] -> ~ In y (col_names df) ->
      run B command w = (Ret (VStr ("❌ Column '" ++ y ++ "' not found.")), w)) /\
     (In x (col_names df) -> In y (col_names df) ->
      exists sx sy,
        getitem df x = Ret sx /\ getitem df y = Ret sy /\
        let c := Scatter sx sy ("Scatter plot: " ++ x ++ " vs " ++ y) in
        (forall df', draw B c df = (Ret tt, df') ->
         run B command w
         = (Ret (VStr ("📊 Scatter plot displayed for " ++ x ++ " vs " ++ y)),
            {| self_df := df'; screen := screen w ++ [c] |})) /\
        (forall e df', draw B c df = (Raise e, df') ->
         run B command w
         = (Raise e, {| self_df := df'; screen := screen w |})))).
Proof.
  intros Hp df. rewrite (run_parsed B _ _ _ Hp). split.
  { intros Hlen. rewrite dispatch_scatter.
    destruct args as [|a [|b [|c rest]]]; simpl in Hlen;
      solve [reflexivity | contradiction]. }
  intros x y ->. rewrite scatter_run. fold df. cbv zeta. split; [|split].
  { intros Hx Hin.
    pose proof (first_missing_found (col_names df) [] [y] x
                  (Forall_nil _) Hx Hin) as E.
    simpl app in E. now rewrite E. }
  { intros Hx Hy Hin.
    pose proof (first_missing_found (col_names df) [x] [] y
                  (Forall_cons _ Hx (Forall_nil _)) Hy Hin) as E.
    simpl app in E. now rewrite E. }
  intros Hx Hy.
  destruct (getitem_In df x Hx) as [sx Hsx].
  destruct (getitem_In df y Hy) as [sy Hsy].
  exists sx, sy. split; [assumption|]. split; [assumption|].
  rewrite first_missing_none, Hsx, Hsy
    by (constructor; [assumption | constructor; [assumption | constructor]]).
  split; [intros df' Hd; now rewrite Hd | intros e df' Hd; now rewrite Hd].
Qed.

Lemma C8_scatter_witness :
  run Demo.pandas "scatter(salary, age)" Demo.start
  = (Ret (VStr (column_not_found "age")), Demo.start).
Proof.
  destruct (C8_scatter Demo.pandas "scatter(salary, age)" Demo.start
              ["salary" : str; "age" : str] eq_refl) as [_ H].
  destruct (H _ _ eq_refl) as (_ & H1 & _).
  apply H1.
  - right. right. now left.
  - discriminate.
  - apply str_in_not_In. reflexivity.
Defined.

(** C8, the claim as worded fails on a column named twice: the two
    arguments are not distinct, yet the chart is drawn and the confirmation
    text returned. *)
Lemma C8_scatter_same_column_twice :
  exists c,
    run Demo.pandas "scatter(salary, salary)" Demo.start
    = (Ret (VStr "📊 Scatter plot displayed for salary vs salary"),
       {| self_df := Demo.staff; screen := [c] |}).
Proof. eexists. reflexivity. Qed.

(** ** [groupby] *)

Lemma present_float (f : float64) : present (CFloat f) -> f <> S754_nan.
Proof. intros H ->. discriminate H. Qed.

Lemma cell_compare_refl (c : cell) : present c -> cell_compare c c = Eq.
Proof.
  destruct c as [b|z|f|s]; simpl; intros H.
  - apply Z.compare_refl.
  - apply Z.compare_refl.
  - now rewrite (f64_compare_refl f (present_float f H)).
  - apply str_compare_refl.
Qed.

Lemma cell_compare_antisym (a b : cell) :
  present a -> present b -> cell_compare b a = CompOpp (cell_compare a b).
Proof.
  destruct a as [x|x|x|x], b as [y|y|y|y]; simpl; intros Ha Hb;
    try reflexivity.
  - apply Z.compare_antisym.
  - apply Z.compare_antisym.
  - destruct (f64_compare_present x y) as [c Hc];
      [now apply present_float | now apply present_float|].
    now rewrite Hc, (f64_compare_antisym _ _ _ Hc).
  - apply str_compare_antisym.
Qed.

Lemma cell_compare_trans (a b c : cell) :
  present a -> present b -> present c ->
  key_lt a b -> key_lt b c -> key_lt a c.
Proof.
  unfold key_lt.
  destruct a as [x|x|x|x], b as [y|y|y|y], c as [z|z|z|z]; simpl;
    intros Ha Hb Hc; try congruence; try reflexivity.
  - rewrite !Z.compare_lt_iff. lia.
  - rewrite !Z.compare_lt_iff. lia.
  - destruct (f64_compare_present x y) as [c1 H1];
      [now apply present_float | now apply present_float|].
    destruct (f64_compare_present y z) as [c2 H2];
      [now apply present_float | now apply present_float|].
    rewrite H1, H2. intros -> ->.
    now rewrite (f64_compare_trans _ _ _ H1 H2).
  - apply str_compare_trans.
Qed.

Lemma insert_key_In (k x : cell) (keys : list cell) :
  In x (insert_key k keys) -> x = k \/ In x keys.
Proof.
  induction keys as [|h t IH]; simpl.
  - intros [<-|[]]. now left.
  - destruct (cell_compare k h); simpl.
    + tauto.
    + intros [<-|H]; tauto.
    + intros [<-|H]; [tauto|]. destruct (IH H); tauto.
Qed.

Lemma insert_key_keeps (k x : cell) (keys : list cell) :
  In x keys -> In x (insert_key k keys).
Proof.
  induction keys as [|h t IH]; simpl; [tauto|].
  destruct (cell_compare k h); simpl; tauto.
Qed.

Lemma insert_key_has (k : cell) (keys : list cell) :
  present k ->
  exists k', In k' (insert_key k keys) /\ cell_compare k k' = Eq.
Proof.
  intros Hk. induction keys as [|h t (k' & Hin & He)]; simpl.
  - exists k. split; [now left | now apply cell_compare_refl].
  - destruct (cell_compare k h) eqn:E.
    + exists h. split; [now left | assumption].
    + exists k. split; [now left | now apply cell_compare_refl].
    + exists k'. split; [now right | assumption].
Qed.

Lemma insert_key_sorted (k : cell) (keys : list cell) :
  present k -> Forall present keys -> StronglySorted key_lt keys ->
  StronglySorted key_lt (insert_key k keys).
Proof.
  intros Hk Hp Hs. induction Hs as [|h t Hs IH Hh]; simpl.
  - constructor; constructor.
  - inversion Hp as [|? ? Hph Hpt]; subst.
    destruct (cell_compare k h) eqn:E.
    + now constructor.
    + constructor; [now constructor|]. constructor; [exact E|].
      rewrite Forall_forall in *. intros x Hx.
      apply (cell_compare_trans k h x); auto.
    + constructor; [now apply IH|].
      rewrite Forall_forall in *. intros x Hx.
      apply insert_key_In in Hx as [->|Hx]; [|now apply Hh].
      unfold key_lt. rewrite (cell_compare_antisym k h Hk Hph), E.
      reflexivity.
Qed.

(** The keys of a grouping: values of the column that are present, one for
    each value of the column that is present, in strictly increasing order
    and therefore pairwise different. *)
Lemma group_keys_spec (cs : list cell) :
  (forall k, In k (group_keys cs) -> In k cs /\ present k) /\
  (forall c, In c cs -> present c ->
             exists k, In k (group_keys cs) /\ cell_compare c k = Eq) /\
  StronglySorted key_lt (group_keys cs).
Proof.
  unfold group_keys.
  set (f := fun acc c => if is_null c then acc else insert_key c acc).
  assert (H : forall acc,
             Forall present acc -> StronglySorted key_lt acc ->
             (forall k, In k (fold_left f cs acc) ->
                        (In k cs \/ In k acc) /\ present k) /\
             (forall y, In y acc -> In y (fold_left f cs acc)) /\
             (forall c, In c cs -> present c ->
                        exists k, In k (fold_left f cs acc)
                                  /\ cell_compare c k = Eq) /\
             StronglySorted key_lt (fold_left f cs acc)).
  { induction cs as [|c cs IH]; intros acc Hp Hs; simpl.
    - split; [|split; [|split; [|assumption]]].
      + intros k Hk. split; [now right|].
        rewrite Forall_forall in Hp. now apply Hp.
      + trivial.
      + intros c [].
    - assert (Hp' : Forall present (f acc c)).
      { unfold f. destruct (is_null c) eqn:E; [assumption|].
        rewrite Forall_forall in *. intros x Hx.
        apply insert_key_In in Hx as [->|Hx]; [exact E | now apply Hp]. }
      assert (Hs' : StronglySorted key_lt (f acc c)).
      { unfold f. destruct (is_null c) eqn:E; [assumption|].
        now apply insert_key_sorted. }
      destruct (IH (f acc c) Hp' Hs') as (H1 & H2 & H3 & H4).
      split; [|split; [|split; [|assumption]]].
      + intros k Hk. destruct (H1 k Hk) as [[Hin|Hin] Hpk];
          (split; [|assumption]); [tauto|].
        unfold f in Hin. destruct (is_null c); [tauto|].
        apply insert_key_In in Hin as [->|Hin]; tauto.
      + intros y Hy. apply H2. unfold f.
        destruct (is_null c); [assumption | now apply insert_key_keeps].
      + intros x [<-|Hx] Hpx; [|now apply H3].
        destruct (insert_key_has c acc Hpx) as (k & Hk & Hxk).
        exists k. split; [|assumption]. apply H2. unfold f.
        unfold present in Hpx. now rewrite Hpx. }
  destruct (H [] (Forall_nil _) (SSorted_nil _)) as (H1 & _ & H3 & H4).
  split; [|split; [|assumption]].
  - intros k Hk. destruct (H1 k Hk) as [[Hin|[]] Hp]. now split.
  - assumption.
Qed.

(** The entries that make up a group: those of the target column on the
    rows whose grouping entry is the key, in the order of the table. *)
Lemma group_of_rows (df : DataFrame) (g t : str) (i j : nat) (dg dt : dtype)
      (by_ target : Series) (k : cell) :
  find_column g (columns df) 0 = Some (i, dg) ->
  find_column t (columns df) 0 = Some (j, dt) ->
  getitem df g = Ret by_ -> getitem df t = Ret target ->
  values (group_of k by_ target)
  = map (fun r => (label r, entry j r))
        (filter (fun r => same_key k (entry i r)) (rows df)).
Proof.
  intros Hi Hj Hg Ht.
  rewrite (getitem_found _ _ _ _ Hi) in Hg. injection Hg as <-.
  rewrite (getitem_found _ _ _ _ Hj) in Ht. injection Ht as <-.
  unfold group_of. simpl.
  induction (rows df) as [|r rs IH]; simpl; [reflexivity|].
  destruct (same_key k (entry i r)); simpl; now rewrite IH.
Qed.

Section Aggregation.

Variable B : backend.

Lemma invoke_run {A} (m : method A) (w : world (result B)) :
  snd (m (self_df w)) = self_df w -> invoke m w = (fst (m (self_df w)), w).
Proof.
  intros H. unfold invoke. destruct (m (self_df w)) as [r df]. simpl in *.
  subst df. now destruct w.
Qed.

Hypothesis HB : harmless B.

Lemma group_op_run (agg : str) (s : Series) (w : world (result B)) :
  invoke (group_op B agg s) w = (fst (group_op B agg s (self_df w)), w).
Proof. apply invoke_run. apply HB. Qed.

(** When every group has its aggregate, the result lists them in key
    order. *)
Lemma aggregate_Ret (agg : str) (by_ target : Series) (keys : list cell)
      (l : list (cell * result B)) (w : world (result B)) :
  Forall2 (fun k p =>
             fst p = k /\
             fst (group_op B agg (group_of k by_ target) (self_df w))
             = Ret (snd p)) keys l ->
  aggregate B agg by_ target keys w = (Ret l, w).
Proof.
  induction 1 as [|k [k' x] keys l [Hk Hx] _ IH]; simpl; [reflexivity|].
  simpl in Hk, Hx. subst k'. unfold bind at 1.
  rewrite group_op_run, Hx. unfold bind. now rewrite IH.
Qed.

(** The first group whose aggregate raises ends the aggregation. *)
Lemma aggregate_Raise (agg : str) (by_ target : Series)
      (before after : list cell) (k : cell) (e : exn) (w : world (result B)) :
  (forall k', In k' before ->
     exists x, fst (group_op B agg (group_of k' by_ target) (self_df w))
               = Ret x) ->
  fst (group_op B agg (group_of k by_ target) (self_df w)) = Raise e ->
  aggregate B agg by_ target (before ++ k :: after) w = (Raise e, w).
Proof.
  intros Hb Hk. induction before as [|k0 before IH]; simpl.
  - unfold bind. now rewrite group_op_run, Hk.
  - destruct (Hb k0 (or_introl eq_refl)) as [x Hx].
    unfold bind at 1. rewrite group_op_run, Hx. unfold bind.
    rewrite IH; [reflexivity|]. intros k' Hk'. apply Hb. now right.
Qed.

End Aggregation.

Lemma groupby_run (B : backend) (g agg t : str) (w : world (result B)) :
  dispatch B "groupby" [g; agg; t] w
  = let df := self_df w in
    match first_missing (col_names df) [g; t] with
    | Some e => (Ret (VStr e), w)
    | None =>
        if str_in agg aggregates then
          match getitem df g with
          | Raise e => (Raise e, w)
          | Ret by_ =>
              match getitem_grouped df t with
              | Raise e => (Raise e, w)
              | Ret target =>
                  bind (aggregate B agg by_ target
                          (group_keys (map snd (values by_))))
                       (fun l => ret (VGroups t l)) w
              end
          end
        else
          (Ret (VStr "❌ Unsupported agg. Use mean,sum,min,max,count,median,std,var"),
           w)
    end.
Proof.
  rewrite dispatch_groupby, validate_run. cbv zeta.
  destruct (first_missing _ _); [reflexivity|].
  destruct (str_in agg aggregates); [|reflexivity].
  change (negb true) with false. cbv iota.
  unfold groupby, bind, get_df, lift.
  destruct (getitem (self_df w) g) as [by_|e]; [|reflexivity].
  now destruct (getitem_grouped (self_df w) t) as [target|e].
Qed.

(** C5, as amended.  A command that parses to [groupby] needs exactly three
    arguments; both column names are validated, in their order: the first
    that is not empty and absent from the schema is named; with both names
    empty or in the schema, an aggregate outside mean, sum, min, max, count,
    median, std, var yields the text about it.  In all these cases nothing
    is aggregated.  With an aggregate of the list, an empty name that is
    not a column raises a key error.  With both names in the schema, the
    rows are grouped by the distinct present values of the grouping column,
    in increasing order, and, the methods of the backend leaving the table
    alone, the result pairs every key with the aggregate of the target
    column over the rows of its group; when the aggregate of a group
    raises, the first to do so in key order, [run] raises that exception.
    On the table (eng,100), (eng,200), (sales,50), [groupby(department,
    mean, salary)] yields eng: 150, sales: 50. *)
Theorem C5_groupby (B : backend) (command : str) (w : world (result B))
        (args : list str) :
  parsed B command = Some ("groupby" : str, args) ->
  let df := self_df w in
  let names := col_names df in
  (List.length args <> 3%nat ->
   run B command w
   = (Ret (VStr "❌ groupby(group_col, agg, target_col) required"), w)) /\
  (forall g agg t, args = [g; agg; t] ->
     (g <> [] -> ~ In g names ->
      run B command w = (Ret (VStr ("❌ Column '" ++ g ++ "' not found.")), w)) /\
     (passes names g -> t <> [] -> ~ In t names ->
      run B command w = (Ret (VStr ("❌ Column '" ++ t ++ "' not found.")), w)) /\
     (passes names g -> passes names t -> ~ In agg aggregates ->
      run B command w
      = (Ret (VStr "❌ Unsupported agg. Use mean,sum,min,max,count,median,std,var"),
         w)) /\
     (In agg aggregates -> g = [] -> ~ In g names -> passes names t ->
      run B command w = (Raise (KeyError []), w)) /\
     (In agg aggregates -> In g names -> t = [] -> ~ In t names ->
      run B command w = (Raise (KeyError "Column not found: "), w)) /\
     (In agg aggregates ->
      forall i j dg dt,
        find_column g (columns df) 0 = Some (i, dg) ->
        find_column t (columns df) 0 = Some (j, dt) ->
        let keys := group_keys (map (entry i) (rows df)) in
        let group k :=
          {| name := t; dtype_of := dt;
             values := map (fun r => (label r, entry j r))
                           (filter (fun r => same_key k (entry i r))
                                   (rows df)) |} in
        (forall k, In k keys -> In k (map (entry i) (rows df)) /\ present k) /\
        (forall r, In r (rows df) -> present (entry i r) ->
           exists k, In k keys /\ same_key k (entry i r) = true) /\
        StronglySorted key_lt keys /\
        (harmless B ->
         (forall l,
            Forall2 (fun k p => fst p = k /\
                                fst (group_op B agg (group k) df) = Ret (snd p))
                    keys l ->
            run B command w = (Ret (VGroups t l), w)) /\
         (forall before k after e,
            keys = before ++ k :: after ->
            (forall k', In k' before ->
               exists x, fst (group_op B agg (group k') df) = Ret x) ->
            fst (group_op B agg (group k) df) = Raise e ->
            run B command w = (Raise e, w))))) /\
  run Demo.pandas "groupby(department, mean, salary)" Demo.start
  = (Ret (VGroups "salary"
            [ (CStr "eng", Demo.Scalar (CFloat (f64_of_Z 150)));
              (CStr "sales", Demo.Scalar (CFloat (f64_of_Z 50))) ]),
     Demo.start).
Proof.
  intros Hp df names. rewrite (run_parsed B _ _ _ Hp).
  split; [|split; [|reflexivity]].
  { intros Hlen. rewrite dispatch_groupby.
    destruct args as [|a [|b [|c [|x rest]]]]; simpl in Hlen;
      solve [reflexivity | contradiction]. }
  intros g agg t ->. rewrite groupby_run. fold df. subst names. cbv zeta.
  split.
  { intros Hg Hin.
    pose proof (first_missing_found (col_names df) [] [t] g (Forall_nil _) Hg Hin) as E.
    simpl app in E. now rewrite E. }
  split.
  { intros Hg Ht Hin.
    pose proof (first_missing_found (col_names df) [g] [] t
                  (Forall_cons _ Hg (Forall_nil _)) Ht Hin) as E.
    simpl app in E. now rewrite E. }
  assert (Hpass : passes (col_names df) g -> passes (col_names df) t ->
                  first_missing (col_names df) [g; t] = None).
  { intros Hg Ht. apply first_missing_passes.
    constructor; [assumption | constructor; [assumption | constructor]]. }
  split.
  { intros Hg Ht Ha. apply str_in_not_In in Ha. now rewrite (Hpass Hg Ht), Ha. }
  split.
  { intros Ha -> Hin Ht. apply str_in_In in Ha.
    rewrite (Hpass (or_introl eq_refl) Ht), Ha.
    now rewrite (getitem_absent df [] Hin). }
  split.
  { intros Ha Hg -> Hin. apply str_in_In in Ha.
    rewrite (Hpass (or_intror Hg) (or_introl eq_refl)), Ha.
    destruct (getitem_In df g Hg) as [by_ ->].
    unfold getitem_grouped. now rewrite (getitem_absent df [] Hin). }
  intros Ha i j dg dt Hi Hj.
  assert (Hg : In g (col_names df)) by now apply (find_column_Some _ _ _ _ _ Hi).
  assert (Ht : In t (col_names df)) by now apply (find_column_Some _ _ _ _ _ Hj).
  apply str_in_In in Ha. rewrite (Hpass (or_intror Hg) (or_intror Ht)), Ha.
  pose proof (getitem_found _ _ _ _ Hi) as Eg.
  pose proof (getitem_found _ _ _ _ Hj) as Et.
  unfold getitem_grouped. rewrite Eg, Et.
  set (by_ := {| name := g; dtype_of := dg;
                 values := map (fun r => (label r, entry i r)) (rows df) |})
    in *.
  set (target := {| name := t; dtype_of := dt;
                    values := map (fun r => (label r, entry j r)) (rows df) |})
    in *.
  assert (Hk : map snd (values by_) = map (entry i) (rows df)).
  { simpl. now rewrite map_map. }
  rewrite Hk.
  assert (Hgroup : forall k,
             group_of k by_ target
             = {| name := t; dtype_of := dt;
                  values := map (fun r => (label r, entry j r))
                                (filter (fun r => same_key k (entry i r))
                                        (rows df)) |}).
  { intros k. unfold group_of at 1. f_equal.
    apply (group_of_rows df g t i j dg dt by_ target k Hi Hj Eg Et). }
  destruct (group_keys_spec (map (entry i) (rows df))) as (K1 & K2 & K3).
  split; [exact K1|]. split.
  { intros r Hr Hpr.
    destruct (K2 (entry i r) (in_map _ _ _ Hr) Hpr) as (k & Hin & He).
    exists k. split; [assumption|]. unfold same_key.
    unfold present in Hpr. now rewrite Hpr, He. }
  split; [exact K3|].
  intros HB. split.
  - intros l Hl. unfold bind.
    rewrite (aggregate_Ret B HB agg by_ target _ l w); [reflexivity|].
    eapply Forall2_impl; [|exact Hl]. intros k p. simpl.
    now rewrite Hgroup.
  - intros before k after e -> Hb He. unfold bind.
    rewrite (aggregate_Raise B HB agg by_ target before after k e w);
      [reflexivity | | now rewrite Hgroup].
    intros k' Hk'. rewrite Hgroup. now apply Hb.
Qed.

Lemma C5_groupby_witness :
  run Demo.pandas "groupby(department, sum, salary)" Demo.start
  = (Ret (VGroups "salary"
            [ (CStr "eng", Demo.Scalar (CInt 300));
              (CStr "sales", Demo.Scalar (CInt 50)) ]),
     Demo.start).
Proof.
  destruct (C5_groupby Demo.pandas "groupby(department, sum, salary)"
              Demo.start ["department" : str; "sum" : str; "salary" : str]
              eq_refl) as (_ & H & _).
  destruct (H _ _ _ eq_refl) as (_ & _ & _ & _ & _ & H6).
  destruct (H6 (or_intror (or_introl eq_refl)) 0%nat 1%nat Object Int64
               eq_refl eq_refl) as (_ & _ & _ & H7).
  destruct (H7 pandas_harmless) as [H8 _].
  apply H8. repeat constructor.
Defined.

(** C5, the claim as worded fails: with three arguments, two columns of
    the schema and an aggregate of the list, [run] may raise instead of
    returning the aggregates; here the mean of a text column. *)
Lemma C5_groupby_raises :
  In ("mean" : str) aggregates /\
  In ("salary" : str) (col_names Demo.staff) /\
  In ("department" : str) (col_names Demo.staff) /\
  run Demo.pandas "groupby(salary, mean, department)" Demo.start
  = (Raise TypeError, Demo.start).
Proof.
  split; [now left|]. split; [right; now left|]. split; [now left|].
  reflexivity.
Qed.

(** ** Failures and the session *)

Lemma lstrip_head (s : str) (a : char) (m : str) :
  lstrip s = a :: m -> is_space a = false.
Proof.
  induction s as [|c s IH]; simpl; [discriminate|].
  destruct (is_space c) eqn:E; [exact IH|]. now intros [= <- _].
Qed.

Lemma lstrip_suffix (s : str) : exists sp, s = sp ++ lstrip s.
Proof.
  induction s as [|c s [sp IH]]; simpl; [now exists []|].
  destruct (is_space c); [|now exists []].
  exists (c :: sp). simpl. now rewrite <- IH.
Qed.

Lemma strip_idempotent (s : str) : strip (strip s) = strip s.
Proof.
  apply strip_keep.
  - intros a m E. unfold strip, rstrip in E.
    destruct (lstrip_suffix (rev (lstrip s))) as [sp Hsp].
    apply (f_equal (@rev char)) in Hsp.
    rewrite rev_involutive, rev_app_distr, E in Hsp.
    simpl in Hsp. now apply lstrip_head in Hsp.
  - intros m b E. unfold strip, rstrip in E.
    apply (f_equal (@rev char)) in E.
    rewrite rev_involutive, rev_last in E. now apply lstrip_head in E.
Qed.

Lemma run_strip (B : backend) (command : str) :
  run B (strip command) = run B command.
Proof. unfold run. now rewrite strip_idempotent. Qed.

Lemma session_step (B : backend) (command : str) (rest : list str)
      (out : value (result B)) (w : world (result B)) :
  strip command <> [] -> run B command w = (Ret out, w) ->
  session B (command :: rest) w
  = let '(printed, e, w') := session B rest w in (out :: printed, e, w').
Proof.
  intros Hne Hrun. simpl. apply str_eqb_neq in Hne.
  now rewrite Hne, run_strip, Hrun.
Qed.

Lemma failure_run (B : backend) (func : str) (args : list str) (msg : str)
      (w : world (result B)) :
  failure B (col_names (self_df w)) func args msg ->
  dispatch B func args w = (Ret (VStr msg), w) /\ flagged msg = true.
Proof.
  intros H. destruct H.
  - split; [now apply dispatch_unknown | reflexivity].
  - split; [|reflexivity].
    rewrite dispatch_single by assumption. now apply one_column_usage.
  - split; [|reflexivity]. rewrite dispatch_groupby.
    destruct args as [|a [|b [|c [|x rest]]]]; simpl in *;
      solve [reflexivity | contradiction].
  - split; [|reflexivity]. rewrite dispatch_filter.
    destruct args as [|a [|b [|c [|x rest]]]]; simpl in *;
      solve [reflexivity | contradiction].
  - split; [|reflexivity]. rewrite dispatch_plot. now apply one_column_usage.
  - split; [|reflexivity]. rewrite dispatch_hist. now apply one_column_usage.
  - split; [|reflexivity]. rewrite dispatch_scatter.
    destruct args as [|a [|b [|c rest]]]; simpl in *;
      solve [reflexivity | contradiction].
  - split; [|reflexivity]. rewrite dispatch_box. now apply one_column_usage.
  - split; [|reflexivity].
    apply (dispatch_missing B func args (before ++ c :: after));
      [assumption|].
    now apply first_missing_found.
  - split; [|reflexivity]. rewrite groupby_run. cbv zeta.
    rewrite (first_missing_passes _ [g; t])
      by (constructor; [assumption | constructor; [assumption | constructor]]).
    match goal with H : ~ In _ _ |- _ => apply str_in_not_In in H; now rewrite H end.
  - split; [|reflexivity]. rewrite filter_run. cbv zeta.
    match goal with H : In col _ |- _ =>
      rewrite (first_missing_none _ [col])
        by (constructor; [exact H | constructor]);
      destruct (getitem_In _ _ H) as [s ->]
    end.
    destruct (parse_op op) eqn:E; [|reflexivity].
    exfalso. match goal with H : ~ In op _ |- _ => apply H end.
    apply parse_op_operators. congruence.
  - split; [|reflexivity]. rewrite dispatch_head, head_or_tail_run.
    match goal with H : py_int _ _ = None |- _ => now rewrite H end.
  - split; [|reflexivity]. rewrite dispatch_tail, head_or_tail_run.
    match goal with H : py_int _ _ = None |- _ => now rewrite H end.
Qed.

Lemma forwarded_run (B : backend) (name : str) (f : frame_fn) :
  In (name, f) forwarded -> run B (call name []) = forward B f.
Proof.
  unfold forwarded. simpl. intros H.
  repeat destruct H as [[= <- <-]|H]; try contradiction; reflexivity.
Qed.

(** C1, as amended.  Each recognized failure mode (empty command, command
    outside the grammar, unknown function, wrong argument count, missing
    column, unsupported aggregate or operator, count that is not an integer)
    is returned by [run] as its descriptive text, which opens with the
    cross mark, the table and the display untouched, and the interactive
    session goes on with the next line.  An exception raised by a method
    that [run] forwards to is not caught: [run] raises it to its caller. *)
Theorem C1_recognized_failures (B : backend) (command : str)
        (w : world (result B)) (msg : str) :
  recognized B (col_names (self_df w)) command msg ->
  (run B command w = (Ret (VStr msg), w) /\
   flagged msg = true /\
   (forall rest, strip command <> [] ->
      session B (command :: rest) w
      = let '(printed, e, w') := session B rest w in
        (VStr msg :: printed, e, w'))) /\
  (forall name f e,
     In (name, f) forwarded -> fst (frame_op B f (self_df w)) = Raise e ->
     fst (run B (call name []) w) = Raise e).
Proof.
  intros H. split.
  - assert (Hrun : run B command w = (Ret (VStr msg), w)
                   /\ flagged msg = true).
    { destruct H as [He | Hne Hh Hm | func args msg Hp Hf].
      - unfold run. now rewrite He.
      - unfold run. apply str_eqb_neq in Hne, Hh. now rewrite Hne, Hh, Hm.
      - rewrite (run_parsed B _ _ _ Hp). now apply failure_run. }
    destruct Hrun as [Hrun Hflag]. split; [assumption|]. split; [assumption|].
    intros rest Hne. now apply session_step.
  - intros name f e Hin He. rewrite (forwarded_run B name f Hin).
    unfold forward, bind, invoke.
    destruct (frame_op B f (self_df w)) as [r df]. simpl in He. now subst r.
Qed.

Lemma C1_recognized_failures_witness :
  run Demo.pandas "tail(x)" Demo.start
  = (Ret (VStr "❌ tail(n) expects integer n"), Demo.start).
Proof.
  apply (C1_recognized_failures Demo.pandas "tail(x)" Demo.start).
  apply (failed_command _ _ _ "tail" ["x" : str]); [reflexivity|].
  apply count_not_integer_tail. reflexivity.
Defined.

(** C1, the claim as worded fails: [run] raises to its caller, and the
    session ends, when a method it forwards to raises; here the ordering
    of a numeric column against a text, and the lookup of the empty column
    name that the validator passed over. *)
Lemma C1_run_raises :
  run Demo.pandas "filter(salary, >, abc)" Demo.start
  = (Raise TypeError, Demo.start) /\
  run Demo.pandas "filter(, ==, 1)" Demo.start
  = (Raise (KeyError []), Demo.start) /\
  session Demo.pandas ["filter(salary, >, abc)" : str; "shape" : str]
          Demo.start
  = ([], Some TypeError, Demo.start).
Proof. repeat split. Qed.

(** * Further properties of the code *)

(** ** Whitespace around a command *)

Lemma lstrip_blank (sp s : str) : blank sp -> lstrip (sp ++ s) = lstrip s.
Proof.
  unfold blank. induction sp as [|c sp IH]; simpl; [reflexivity|].
  intros H. apply andb_true_iff in H as [Hc H]. rewrite Hc. now apply IH.
Qed.

Lemma lstrip_nil (s : str) : lstrip s = [] -> blank s.
Proof.
  unfold blank. induction s as [|c s IH]; simpl; [reflexivity|].
  destruct (is_space c); [exact IH | discriminate].
Qed.

Lemma lstrip_app (s t : str) : lstrip s <> [] -> lstrip (s ++ t) = lstrip s ++ t.
Proof.
  induction s as [|c s IH]; simpl; [congruence|].
  destruct (is_space c); [exact IH | reflexivity].
Qed.

Lemma blank_rev (s : str) : blank s -> blank (rev s).
Proof.
  unfold blank. rewrite !forallb_forall. intros H c Hc.
  apply H. now apply in_rev.
Qed.

Lemma rstrip_blank (s sp : str) : blank sp -> rstrip (s ++ sp) = rstrip s.
Proof.
  intros H. unfold rstrip. rewrite rev_app_distr.
  now rewrite (lstrip_blank _ _ (blank_rev _ H)).
Qed.

Lemma strip_nil (s : str) : strip s = [] -> blank s.
Proof.
  unfold strip, rstrip. intros H.
  apply (f_equal (@rev char)) in H. rewrite rev_involutive in H. simpl in H.
  apply lstrip_nil, blank_rev in H. rewrite rev_involutive in H.
  destruct (lstrip s) as [|a m] eqn:E; [now apply lstrip_nil|].
  apply lstrip_head in E. unfold blank in H. simpl in H.
  rewrite E in H. discriminate H.
Qed.

Lemma strip_padded (sp1 s sp2 : str) :
  blank sp1 -> blank sp2 -> strip (sp1 ++ s ++ sp2) = strip s.
Proof.
  intros H1 H2. unfold strip. rewrite (lstrip_blank _ _ H1).
  destruct (lstrip s) as [|a m] eqn:E.
  - apply lstrip_nil in E. rewrite (lstrip_blank _ _ E).
    assert (E2 : lstrip sp2 = []).
    { unfold blank in H2. clear -H2.
      induction sp2 as [|c sp IH]; simpl in *; [reflexivity|].
      apply andb_true_iff in H2 as [Hc H]. rewrite Hc. now apply IH. }
    now rewrite E2.
  - rewrite lstrip_app by congruence. rewrite E. now apply rstrip_blank.
Qed.

(** X1.  Whitespace around a command does not matter: a command padded with
    any whitespace on both sides has the outcome of the command itself, on
    every world. *)
Theorem X1_run_ignores_padding (B : backend) (sp1 sp2 command : str) :
  blank sp1 -> blank sp2 ->
  run B (sp1 ++ command ++ sp2) = run B command.
Proof.
  intros H1 H2. unfold run. now rewrite (strip_padded _ _ _ H1 H2).
Qed.

Lemma X1_run_ignores_padding_witness :
  run Demo.pandas ([160%N; 32%N] ++ "shape" ++ [12288%N])
  = run Demo.pandas "shape".
Proof.
  apply (X1_run_ignores_padding Demo.pandas [160%N; 32%N] [12288%N] "shape");
    reflexivity.
Defined.

(** ** The grammar, both ways *)

Lemma newline_is_space (c : char) : is_newline c = true -> is_space c = true.
Proof.
  unfold is_newline. intros H. apply N.eqb_eq in H. now subst.
Qed.

Lemma strip_last (s m : str) (b : char) :
  strip s = m ++ [b] -> is_space b = false.
Proof.
  unfold strip, rstrip. intros E.
  apply (f_equal (@rev char)) in E.
  rewrite rev_involutive, rev_last in E. now apply lstrip_head in E.
Qed.

Lemma chomp_strip (s : str) : chomp (strip s) = strip s.
Proof.
  apply chomp_keep. intros m b E. apply strip_last in E.
  destruct (is_newline b) eqn:H; [|reflexivity].
  apply newline_is_space in H. congruence.
Qed.

Lemma span_word_spec (U : unicode) (s w r : str) :
  span_word U s = (w, r) ->
  s = w ++ r /\ forallb (is_word U) w = true /\
  match r with c :: _ => is_word U c = false | [] => True end.
Proof.
  revert w r. induction s as [|c s IH]; simpl; intros w r.
  - intros [= <- <-]. now repeat split.
  - destruct (is_word U c) eqn:E.
    + destruct (span_word U s) as [w' r']. intros [= <- <-].
      destruct (IH w' r' eq_refl) as (-> & Hw & Hr).
      repeat split; [simpl; now rewrite E | assumption].
    + intros [= <- <-]. repeat split. exact E.
Qed.

Lemma re_match_inv (U : unicode) (c func : str) (grp : option str) :
  re_match U c = Some (func, grp) ->
  identifier U func /\
  match grp with
  | None => chomp c = func
  | Some body => one_line body /\ chomp c = call func body
  end.
Proof.
  unfold re_match. destruct (span_word U (chomp c)) as [w r] eqn:E.
  apply span_word_spec in E as (E & Hw & Hr).
  destruct w as [|a w]; [discriminate|].
  destruct r as [|x tl].
  - intros [= <- <-]. split; [split; [discriminate | assumption]|].
    now rewrite E, app_nil_r.
  - destruct (N.eqb x (chr "(")) eqn:Ex; [|discriminate].
    apply N.eqb_eq in Ex. subst x.
    destruct (rev tl) as [|d rbody] eqn:Et; [discriminate|].
    destruct (N.eqb d (chr ")")) eqn:Ed; [|discriminate].
    apply N.eqb_eq in Ed. subst d. simpl andb.
    destruct (forallb _ rbody) eqn:Hb; [|discriminate].
    intros [= <- <-]. split; [split; [discriminate | assumption]|].
    assert (Htl : tl = rev rbody ++ [chr ")"]).
    { rewrite <- (rev_involutive tl), Et. reflexivity. }
    split.
    + unfold one_line. rewrite forallb_forall in *. intros y Hy.
      apply Hb. now apply in_rev.
    + rewrite E, Htl. reflexivity.
Qed.

(** X2.  The grammar of [run] accepts exactly two shapes.  The pattern
    matches a stripped command, with the function name [func], if and only
    if [func] is a non-empty text of word characters and the command is
    either [func] alone (no argument group) or [func], an opening
    parenthesis, a text without newline (the argument group, which may
    itself hold parentheses) and a closing parenthesis. *)
Theorem X2_grammar (U : unicode) (command func : str) (grp : option str) :
  re_match U (strip command) = Some (func, grp) <->
  identifier U func /\
  match grp with
  | None => strip command = func
  | Some body => one_line body /\ strip command = call func body
  end.
Proof.
  split.
  - intros H. apply re_match_inv in H. now rewrite chomp_strip in H.
  - intros [Hi H]. destruct grp as [body|].
    + destruct H as [Hb ->]. now apply re_match_call.
    + rewrite H. now apply re_match_identifier.
Qed.

(** ** Arguments *)

Lemma split_nonempty (sep : char) (s : str) : split sep s <> [].
Proof.
  destruct s as [|c s]; simpl; [discriminate|].
  destruct (N.eqb c sep); [discriminate|].
  destruct (split sep s); discriminate.
Qed.

Lemma split_pieces (sep : char) (s p : str) :
  In p (split sep s) -> ~ In sep p /\ (forall c, In c p -> In c s).
Proof.
  revert p. induction s as [|c s IH]; simpl; intros p.
  - intros [<-|[]]. split; [tauto | trivial].
  - destruct (N.eqb c sep) eqn:E.
    + intros [<-|H]; [split; [tauto | intros ? []]|].
      destruct (IH p H) as [H1 H2]. split; [assumption | auto].
    + destruct (split sep s) as [|q qs] eqn:Es.
      * intros [<-|[]]. split.
        -- intros [->|[]]. now rewrite N.eqb_refl in E.
        -- intros x [->|[]]. now left.
      * intros [<-|H].
        -- destruct (IH q (or_introl eq_refl)) as [H1 H2]. split.
           ++ intros [->|Hin]; [now rewrite N.eqb_refl in E | tauto].
           ++ intros x [->|Hx]; [now left | right; auto].
        -- destruct (IH p (or_intror H)) as [H1 H2]. split; [assumption | auto].
Qed.

Lemma split_whole (sep : char) (s : str) :
  ~ In sep s -> split sep s = [s].
Proof.
  induction s as [|c s IH]; simpl; [reflexivity|]. intros H.
  destruct (N.eqb c sep) eqn:E.
  - apply N.eqb_eq in E. tauto.
  - rewrite IH by tauto. reflexivity.
Qed.

Lemma split_one (sep : char) (s p : str) : split sep s = [p] -> p = s.
Proof.
  revert p. induction s as [|c s IH]; simpl; intros p.
  - now intros [= <-].
  - destruct (N.eqb c sep).
    + intros [= _ H]. now apply split_nonempty in H.
    + destruct (split sep s) as [|q qs] eqn:Es;
        [now apply split_nonempty in Es|].
      intros [= <- ->]. now rewrite (IH q eq_refl).
Qed.

Lemma split_app (sep : char) (p s : str) :
  ~ In sep p -> split sep (p ++ sep :: s) = p :: split sep s.
Proof.
  induction p as [|c p IH]; simpl; intros H.
  - now rewrite N.eqb_refl.
  - destruct (N.eqb c sep) eqn:E.
    + apply N.eqb_eq in E. tauto.
    + rewrite IH by tauto. reflexivity.
Qed.

Lemma split_join (pieces : list str) :
  pieces <> [] -> Forall (fun p => ~ In comma p) pieces ->
  split comma (join pieces) = pieces.
Proof.
  intros Hne H. revert Hne.
  induction H as [|p rest Hp Hrest IH]; intros Hne; [now destruct Hne|].
  destruct rest as [|q rest].
  - simpl. now apply split_whole.
  - change (join (p :: q :: rest)) with (p ++ comma :: join (q :: rest)).
    rewrite split_app by assumption. rewrite IH by discriminate. reflexivity.
Qed.

Lemma lstrip_incl (s : str) (c : char) : In c (lstrip s) -> In c s.
Proof.
  destruct (lstrip_suffix s) as [sp E]. intros H. rewrite E.
  apply in_or_app. now right.
Qed.

Lemma strip_incl (s : str) (c : char) : In c (strip s) -> In c s.
Proof.
  unfold strip, rstrip. intros H.
  apply in_rev, lstrip_incl in H. apply in_rev in H.
  now apply lstrip_incl.
Qed.

Lemma strip_piece (p : str) : piece p -> trimmed (strip p).
Proof.
  intros [Hc Hl]. split; [apply strip_idempotent|]. split.
  - intros H. apply Hc. now apply strip_incl.
  - unfold one_line in *. rewrite forallb_forall in *.
    intros x Hx. apply Hl. now apply strip_incl.
Qed.

Lemma one_line_pieces (body p : str) :
  one_line body -> In p (split comma body) -> piece p.
Proof.
  intros Hb Hp. destruct (split_pieces _ _ _ Hp) as [H1 H2].
  split; [assumption|]. unfold one_line in *. rewrite forallb_forall in *.
  intros x Hx. apply Hb. now apply H2.
Qed.

Lemma parse_args_trimmed (body : str) :
  one_line body ->
  Forall trimmed (parse_args (Some body)) /\ parse_args (Some body) <> [[]].
Proof.
  intros Hb. unfold parse_args.
  destruct (str_eqb (strip body) []) eqn:E; [split; [constructor | discriminate]|].
  apply str_eqb_neq in E. split.
  - apply Forall_forall. intros a Ha. apply in_map_iff in Ha as (p & <- & Hp).
    apply strip_piece. now apply (one_line_pieces body).
  - intros H. fold comma in H.
    destruct (split comma body) as [|p [|q ps]] eqn:Es;
      simpl in H; try discriminate H.
    apply split_one in Es. subst p. congruence.
Qed.

Lemma parsed_well_formed (U : unicode) (command func : str) (args : list str) :
  parsed U command = Some (func, args) ->
  identifier U func /\ Forall trimmed args /\ args <> [[]].
Proof.
  unfold parsed.
  destruct (str_eqb (strip command) []); [discriminate|].
  destruct (str_eqb (strip command) "help"); [discriminate|].
  destruct (re_match U (strip command)) as [[f grp]|] eqn:E; [|discriminate].
  intros [= <- <-]. apply re_match_inv in E as [Hi Hg].
  split; [assumption|].
  destruct grp as [body|]; [|split; [constructor | discriminate]].
  destruct Hg as [Hb _]. now apply parse_args_trimmed.
Qed.

(** X4.  What [dispatch] receives is well-formed: the function name of a
    parsed U command is a non-empty text of word characters; every argument
    is stripped and holds neither a comma nor a newline; and the argument
    list is never the single empty argument, so a command with one argument
    always has a non-empty one. *)
Theorem X4_parsed_arguments (U : unicode) (command func : str) (args : list str) :
  parsed U command = Some (func, args) ->
  identifier U func /\ Forall trimmed args /\ args <> [[]] /\
  (forall a, args = [a] -> a <> []).
Proof.
  intros H. destruct (parsed_well_formed U _ _ _ H) as (H0 & H1 & H2).
  repeat split; try assumption.
  - now destruct H0.
  - now destruct H0.
  - intros a -> ->. now apply H2.
Qed.

Lemma X4_parsed_arguments_witness :
  identifier Demo.ucd "mean" /\ Forall trimmed ["age" : str]
  /\ ["age" : str] <> [[]] /\ (forall a, ["age" : str] = [a] -> a <> []).
Proof.
  exact (X4_parsed_arguments Demo.ucd " mean( age )" "mean" ["age" : str] eq_refl).
Defined.

Lemma char_in_false (c : char) (s : str) : char_in c s = false -> ~ In c s.
Proof.
  unfold char_in. intros H Hin.
  assert (E : existsb (N.eqb c) s = true).
  { apply existsb_exists. exists c. split; [assumption | apply N.eqb_refl]. }
  congruence.
Qed.

Lemma piece_check (p : str) :
  char_in comma p = false -> char_in newline p = false -> piece p.
Proof.
  intros Hc Hn. split; [now apply char_in_false|].
  apply forallb_forall. intros x Hx. unfold is_newline.
  destruct (N.eqb x newline) eqn:E; [|reflexivity].
  apply N.eqb_eq in E. subst x. now apply char_in_false in Hn.
Qed.

Lemma parsed_join (U : unicode) (func : str) (pieces : list str) :
  identifier U func -> func <> "help" -> Forall piece pieces ->
  (strip (join pieces) <> [] ->
   parsed U (call func (join pieces)) = Some (func, map strip pieces)) /\
  (strip (join pieces) = [] ->
   parsed U (call func (join pieces)) = Some (func, [])) /\
  (pieces = [] -> parsed U func = Some (func, [])).
Proof.
  intros Hi Hh Hp.
  assert (Hl : one_line (join pieces)).
  { clear -Hp. induction Hp as [|p rest [_ Hp] _ IH]; [reflexivity|].
    destruct rest as [|q rest]; [exact Hp|].
    change (join (p :: q :: rest)) with (p ++ comma :: join (q :: rest)).
    unfold one_line in *. rewrite forallb_app, Hp.
    change (forallb (fun x => negb (is_newline x)) (join (q :: rest)) = true).
    exact IH. }
  rewrite (parsed_call U _ _ Hi Hl). unfold parse_args.
  split; [|split].
  - intros Hne. apply str_eqb_neq in Hne. rewrite Hne.
    rewrite split_join; [reflexivity | |].
    + intros ->. apply str_eqb_neq in Hne. now apply Hne.
    + apply Forall_forall. intros p Hin. rewrite Forall_forall in Hp.
      now destruct (Hp p Hin).
  - intros ->. reflexivity.
  - intros _. now apply parsed_identifier.
Qed.

(** X3.  Building and parsing a command are inverse to each other, up to
    the trimming of the arguments: for a function name of word characters
    and pieces free of commas and newlines, the command made of the name
    and the pieces joined by commas parses to that name and to the stripped
    pieces, provided the joined text is not blank; when it is blank, the
    command parses to the name with no argument. *)
Theorem X3_build_then_parse (U : unicode) (func : str) (pieces : list str) :
  identifier U func -> func <> "help" -> Forall piece pieces ->
  (strip (join pieces) <> [] ->
   parsed U (call func (join pieces)) = Some (func, map strip pieces)) /\
  (strip (join pieces) = [] ->
   parsed U (call func (join pieces)) = Some (func, [])) /\
  (pieces = [] -> parsed U func = Some (func, [])).
Proof. apply parsed_join. Qed.

Lemma X3_build_then_parse_witness :
  parsed Demo.ucd (call "filter" (join ["salary" : str; " > " : str; "75 " : str]))
  = Some ("filter" : str, ["salary" : str; ">" : str; "75" : str]).
Proof.
  apply (X3_build_then_parse Demo.ucd "filter"
           ["salary" : str; " > " : str; "75 " : str]).
  - split; [discriminate | reflexivity].
  - discriminate.
  - repeat (apply Forall_cons; [apply piece_check; reflexivity|]).
    apply Forall_nil.
  - discriminate.
Defined.

(** ** The validator *)

Lemma first_missing_None (names cols : list str) :
  first_missing names cols = None <->
  Forall (fun c => c = [] \/ In c names) cols.
Proof.
  induction cols as [|c cols IH]; simpl; [split; [constructor | reflexivity]|].
  destruct (str_eqb c []) eqn:E0; simpl.
  - apply str_eqb_eq in E0. rewrite IH. split.
    + intros H. constructor; [now left | assumption].
    + now inversion 1.
  - apply str_eqb_neq in E0. destruct (str_in c names) eqn:E1; simpl.
    + apply str_in_In in E1. rewrite IH. split.
      * intros H. constructor; [now right | assumption].
      * now inversion 1.
    + apply str_in_not_In in E1. split; [discriminate|].
      inversion 1 as [|? ? [Hc|Hc] _]; subst; tauto.
Qed.

Lemma first_missing_Some (names cols : list str) (e : str) :
  first_missing names cols = Some e ->
  exists pre c post,
    cols = pre ++ c :: post /\
    Forall (fun p => p = [] \/ In p names) pre /\
    c <> [] /\ ~ In c names /\ e = column_not_found c.
Proof.
  induction cols as [|c cols IH]; simpl; [discriminate|].
  destruct (str_eqb c []) eqn:E0; simpl.
  - apply str_eqb_eq in E0. intros H.
    destruct (IH H) as (pre & x & post & -> & Hpre & Hx).
    exists (c :: pre), x, post. split; [reflexivity|].
    split; [constructor; [now left | assumption] | assumption].
  - apply str_eqb_neq in E0. destruct (str_in c names) eqn:E1; simpl.
    + apply str_in_In in E1. intros H.
      destruct (IH H) as (pre & x & post & -> & Hpre & Hx).
      exists (c :: pre), x, post. split; [reflexivity|].
      split; [constructor; [now right | assumption] | assumption].
    + apply str_in_not_In in E1. intros [= <-].
      exists [], c, cols. repeat split; try assumption. constructor.
Qed.

(** X5.  The validator reads the table and decides exactly this: it
    reports nothing if and only if every name is empty or a column of the
    table; otherwise it reports the first name that is neither, by the text
    that quotes it.  It never raises and changes nothing. *)
Theorem X5_validator (B : backend) (cols : list str) (w : world (result B)) :
  let names := col_names (self_df w) in
  exists r,
    _validate_columns B cols w = (Ret r, w) /\
    (r = None <-> Forall (fun c => c = [] \/ In c names) cols) /\
    (forall e, r = Some e ->
       exists pre c post,
         cols = pre ++ c :: post /\
         Forall (fun p => p = [] \/ In p names) pre /\
         c <> [] /\ ~ In c names /\
         e = "❌ Column '" ++ c ++ "' not found.").
Proof.
  intros names. exists (first_missing names cols).
  split; [reflexivity|]. split; [apply first_missing_None|].
  intros e He. now apply first_missing_Some.
Qed.

(** ** One-column commands *)

Lemma one_column_run (B : backend) (a usage : str)
      (k : str -> M B (value (result B))) (w : world (result B)) :
  one_column B [a] usage k w
  = match first_missing (col_names (self_df w)) [a] with
    | Some e => (Ret (VStr e), w)
    | None => k a w
    end.
Proof.
  unfold one_column. rewrite validate_run.
  now destruct (first_missing _ _).
Qed.

Lemma first_missing_one (names : list str) (a : str) :
  a <> [] -> first_missing names [a] = None -> In a names.
Proof.
  intros Ha H. apply first_missing_None in H.
  inversion H as [|? ? [Hc|Hc] _]; subst; tauto.
Qed.

(** X6.  A one-column statistic never fails on its column lookup.  For a
    command that parses to one of the twelve statistics, [run] either
    returns an error text (wrong argument count, or the column is missing)
    and leaves the world as it is, or the single argument is a column of
    the table and the outcome is the one of the statistic on that column:
    its value, a text when the statistic yields one, or the exception it
    raises; the table is as the statistic leaves it, the display as it
    was. *)
Theorem X6_statistic_outcomes (B : backend) (command func : str)
        (args : list str) (w : world (result B)) :
  parsed B command = Some (func, args) ->
  str_in func single_col_funcs = true ->
  (exists msg, run B command w = (Ret (VStr msg), w) /\ flagged msg = true) \/
  (exists a s,
     args = [a] /\ In a (col_names (self_df w)) /\
     getitem (self_df w) a = Ret s /\
     let out := series_op B func s (self_df w) in
     run B command w
     = (match fst out with
        | Ret x => Ret (match as_text B x with
                        | Some t => VStr t
                        | None => VObj x
                        end)
        | Raise e => Raise e
        end, {| self_df := snd out; screen := screen w |})).
Proof.
  intros Hp Hf. rewrite (run_parsed B _ _ _ Hp), (dispatch_single B _ _ Hf).
  destruct (parsed_well_formed B _ _ _ Hp) as (_ & _ & Hne).
  destruct args as [|a [|b rest]].
  - left. eexists. split; [reflexivity|reflexivity].
  - rewrite one_column_run.
    destruct (first_missing (col_names (self_df w)) [a]) as [e|] eqn:E.
    + left. exists e. split; [reflexivity|].
      now apply (flagged_first_missing _ _ _ E).
    + right. assert (Ha : a <> []) by (intros ->; now apply Hne).
      pose proof (first_missing_one _ _ Ha E) as Hin.
      destruct (getitem_In _ _ Hin) as [s Hs].
      exists a, s. repeat split; try assumption.
      unfold bind, get_df, lift, ret, invoke. rewrite Hs.
      now destruct (series_op B func s (self_df w)) as [[x|e] df'].
  - left. eexists. split; [reflexivity|reflexivity].
Qed.

Lemma X6_statistic_outcomes_witness :
  (exists msg, run Demo.pandas "max(department)" Demo.start
               = (Ret (VStr msg), Demo.start) /\ flagged msg = true) \/
  (exists a s,
     ["department" : str] = [a] /\ In a (col_names Demo.staff) /\
     getitem Demo.staff a = Ret s /\
     let out := series_op Demo.pandas "max" s Demo.staff in
     run Demo.pandas "max(department)" Demo.start
     = (match fst out with
        | Ret x => Ret (match as_text Demo.pandas x with
                        | Some t => VStr t
                        | None => VObj x
                        end)
        | Raise e => Raise e
        end, {| self_df := snd out; screen := [] |})).
Proof.
  exact (X6_statistic_outcomes Demo.pandas "max(department)" "max"
           ["department" : str] Demo.start eq_refl eq_refl).
Defined.

(** ** The empty column name *)



(** ** Equality filters *)

Lemma holds_ne (c : option comparison) : holds OpNe c = negb (holds OpEq c).
Proof. now destruct c as [[]|]. Qed.

Lemma compare_cell_eq_ne (c : cell) (v : scalar) :
  exists b, compare_cell OpEq c v = Some b /\
            compare_cell OpNe c v = Some (negb b).
Proof.
  unfold compare_cell.
  destruct (cell_f64 c) as [x|], v as [f|t]; cbv iota beta.
  - rewrite holds_ne. now eexists.
  - destruct (is_null c); now eexists.
  - now eexists.
  - destruct c; try (now eexists). rewrite holds_ne. now eexists.
Qed.

Lemma compare_cells_eq_ne (cs : list cell) (v : scalar) :
  exists m, compare_cells OpEq cs v = Some m /\
            compare_cells OpNe cs v = Some (map negb m).
Proof.
  induction cs as [|c cs (m & H1 & H2)]; simpl; [now exists []|].
  destruct (compare_cell_eq_ne c v) as (b & -> & ->).
  rewrite H1, H2. now eexists.
Qed.

Lemma compare_series_eq_ne (s : Series) (v : scalar) :
  exists m, compare_series OpEq s v = Ret m /\
            compare_series OpNe s v = Ret (map negb m).
Proof.
  unfold compare_series.
  destruct (compare_cells_eq_ne (map snd (values s)) v) as (m & H1 & H2).
  destruct v as [f|t].
  - rewrite H1, H2. now eexists.
  - destruct (is_numeric (dtype_of s)).
    + exists (map (fun _ => false) (map snd (values s))).
      split; [reflexivity|]. simpl. now rewrite !map_map.
    + rewrite H1, H2. now eexists.
Qed.

Lemma pick_negb {A} (f : A -> bool) (l : list A) :
  pick (map negb (map f l)) l = filter (fun x => negb (f x)) l.
Proof. rewrite map_map. apply pick_map. Qed.

(** X8.  [==] and [!=] never raise and split the table.  For a column of
    the schema and any value, the two filter commands both return a table
    with the schema of the loaded one; there is a test on rows such that
    the first holds exactly the rows that pass it and the second exactly
    those that fail it, each in table order, so that the two row counts add
    up to the row count of the table. *)
Theorem X8_equal_and_unequal (B : backend) (c_eq c_ne col value : str)
        (w : world (result B)) :
  let df := self_df w in
  parsed B c_eq = Some ("filter" : str, [col; "==" : str; value]) ->
  parsed B c_ne = Some ("filter" : str, [col; "!=" : str; value]) ->
  In col (col_names df) ->
  exists keep : row -> bool,
    run B c_eq w
    = (Ret (VFrame {| columns := columns df;
                      rows := filter keep (rows df) |}), w) /\
    run B c_ne w
    = (Ret (VFrame {| columns := columns df;
                      rows := filter (fun r => negb (keep r)) (rows df) |}),
       w) /\
    (List.length (filter keep (rows df))
     + List.length (filter (fun r => negb (keep r)) (rows df))
     = List.length (rows df))%nat.
Proof.
  intros df Heq Hne Hin.
  rewrite (run_parsed B _ _ _ Heq), (run_parsed B _ _ _ Hne), !filter_run.
  cbv zeta. fold df.
  rewrite (first_missing_none _ [col]) by (constructor; [assumption | constructor]).
  apply (find_column_In _ _ 0%nat) in Hin as (i & d & Hf).
  rewrite (getitem_found _ _ _ _ Hf).
  set (s := {| name := col; dtype_of := d;
               values := map (fun r => (label r, entry i r)) (rows df) |}).
  change (parse_op "==") with (Some OpEq).
  change (parse_op "!=") with (Some OpNe).
  destruct (compare_series_eq_ne s (coerce B s value)) as (m & H1 & H2).
  rewrite H1, H2.
  pose proof (compare_series_mask _ _ _ _ H1) as Hm. simpl in Hm.
  rewrite map_map in Hm. simpl in Hm.
  exists (fun r => satisfies OpEq d (coerce B s value) (entry i r)).
  subst m. unfold select. rewrite pick_map, pick_negb.
  repeat split. apply filter_length.
Qed.

Lemma X8_equal_and_unequal_witness :
  exists keep : row -> bool,
    run Demo.pandas "filter(department, ==, eng)" Demo.start
    = (Ret (VFrame {| columns := columns Demo.staff;
                      rows := filter keep (rows Demo.staff) |}), Demo.start) /\
    run Demo.pandas "filter(department, !=, eng)" Demo.start
    = (Ret (VFrame {| columns := columns Demo.staff;
                      rows := filter (fun r => negb (keep r))
                                     (rows Demo.staff) |}), Demo.start) /\
    (List.length (filter keep (rows Demo.staff))
     + List.length (filter (fun r => negb (keep r)) (rows Demo.staff))
     = List.length (rows Demo.staff))%nat.
Proof.
  apply (X8_equal_and_unequal Demo.pandas "filter(department, ==, eng)"
           "filter(department, !=, eng)" "department" "eng" Demo.start
           eq_refl eq_refl).
  apply str_in_In. reflexivity.
Defined.

(** ** [head] with [tail] *)

(** X9.  [head] and [tail] of opposite counts split the table.  When the
    count of a [head] command is an integer [n] other than 0 and the count
    of a [tail] command is [-n], the rows of the two results, in this order,
    are the rows of the table: for [n > 0] the first [n] and the rest, for
    [n < 0] all but the last [-n] and those.  For [n = 0] both results are
    empty. *)
Theorem X9_head_tail_split (B : backend) (c_head c_tail a b : str)
        (rest1 rest2 : list str) (n : Z) (w : world (result B)) :
  let df := self_df w in
  parsed B c_head = Some ("head" : str, a :: rest1) ->
  parsed B c_tail = Some ("tail" : str, b :: rest2) ->
  py_int B a = Some n -> py_int B b = Some (- n) ->
  run B c_head w = (Ret (VFrame (head df n)), w) /\
  run B c_tail w = (Ret (VFrame (tail df (- n))), w) /\
  (n <> 0 -> rows (head df n) ++ rows (tail df (- n)) = rows df) /\
  (n = 0 -> rows (head df n) = [] /\ rows (tail df (- n)) = []).
Proof.
  intros df Hh Ht Ha Hb.
  rewrite (run_parsed B _ _ _ Hh), (run_parsed B _ _ _ Ht).
  rewrite dispatch_head, dispatch_tail, !head_or_tail_run, Ha, Hb.
  split; [reflexivity|]. split; [reflexivity|]. split.
  - intros Hn. destruct (Z.lt_ge_cases n 0) as [Hneg|Hpos].
    + rewrite (head_neg df n Hneg), (tail_nonneg df (- n)) by lia.
      apply firstn_skipn.
    + rewrite (head_nonneg df n Hpos), (tail_neg df (- n)) by lia.
      rewrite Z.opp_involutive. apply firstn_skipn.
  - intros ->. split; [now rewrite head_nonneg|].
    rewrite (tail_nonneg df (- 0)) by lia. simpl.
    rewrite Nat.sub_0_r. now apply skipn_all2.
Qed.

Lemma X9_head_tail_split_witness :
  rows (head Demo.staff 2) ++ rows (tail Demo.staff (- 2)) = rows Demo.staff.
Proof.
  destruct (X9_head_tail_split Demo.pandas "head(2)" "tail(-2)" "2" "-2"
              [] [] 2 Demo.start eq_refl eq_refl eq_refl eq_refl)
    as (_ & _ & H & _).
  apply H. discriminate.
Defined.

(** ** Counts written in decimal *)

Lemma digit_cases (d : Z) :
  0 <= d <= 9 ->
  d = 0 \/ d = 1 \/ d = 2 \/ d = 3 \/ d = 4 \/ d = 5 \/ d = 6 \/ d = 7
  \/ d = 8 \/ d = 9.
Proof. lia. Qed.

Lemma digit_char_spec (d : Z) :
  0 <= d <= 9 ->
  is_digit (digit_char d) = true /\ digit_val (digit_char d) = d /\
  is_space (digit_char d) = false /\
  N.eqb (digit_char d) (chr "-") = false /\
  N.eqb (digit_char d) (chr "+") = false /\
  N.eqb (digit_char d) comma = false /\
  is_newline (digit_char d) = false /\
  is_cspace (digit_char d) = false /\
  (digit_char d <? 128)%N = true.
Proof.
  intros H. apply digit_cases in H.
  repeat destruct H as [->|H]; try subst d; now vm_compute.
Qed.

Lemma scan_digits_numeral (ds : list Z) (prev : bool) (acc : list Z) :
  Forall (fun d => 0 <= d <= 9) ds -> prev = true \/ ds <> [] ->
  scan_digits (numeral ds) prev acc = Some (rev acc ++ ds).
Proof.
  intros H. revert prev acc.
  induction H as [|d ds Hd _ IH]; intros prev acc Hp; simpl.
  - destruct Hp as [->|Hp]; [now rewrite app_nil_r | congruence].
  - destruct (digit_char_spec d Hd) as (H1 & H2 & _). rewrite H1, H2.
    rewrite IH by now left. simpl. now rewrite <- app_assoc.
Qed.

Lemma strip_no_space (s : str) :
  forallb (fun c => negb (is_space c)) s = true -> strip s = s.
Proof.
  intros H. rewrite forallb_forall in H. apply strip_keep.
  - intros a m ->. specialize (H a (or_introl eq_refl)).
    now destruct (is_space a).
  - intros m b ->. specialize (H b). rewrite in_app_iff in H.
    destruct (is_space b); [|reflexivity].
    discriminate H. right. now left.
Qed.

Lemma c_lstrip_keep (s : str) :
  forallb (fun c => negb (is_cspace c)) s = true -> c_lstrip s = s.
Proof.
  destruct s as [|c s]; simpl; [reflexivity|].
  now destruct (is_cspace c).
Qed.

Lemma c_strip_no_space (s : str) :
  forallb (fun c => negb (is_cspace c)) s = true -> c_strip s = s.
Proof.
  intros H. unfold c_strip. rewrite (c_lstrip_keep s H).
  rewrite c_lstrip_keep; [apply rev_involutive|].
  rewrite forallb_forall in *. intros c Hc. apply H. now apply in_rev.
Qed.

Lemma numeral_no_space (ds : list Z) :
  Forall (fun d => 0 <= d <= 9) ds ->
  forallb (fun c => negb (is_space c)) (numeral ds) = true.
Proof.
  induction 1 as [|d ds Hd _ IH]; simpl; [reflexivity|].
  destruct (digit_char_spec d Hd) as (_ & _ & H3 & _). now rewrite H3, IH.
Qed.

Lemma numeral_ascii (ds : list Z) :
  Forall (fun d => 0 <= d <= 9) ds ->
  forallb (fun c => negb (is_cspace c)) (numeral ds) = true /\
  forallb (fun c => (c <? 128)%N) (numeral ds) = true.
Proof.
  induction 1 as [|d ds Hd _ [IH1 IH2]]; simpl; [now split|].
  destruct (digit_char_spec d Hd) as (_ & _ & _ & _ & _ & _ & _ & H8 & H9).
  now rewrite H8, H9, IH1, IH2.
Qed.

Lemma numeral_piece (ds : list Z) :
  Forall (fun d => 0 <= d <= 9) ds -> piece (numeral ds).
Proof.
  intros H. split.
  - induction H as [|d ds Hd _ IH]; simpl; [tauto|].
    destruct (digit_char_spec d Hd) as (_ & _ & _ & _ & _ & H6 & _).
    intros [E|E]; [|tauto]. rewrite <- E, N.eqb_refl in H6.
    discriminate H6.
  - unfold one_line. induction H as [|d ds Hd _ IH]; simpl; [reflexivity|].
    destruct (digit_char_spec d Hd) as (_ & _ & _ & _ & _ & _ & H7 & _).
    now rewrite H7, IH.
Qed.

Lemma decimal_nonneg (ds : list Z) :
  Forall (fun d => 0 <= d <= 9) ds -> 0 <= decimal ds.
Proof.
  intros Hds. unfold decimal. assert (H : forall acc, 0 <= acc ->
    Forall (fun d => 0 <= d <= 9) ds ->
    0 <= fold_left (fun n d => 10 * n + d) ds acc).
  { clear Hds. induction ds as [|d ds IH]; cbn [fold_left]; intros acc Ha Hd;
      [assumption|].
    inversion Hd; subst. apply IH; [lia | assumption]. }
  apply H; [lia | assumption].
Qed.

Lemma py_int_numeral (U : unicode) (ds : list Z) :
  digits ds -> (List.length ds <= int_max_str_digits)%nat ->
  py_int U (numeral ds) = Some (decimal ds) /\
  py_int U (chr "-" :: numeral ds) = Some (- decimal ds).
Proof.
  intros [Hne Hd] Hlen.
  assert (Hlim : (int_max_str_digits <? List.length ds)%nat = false)
    by (apply Nat.ltb_ge; exact Hlen).
  pose proof (scan_digits_numeral ds false [] Hd (or_intror Hne)) as Hs.
  simpl in Hs. destruct (numeral_ascii ds Hd) as [Hc Ha]. split.
  - unfold py_int, to_ascii. rewrite Ha, (c_strip_no_space _ Hc).
    destruct ds as [|d ds]; [congruence|].
    inversion Hd as [|? ? Hd0 _]; subst.
    destruct (digit_char_spec d Hd0) as (_ & _ & _ & H4 & H5 & _).
    unfold split_sign. change (numeral (d :: ds))
      with (digit_char d :: numeral ds) in *.
    cbv iota beta. rewrite H4, H5, Hs, Hlim. reflexivity.
  - unfold py_int, to_ascii.
    change (forallb (fun c => (c <? 128)%N) (chr "-" :: numeral ds))
      with (forallb (fun c => (c <? 128)%N) (numeral ds)).
    rewrite Ha, c_strip_no_space.
    + unfold split_sign. cbv iota beta.
      rewrite N.eqb_refl, Hs, Hlim. reflexivity.
    + change (forallb (fun c => negb (is_cspace c)) (numeral ds) = true).
      exact Hc.
Qed.

(** X10.  A count written in decimal is read as its value.  For a
    non-empty list of at most 4300 decimal digits, [int] reads the numeral
    as the number the digits denote (leading zeros allowed) and the numeral
    after a minus sign as its opposite; the command [head] with the numeral
    as argument returns the first that many rows of the table. *)
Theorem X10_decimal_count (B : backend) (ds : list Z) (w : world (result B)) :
  digits ds -> (List.length ds <= int_max_str_digits)%nat ->
  let n := decimal ds in
  0 <= n /\
  py_int B (numeral ds) = Some n /\
  py_int B (chr "-" :: numeral ds) = Some (- n) /\
  run B (call "head" (numeral ds)) w = (Ret (VFrame (head (self_df w) n)), w) /\
  rows (head (self_df w) n) = firstn (Z.to_nat n) (rows (self_df w)).
Proof.
  intros Hd Hlen n. destruct (py_int_numeral B ds Hd Hlen) as [H1 H2].
  pose proof Hd as [Hne Hdig].
  assert (Hn : 0 <= n) by now apply decimal_nonneg.
  split; [assumption|]. split; [assumption|]. split; [assumption|].
  split; [|now apply head_nonneg].
  assert (Hs : strip (numeral ds) = numeral ds)
    by (apply strip_no_space; now apply numeral_no_space).
  assert (Hp : parsed B (call "head" (numeral ds))
               = Some ("head" : str, [numeral ds])).
  { destruct (parsed_join B "head" [numeral ds]) as [H _].
    - split; [discriminate | reflexivity].
    - discriminate.
    - constructor; [now apply numeral_piece | constructor].
    - simpl join in H. rewrite H; [simpl; now rewrite Hs|].
      rewrite Hs. destruct ds; [congruence | discriminate]. }
  rewrite (run_parsed B _ _ _ Hp), dispatch_head, head_or_tail_run.
  now rewrite H1.
Qed.

Lemma X10_decimal_count_witness :
  run Demo.pandas (call "head" (numeral [0; 2])) Demo.start
  = (Ret (VFrame (head Demo.staff 2)), Demo.start).
Proof.
  destruct (X10_decimal_count Demo.pandas [0; 2] Demo.start)
    as (_ & _ & _ & H & _).
  - split; [discriminate|].
    apply Forall_cons; [lia|]. apply Forall_cons; [lia|]. apply Forall_nil.
  - unfold int_max_str_digits. simpl. lia.
  - exact H.
Defined.

(** ** Arguments that are not looked at *)

Lemma dispatch_whole_table (B : backend) (func : str) (args1 args2 : list str) :
  In func whole_table -> dispatch B func args1 = dispatch B func args2.
Proof.
  unfold whole_table. simpl. intros H.
  repeat destruct H as [<-|H]; solve [reflexivity | contradiction].
Qed.

(** X11.  Some arguments are never looked at.  Two commands with the same
    function name have the same outcome, on every world, when the function
    works on the whole table (info, describe, shape, columns, dtypes,
    missing, corr, cov, heatmap), whatever their arguments; and when the
    function is [head] or [tail] and their first arguments, if any, are the
    same. *)
Theorem X11_ignored_arguments (B : backend) (c1 c2 func : str)
        (args1 args2 : list str) :
  parsed B c1 = Some (func, args1) -> parsed B c2 = Some (func, args2) ->
  (In func whole_table -> run B c1 = run B c2) /\
  (func = "head" \/ func = "tail" -> hd_error args1 = hd_error args2 ->
   run B c1 = run B c2).
Proof.
  intros H1 H2. rewrite (run_parsed B _ _ _ H1), (run_parsed B _ _ _ H2).
  split; [apply dispatch_whole_table|].
  intros Hf Hh.
  assert (E : forall slice msg,
             head_or_tail B slice msg args1 = head_or_tail B slice msg args2).
  { intros slice msg. unfold head_or_tail.
    destruct args1 as [|a r1], args2 as [|b r2]; simpl in Hh;
      try discriminate Hh; [reflexivity|]. now injection Hh as ->. }
  destruct Hf as [-> | ->];
    [rewrite !dispatch_head | rewrite !dispatch_tail]; apply E.
Qed.

Lemma X11_ignored_arguments_witness :
  run Demo.pandas "shape(1, 2)" = run Demo.pandas "shape".
Proof.
  destruct (X11_ignored_arguments Demo.pandas "shape(1, 2)" "shape" "shape"
              ["1" : str; "2" : str] [] eq_refl eq_refl) as [H _].
  apply H. apply str_in_In. reflexivity.
Defined.

(** ** The display *)

Section Display.

Variable B : backend.

Hypothesis HB : harmless B.

Lemma still_ret {A} (a : A) : still (B := B) (ret a).
Proof. intros w. reflexivity. Qed.

Lemma still_lift {A} (r : res A) : still (B := B) (lift r).
Proof. intros w. reflexivity. Qed.

Lemma still_get : still (get_df B).
Proof. intros w. reflexivity. Qed.

Lemma still_invoke {A} (m : method A) :
  (forall df, snd (m df) = df) -> still (B := B) (invoke m).
Proof. intros Hm w. now rewrite (invoke_run B m w (Hm _)). Qed.

Lemma still_bind {A C} (m : M B A) (k : A -> M B C) :
  still m -> (forall a, still (k a)) -> still (bind m k).
Proof.
  intros Hm Hk w. unfold bind. specialize (Hm w).
  destruct (m w) as [[a|e] w']; simpl in *; subst; [apply Hk | reflexivity].
Qed.

Lemma still_aggregate (agg : str) (by_ target : Series) (keys : list cell) :
  still (aggregate B agg by_ target keys).
Proof.
  induction keys as [|k keys IH]; simpl; [apply still_ret|].
  apply still_bind; [apply still_invoke; apply HB|]. intros x.
  apply still_bind; [exact IH|]. intros l. apply still_ret.
Qed.

Ltac still_step :=
  match goal with
  | |- still (bind _ _) => apply still_bind; [|intros ?]
  | |- still (ret _) => apply still_ret
  | |- still (lift _) => apply still_lift
  | |- still (get_df _) => apply still_get
  | |- still (invoke _) => apply still_invoke; apply HB
  | |- still (aggregate _ _ _ _ _) => apply still_aggregate
  | |- still (if ?b then _ else _) => destruct b
  | |- still (match ?x with _ => _ end) => destruct x
  end.

Lemma still_dispatch (func : str) (args : list str) :
  ~ In func chart_functions -> still (dispatch B func args).
Proof.
  intros Hno. unfold dispatch.
  repeat match goal with
         | |- still (if str_eqb func (text ?n) then _ else _) =>
             let E := fresh "E" in
             destruct (str_eqb func (text n)) eqn:E;
             [try solve [exfalso; apply str_eqb_eq in E; subst func;
                         apply Hno; apply str_in_In; reflexivity]|]
         | |- still (if str_in func single_col_funcs then _ else _) =>
             destruct (str_in func single_col_funcs)
         end;
    unfold head_or_tail, forward, one_column, _validate_columns, groupby;
    repeat still_step.
Qed.

Lemma show_run (c : chart (result B)) (w : world (result B)) :
  show B c w
  = match fst (draw B c (self_df w)) with
    | Ret _ => (Ret tt, {| self_df := self_df w; screen := screen w ++ [c] |})
    | Raise e => (Raise e, w)
    end.
Proof.
  unfold show. destruct HB as (_ & _ & _ & _ & Hd).
  specialize (Hd c (self_df w)).
  destruct (draw B c (self_df w)) as [[[]|e] df]; simpl in *; subst df;
    [reflexivity | now destruct w].
Qed.

Lemma still_tidy (m : M B (value (result B))) : still m -> tidy m.
Proof. intros H w. left. apply H. Qed.

Lemma tidy_bind {A} (m : M B A) (k : A -> M B (value (result B))) :
  still m -> (forall a, tidy (k a)) -> tidy (bind m k).
Proof.
  intros Hm Hk w. unfold bind. specialize (Hm w).
  destruct (m w) as [[a|e] w']; simpl in *; subst.
  - apply Hk.
  - now left.
Qed.

Lemma tidy_show (c : chart (result B)) (s : str) :
  confirmation s = true ->
  tidy (bind (show B c) (fun _ => ret (VStr s))).
Proof.
  intros H w. unfold bind. rewrite show_run.
  destruct (fst (draw B c (self_df w))).
  - right. exists c, s. now repeat split.
  - now left.
Qed.

Ltac tidy_step :=
  match goal with
  | |- tidy (bind (show _ _) _) => apply tidy_show; reflexivity
  | |- tidy (bind _ _) =>
      apply tidy_bind;
      [first [apply still_get | apply still_lift
             | apply still_invoke; apply HB
             | apply still_aggregate
             | unfold _validate_columns; repeat still_step]|intros ?]
  | |- tidy (ret _) => apply still_tidy, still_ret
  | |- tidy (if ?b then _ else _) => destruct b
  | |- tidy (match ?x with _ => _ end) => destruct x eqn:?
  end.

Lemma tidy_dispatch (func : str) (args : list str) :
  tidy (dispatch B func args).
Proof.
  unfold dispatch, head_or_tail, forward, one_column, groupby.
  repeat tidy_step.
Qed.

Lemma tidy_run (command : str) : tidy (run B command).
Proof.
  unfold run. repeat tidy_step. apply tidy_dispatch.
Qed.

Lemma confirmation_first_missing (names cols : list str) (e : str) :
  first_missing names cols = Some e -> confirmation e = false.
Proof.
  induction cols as [|c cols IH]; simpl; [discriminate|].
  destruct (_ && _); [|exact IH]. now intros [= <-].
Qed.

Lemma confirmed_ret_str (s : str) :
  confirmation s = false -> confirmed (B := B) (ret (VStr s)).
Proof. intros H w s' E Hc. simpl in E. injection E as <-. congruence. Qed.

Lemma confirmed_bind {A} (m : M B A) (k : A -> M B (value (result B))) :
  still m -> (forall a, confirmed (k a)) -> confirmed (bind m k).
Proof.
  intros Hm Hk w s. unfold bind. specialize (Hm w).
  destruct (m w) as [[a|e] w']; simpl in *; subst; [apply Hk | discriminate].
Qed.

Lemma confirmed_validate (cols : list str)
      (k : option str -> M B (value (result B))) :
  (forall names e, first_missing names cols = Some e ->
                   confirmed (k (Some e))) ->
  confirmed (k None) ->
  confirmed (bind (_validate_columns B cols) k).
Proof.
  intros Hsome Hnone w. rewrite validate_run.
  destruct (first_missing (col_names (self_df w)) cols) as [e|] eqn:E.
  - now apply (Hsome _ e E).
  - apply Hnone.
Qed.

Lemma confirmed_show (c : chart (result B)) (s : str) :
  confirmed (bind (show B c) (fun _ => ret (VStr s))).
Proof.
  intros w s' E _. revert E. unfold bind. rewrite show_run.
  destruct (fst (draw B c (self_df w))); simpl; [|discriminate].
  intros _. now exists c.
Qed.

Ltac confirmed_step :=
  match goal with
  | |- confirmed (bind (_validate_columns _ _) _) =>
      apply confirmed_validate; [intros ? ? ?|]
  | |- confirmed (bind (show _ _) _) => apply confirmed_show
  | |- confirmed (bind _ _) =>
      apply confirmed_bind;
      [first [apply still_get | apply still_lift
             | apply still_invoke; apply HB
             | apply still_aggregate]|intros ?]
  | H : first_missing _ _ = Some ?e |- confirmed (ret (VStr ?e)) =>
      apply confirmed_ret_str; exact (confirmation_first_missing _ _ _ H)
  | |- confirmed (ret (VStr _)) => apply confirmed_ret_str; reflexivity
  | |- confirmed (ret _) => intros ? ? ?; discriminate
  | |- confirmed (if ?b then _ else _) => destruct b
  | |- confirmed (match ?x with _ => _ end) => destruct x eqn:?
  end.

Lemma confirmed_dispatch (func : str) (args : list str) :
  ~ In func library_texts -> confirmed (dispatch B func args).
Proof.
  intros H.
  assert (H1 : str_eqb func "info" = false).
  { apply str_eqb_neq. intros ->. apply H. now left. }
  assert (H2 : str_in func single_col_funcs = false).
  { apply str_in_not_In. intros Hin. apply H. now right. }
  unfold dispatch. rewrite H1, H2.
  unfold head_or_tail, forward, one_column, groupby.
  repeat confirmed_step.
Qed.

End Display.

(** X12.  Charts and confirmations.  With methods that leave the table
    alone: after any command, either the world is as before, or exactly one
    chart was added to the display, the table is as before and the result
    is a confirmation text; in particular nothing is drawn when [run]
    raises.  A command whose function is not plot, hist, scatter, box or
    heatmap leaves the world as it is.  And a confirmation text is returned
    only with a chart drawn, unless the command is [info] or a statistic of
    one column, whose text the dataframe library makes. *)
Theorem X12_charts_and_confirmations (B : backend) (command : str)
        (w : world (result B)) :
  harmless B ->
  (snd (run B command w) = w \/
   (exists c s,
      snd (run B command w)
      = {| self_df := self_df w; screen := screen w ++ [c] |} /\
      fst (run B command w) = Ret (VStr s) /\ confirmation s = true)) /\
  (forall func args,
     parsed B command = Some (func, args) -> ~ In func chart_functions ->
     snd (run B command w) = w) /\
  (forall s,
     fst (run B command w) = Ret (VStr s) -> confirmation s = true ->
     (exists c,
        snd (run B command w)
        = {| self_df := self_df w; screen := screen w ++ [c] |}) \/
     (exists func args,
        parsed B command = Some (func, args) /\ In func library_texts)).
Proof.
  intros HB. split; [now apply tidy_run|]. split.
  - intros func args Hp Hno. rewrite (run_parsed B _ _ _ Hp).
    now apply still_dispatch.
  - intros s. unfold run.
    destruct (str_eqb (strip command) []) eqn:E0.
    { intros H Hc. apply ret_str_inj in H. subst s. discriminate Hc. }
    destruct (str_eqb (strip command) "help") eqn:E1.
    { intros H Hc. apply ret_str_inj in H. subst s. discriminate Hc. }
    destruct (re_match B (strip command)) as [[func argstr]|] eqn:Em.
    + intros H Hc.
      destruct (str_in func library_texts) eqn:Ein.
      * right. exists func, (parse_args argstr). split.
        -- unfold parsed. now rewrite E0, E1, Em.
        -- now apply str_in_In.
      * left. apply str_in_not_In in Ein.
        now apply (confirmed_dispatch B HB func _ Ein w s).
    + intros H Hc. apply ret_str_inj in H. subst s. discriminate Hc.
Qed.

Lemma X12_charts_and_confirmations_witness :
  snd (run Demo.pandas "median(salary)" Demo.start) = Demo.start.
Proof.
  destruct (X12_charts_and_confirmations Demo.pandas "median(salary)"
              Demo.start pandas_harmless) as (_ & H & _).
  apply (H "median" ["salary" : str] eq_refl).
  apply str_in_not_In. reflexivity.
Defined.

(** ** Sessions *)

Lemma session_app (B : backend) (l1 l2 : list str) (w : world (result B)) :
  session B (l1 ++ l2) w
  = let '(p1, e1, w1) := session B l1 w in
    match e1 with
    | Some e => (p1, Some e, w1)
    | None => let '(p2, e2, w2) := session B l2 w1 in (p1 ++ p2, e2, w2)
    end.
Proof.
  revert w. induction l1 as [|raw l1 IH]; intros w; simpl.
  - now destruct (session B l2 w) as [[p2 e2] w2].
  - destruct (str_eqb (strip raw) []); [apply IH|].
    destruct (run B (strip raw) w) as [[out|e] w']; [|reflexivity].
    rewrite IH. destruct (session B l1 w') as [[p1 e1] w1].
    destruct e1 as [e|]; [reflexivity|].
    now destruct (session B l2 w1) as [[p2 e2] w2].
Qed.

Lemma session_count (B : backend) (l : list str) (w : world (result B)) :
  let lines := filter (fun raw => negb (str_eqb (strip raw) [])) l in
  let '(p, e, _) := session B l w in
  (List.length p <= List.length lines)%nat /\
  (e = None -> List.length p = List.length lines).
Proof.
  revert w. induction l as [|raw l IH]; intros w; simpl.
  - split; [apply le_n | reflexivity].
  - destruct (str_eqb (strip raw) []); simpl; [apply IH|].
    destruct (run B (strip raw) w) as [[out|e] w'].
    + specialize (IH w'). simpl in IH.
      destruct (session B l w') as [[p e] w'']. simpl.
      destruct IH as [H1 H2]. split; [lia | intros He; now rewrite H2].
    + simpl. split; [lia | discriminate].
Qed.

Lemma session_blank (B : backend) (l : list str) (w : world (result B)) :
  Forall blank l -> session B l w = ([], None, w).
Proof.
  induction 1 as [|raw l Hb _ IH]; simpl; [reflexivity|].
  now rewrite (strip_blank raw Hb).
Qed.

(** X13.  A session is the sequence of its parts.  The session over the
    lines [l1] followed by [l2] is the session over [l1], and, unless that
    one ended on an exception, the session over [l2] from the world it
    reached, the outputs put end to end; after an exception nothing more is
    read.  A session prints at most one result for each line that is not
    blank, and exactly one for each when no exception ended it; lines of
    whitespace only, of any script, print nothing. *)
Theorem X13_session_in_parts (B : backend) (l1 l2 : list str)
        (w : world (result B)) :
  session B (l1 ++ l2) w
  = (let '(p1, e1, w1) := session B l1 w in
     match e1 with
     | Some e => (p1, Some e, w1)
     | None => let '(p2, e2, w2) := session B l2 w1 in (p1 ++ p2, e2, w2)
     end) /\
  (let lines := filter (fun raw => negb (str_eqb (strip raw) [])) l1 in
   let '(p, e, _) := session B l1 w in
   (List.length p <= List.length lines)%nat /\
   (e = None -> List.length p = List.length lines)) /\
  (Forall blank l1 -> session B l1 w = ([], None, w)).
Proof.
  split; [apply session_app|]. split; [apply session_count|].
  apply session_blank.
Qed.

(** ** The entry point *)

Lemma run_blank (B : backend) (c : str) (w : world (result B)) :
  blank c -> run B c w = (Ret (VStr "❌ Empty command"), w).
Proof.
  intros H. unfold run. now rewrite (strip_blank c H).
Qed.

(** X14.  The two modes of [main].  The [--repl] flag changes nothing:
    with a command given (and not empty) [main] runs that one command,
    prints its result and reads no line; without, it always enters the
    loop, whose first output is the banner.  A command that is not empty
    but blank is answered with the empty-command text in the one-command
    mode, while the loop skips such a line without any output. *)
Theorem X14_main_modes (B : backend) (o : options) (inputs : list str)
        (w : world (result B)) :
  main B {| cmd := cmd o; repl := true |} inputs w
  = main B {| cmd := cmd o; repl := false |} inputs w /\
  (given (cmd o) = true -> main B o inputs w = main B o [] w) /\
  (given (cmd o) = false ->
   exists rest, fst (fst (main B o inputs w)) = Line banner :: rest) /\
  (forall c, cmd o = Some c -> c <> [] -> blank c ->
     main B o inputs w = ([Value (VStr "❌ Empty command")], None, w) /\
     session B (c :: inputs) w = session B inputs w).
Proof.
  split; [|split; [|split]].
  - unfold main. simpl. destruct (given (cmd o)); reflexivity.
  - intros H. unfold main. now rewrite H.
  - intros H. unfold main. rewrite H, orb_true_r.
    destruct (session B inputs w) as [[p e] w']. now eexists.
  - intros c Hc Hne Hb. split.
    + unfold main. rewrite Hc. destruct c as [|x c]; [congruence|].
      simpl given. cbv iota. now rewrite (run_blank B _ w Hb).
    + simpl. now rewrite (strip_blank c Hb).
Qed.

Lemma X14_main_modes_witness :
  main Demo.pandas {| cmd := Some (" " : str); repl := false |}
       ["shape" : str] Demo.start
  = ([Value (VStr "❌ Empty command")], None, Demo.start).
Proof.
  destruct (X14_main_modes Demo.pandas
              {| cmd := Some (" " : str); repl := false |}
              ["shape" : str] Demo.start) as (_ & _ & _ & H).
  destruct (H (" " : str) eq_refl) as [H1 _];
    [discriminate | reflexivity | exact H1].
Defined.

(** ** Groups *)

Lemma f64_compare_eq_lt (x y z : float64) :
  f64_compare x y = Some Eq -> f64_compare y z = Some Lt ->
  f64_compare x z = Some Lt.
Proof.
  destruct x as [[]|[]| |[] m1 e1], y as [[]|[]| |[] m2 e2],
           z as [[]|[]| |[] m3 e3]; simpl;
    try discriminate; try reflexivity;
    change (Pos.compare_cont Eq ?a ?b) with (Pos.compare a b);
    intros H1 H2; compare_cases; simpl in *;
    solve [reflexivity | discriminate | lia].
Qed.

Lemma cell_compare_eq_lt (a b c : cell) :
  present a -> present b -> present c ->
  cell_compare a b = Eq -> key_lt b c -> key_lt a c.
Proof.
  unfold key_lt.
  destruct a as [x|x|x|x], b as [y|y|y|y]; simpl; intros Ha Hb Hc;
    try discriminate.
  - intros E. apply Z.compare_eq in E.
    destruct c; simpl; try (intros; assumption). now rewrite E.
  - intros E. apply Z.compare_eq in E. now subst.
  - destruct (f64_compare_present x y) as [c1 H1];
      [now apply present_float | now apply present_float|].
    rewrite H1. intros ->. destruct c as [z|z|z|z]; simpl; try tauto.
    destruct (f64_compare_present y z) as [c2 H2];
      [now apply present_float | now apply present_float|].
    rewrite H2. intros ->. now rewrite (f64_compare_eq_lt _ _ _ H1 H2).
  - intros E. apply str_compare_eq in E. now subst.
Qed.

Lemma sorted_cases (l : list cell) (k1 k2 : cell) :
  StronglySorted key_lt l -> In k1 l -> In k2 l ->
  k1 = k2 \/ key_lt k1 k2 \/ key_lt k2 k1.
Proof.
  induction 1 as [|h t Hs IH Hh]; simpl; [tauto|].
  rewrite Forall_forall in Hh.
  intros [<-|H1] [<-|H2]; auto.
Qed.

Lemma group_key_unique (cs : list cell) (c k1 k2 : cell) :
  In k1 (group_keys cs) -> In k2 (group_keys cs) ->
  same_key k1 c = true -> same_key k2 c = true -> k1 = k2.
Proof.
  intros H1 H2 S1 S2.
  destruct (group_keys_spec cs) as (K1 & _ & K3).
  destruct (K1 k1 H1) as [_ P1]. destruct (K1 k2 H2) as [_ P2].
  unfold same_key in S1, S2.
  apply andb_true_iff in S1 as [Pc E1]. apply andb_true_iff in S2 as [_ E2].
  apply negb_true_iff in Pc.
  destruct (cell_compare c k1) eqn:C1; try discriminate.
  destruct (cell_compare c k2) eqn:C2; try discriminate.
  destruct (sorted_cases _ _ _ K3 H1 H2) as [E|[L|L]]; [assumption| |].
  - pose proof (cell_compare_eq_lt c k1 k2 Pc P1 P2 C1 L) as X.
    unfold key_lt in X. congruence.
  - pose proof (cell_compare_eq_lt c k2 k1 Pc P2 P1 C2 L) as X.
    unfold key_lt in X. congruence.
Qed.

(** X15.  The groups of [groupby] partition the rows whose grouping entry
    is present.  No group is empty; every row with a present grouping
    entry belongs to the group of exactly one key; a row whose grouping
    entry is missing belongs to none. *)
Theorem X15_groups_partition (df : DataFrame) (g t : str) (i j : nat)
        (dg dt : dtype) (by_ target : Series) :
  find_column g (columns df) 0 = Some (i, dg) ->
  find_column t (columns df) 0 = Some (j, dt) ->
  getitem df g = Ret by_ -> getitem df t = Ret target ->
  let keys := group_keys (map snd (values by_)) in
  (forall k, In k keys -> values (group_of k by_ target) <> []) /\
  (forall r, In r (rows df) -> present (entry i r) ->
     exists k, In k keys /\ same_key k (entry i r) = true /\
               forall k', In k' keys -> same_key k' (entry i r) = true ->
                          k' = k) /\
  (forall r k, is_null (entry i r) = true -> same_key k (entry i r) = false).
Proof.
  intros Hi Hj Hg Ht keys.
  assert (Hk : map snd (values by_) = map (entry i) (rows df)).
  { rewrite (getitem_found _ _ _ _ Hi) in Hg. injection Hg as <-.
    simpl. now rewrite map_map. }
  unfold keys. rewrite Hk.
  destruct (group_keys_spec (map (entry i) (rows df))) as (K1 & K2 & K3).
  split; [|split].
  - intros k Hin. rewrite (group_of_rows df g t i j dg dt _ _ k Hi Hj Hg Ht).
    destruct (K1 k Hin) as [Hv Hp].
    apply in_map_iff in Hv as (r & Hr & Hin').
    assert (Hf : In r (filter (fun r => same_key k (entry i r)) (rows df))).
    { apply filter_In. split; [assumption|]. rewrite Hr. unfold same_key.
      unfold present in Hp. now rewrite Hp, (cell_compare_refl k Hp). }
    destruct (filter _ (rows df)); [destruct Hf | discriminate].
  - intros r Hr Hp.
    destruct (K2 (entry i r) (in_map _ _ _ Hr) Hp) as (k & Hin & He).
    assert (Hs : same_key k (entry i r) = true).
    { unfold same_key. unfold present in Hp. now rewrite Hp, He. }
    exists k. split; [assumption|]. split; [assumption|].
    intros k' Hin' Hs'.
    now apply (group_key_unique (map (entry i) (rows df)) (entry i r)).
  - intros r k Hn. unfold same_key. now rewrite Hn.
Qed.

Lemma X15_groups_partition_witness :
  values (group_of (CStr "sales")
            {| name := "department"; dtype_of := Object;
               values := map (fun r => (label r, entry 0 r))
                             (rows Demo.staff) |}
            {| name := "salary"; dtype_of := Int64;
               values := map (fun r => (label r, entry 1 r))
                             (rows Demo.staff) |}) <> [].
Proof.
  apply (proj1 (X15_groups_partition Demo.staff "department" "salary"
                  0 1 Object Int64 _ _ eq_refl eq_refl eq_refl eq_refl)).
  right. left. reflexivity.
Defined.

(** ** Filters in sequence *)

Lemma filter_comm {A} (f g : A -> bool) (l : list A) :
  filter f (filter g l) = filter g (filter f l).
Proof.
  induction l as [|x l IH]; simpl; [reflexivity|].
  destruct (f x) eqn:Ef, (g x) eqn:Eg; simpl; rewrite ?Ef, ?Eg, IH;
    reflexivity.
Qed.

Lemma filter_result (B : backend) (command : str) (args : list str)
      (w w' : world (result B)) (out : DataFrame) :
  parsed B command = Some ("filter" : str, args) ->
  run B command w = (Ret (VFrame out), w') ->
  w' = w /\
  exists col op value q,
    args = [col; op; value] /\
    keeps B (columns (self_df w)) col op value = Some q /\
    out = {| columns := columns (self_df w);
             rows := filter q (rows (self_df w)) |}.
Proof.
  intros Hp Hrun. rewrite (run_parsed B _ _ _ Hp) in Hrun.
  destruct args as [|col [|op [|value [|x rest]]]];
    try (rewrite dispatch_filter in Hrun; discriminate Hrun).
  rewrite filter_run in Hrun. cbv zeta in Hrun.
  destruct (first_missing (col_names (self_df w)) [col]); [discriminate|].
  destruct (getitem (self_df w) col) as [s|e] eqn:Hg; [|discriminate].
  destruct (parse_op op) as [o|] eqn:Ho; [|discriminate].
  destruct (compare_series o s (coerce B s value)) as [mask|e] eqn:Hc;
    [|discriminate].
  injection Hrun as <- <-. split; [reflexivity|].
  destruct (getitem_Ret _ _ _ Hg) as (i & Hf & Hs).
  destruct s as [n d vals]. simpl in Hf, Hs. injection Hs as -> ->.
  pose proof (select_rows _ _ _ _ _ _ _ _ Hf Hg Hc) as Hrows.
  eexists col, op, value, _. split; [reflexivity|]. split.
  - unfold keeps. rewrite Hf, Ho. reflexivity.
  - unfold select. f_equal. exact Hrows.
Qed.

(** X16.  Filters commute.  Take two filter commands and an analyzer; run
    the first, load its result and run the second; and the other way
    round.  When all four runs return tables, the two final tables are the
    same: the rows that pass both tests, in table order. *)
Theorem X16_filters_commute (B : backend) (c1 c2 : str) (a1 a2 : list str)
        (w w1 w2 w12 w21 : world (result B)) (t1 t2 t12 t21 : DataFrame) :
  parsed B c1 = Some ("filter" : str, a1) ->
  parsed B c2 = Some ("filter" : str, a2) ->
  run B c1 w = (Ret (VFrame t1), w1) ->
  run B c2 {| self_df := t1; screen := screen w1 |} = (Ret (VFrame t12), w12) ->
  run B c2 w = (Ret (VFrame t2), w2) ->
  run B c1 {| self_df := t2; screen := screen w2 |} = (Ret (VFrame t21), w21) ->
  t12 = t21.
Proof.
  intros P1 P2 R1 R12 R2 R21.
  destruct (filter_result B _ _ _ _ _ P1 R1)
    as (_ & col1 & op1 & v1 & q1 & -> & K1 & ->).
  destruct (filter_result B _ _ _ _ _ P2 R2)
    as (_ & col2 & op2 & v2 & q2 & -> & K2 & ->).
  destruct (filter_result B _ _ _ _ _ P2 R12)
    as (_ & col2' & op2' & v2' & q2' & E2 & K2' & ->).
  destruct (filter_result B _ _ _ _ _ P1 R21)
    as (_ & col1' & op1' & v1' & q1' & E1 & K1' & ->).
  injection E1 as <- <- <-. injection E2 as <- <- <-.
  simpl in *. rewrite K2 in K2'. rewrite K1 in K1'.
  injection K2' as <-. injection K1' as <-.
  f_equal. apply filter_comm.
Qed.

Lemma X16_filters_commute_witness :
  select (select Demo.staff [true; true; false]) [true; false]
  = select (select Demo.staff [true; false; true]) [true; false].
Proof.
  apply (X16_filters_commute Demo.pandas "filter(department, ==, eng)"
           "filter(salary, <, 150)"
           [("department" : str); ("==" : str); ("eng" : str)]
           [("salary" : str); ("<" : str); ("150" : str)] Demo.start Demo.start Demo.start
           {| self_df := select Demo.staff [true; true; false]; screen := [] |}
           {| self_df := select Demo.staff [true; false; true]; screen := [] |}
           (select Demo.staff [true; true; false])
           (select Demo.staff [true; false; true]));
    reflexivity.
Defined.
